(** * Gepetto: a shallow embedding of [gepetto.py]

    The plugin sends decompiled functions to a chat-completion endpoint and
    writes the replies back into the disassembler's database.  This file
    embeds the pure string logic of the script (window shrinking, JSON
    extraction, comment splicing, identifier substitution) and the control
    flow of its retry chains, and states the properties of the
    specification over them.

    Conventions.
    - A Python [str] is a [list ascii]; a character stands for the code
      point of the same number, so the texts covered are those whose code
      points are below 256.  The character classes below are the ones
      Python uses on that range.
    - Python integers are [Z]; positions inside the regular-expression
      engine are [nat] and are injected into [Z] where the script does
      arithmetic on them.
    - The host (the disassembler) and the remote endpoint are explicit
      state and explicit scripts of replies. *)

From Stdlib Require Import String.
From Stdlib Require Import List Ascii ZArith NArith Lia Bool DecimalString.
Import ListNotations.

Set Implicit Arguments.
Set Warnings "-register-all".
Local Open Scope char_scope.

(* ===================================================================== *)
(** * Python strings *)
(* ===================================================================== *)

Definition str := list ascii.

(** A string literal of the script. *)
Definition py (s : string) : str := list_ascii_of_string s.
Arguments py s%_string.

Definition code (c : ascii) : N := N_of_ascii c.

Definition between (lo hi : N) (c : ascii) : bool :=
  ((lo <=? code c) && (code c <=? hi))%N.

Definition newline : ascii := ascii_of_N 10.

(** The double quote. *)
Definition quote : ascii := ascii_of_N 34.

(** [[0-9]], which is also [\d] below code point 256. *)
Definition is_decimal (c : ascii) : bool := between 48 57 c.

(** The class [[0-9A-Za-z_]]. *)
Definition is_ident_char (c : ascii) : bool :=
  between 48 57 c || between 65 90 c || between 97 122 c || (code c =? 95)%N.

(** [\w] of the [re] module on text patterns: alphanumeric code points
    and the underscore. *)
Definition is_word (c : ascii) : bool :=
  is_ident_char c
  || (code c =? 170)%N || (code c =? 178)%N || (code c =? 179)%N
  || (code c =? 181)%N || (code c =? 185)%N || (code c =? 186)%N
  || between 188 190 c || between 192 214 c || between 216 246 c
  || between 248 255 c.

(** [str.isspace] on one character, the set removed by [str.strip()]. *)
Definition is_space (c : ascii) : bool :=
  between 9 13 c || between 28 32 c || (code c =? 133)%N || (code c =? 160)%N.

(** [str.isdigit] on one character: the decimal digits and the
    superscript digits. *)
Definition is_digit_char (c : ascii) : bool :=
  is_decimal c || (code c =? 178)%N || (code c =? 179)%N || (code c =? 185)%N.

Definition py_len (s : str) : Z := Z.of_nat (length s).

(** Normalisation of a slice bound: negative bounds count from the end,
    and every bound is clamped into [0 .. len]. *)
Definition slice_bound (s : str) (i : Z) : nat :=
  if (i <? 0)%Z then Z.to_nat (Z.max 0 (py_len s + i)) else Z.to_nat i.

(** [s[:i]] *)
Definition slice_to (s : str) (i : Z) : str := firstn (slice_bound s i) s.

(** [s[i:]] *)
Definition slice_from (s : str) (i : Z) : str := skipn (slice_bound s i) s.

Fixpoint starts_with (p s : str) : bool :=
  match p, s with
  | [], _ => true
  | _ :: _, [] => false
  | a :: p', b :: s' => Ascii.eqb a b && starts_with p' s'
  end.

(** Lowest index at which [sub] occurs in [s]. *)
Fixpoint find_index (sub s : str) : option nat :=
  if starts_with sub s then Some 0
  else match s with
       | [] => None
       | _ :: s' => option_map S (find_index sub s')
       end.

(** Highest index at which [sub] occurs in [s]. *)
Fixpoint rfind_index (sub s : str) : option nat :=
  match s with
  | [] => if starts_with sub [] then Some 0 else None
  | _ :: s' =>
      match rfind_index sub s' with
      | Some i => Some (S i)
      | None => if starts_with sub s then Some 0 else None
      end
  end.

(** [s.find(sub)] *)
Definition py_find (s sub : str) : Z :=
  match find_index sub s with
  | Some i => Z.of_nat i
  | None => (-1)%Z
  end.

(** [sub in s] *)
Definition py_in (sub s : str) : bool :=
  match find_index sub s with Some _ => true | None => false end.

(** [s.split(sep, 1)] *)
Definition split_once (sep s : str) : list str :=
  match find_index sep s with
  | Some i => [firstn i s; skipn (i + length sep) s]
  | None => [s]
  end.

(** [s.rsplit(sep, 1)] *)
Definition rsplit_once (sep s : str) : list str :=
  match rfind_index sep s with
  | Some i => [firstn i s; skipn (i + length sep) s]
  | None => [s]
  end.

(** [l[-1]] and [l[0]] on the non-empty lists returned by the splits. *)
Definition py_last (l : list str) : str := last l [].
Definition py_first (l : list str) : str := hd [] l.

(** [sep.join(l)] *)
Fixpoint py_join (sep : str) (l : list str) : str :=
  match l with
  | [] => []
  | [x] => x
  | x :: l' => x ++ sep ++ py_join sep l'
  end.

Fixpoint lstrip (s : str) : str :=
  match s with
  | c :: s' => if is_space c then lstrip s' else s
  | [] => []
  end.

Definition rstrip (s : str) : str := rev (lstrip (rev s)).

(** [s.strip()] *)
Definition py_strip (s : str) : str := rstrip (lstrip s).

Definition str_eqb (a b : str) : bool :=
  (length a =? length b)%nat && starts_with a b.

(* ===================================================================== *)
(** * Regular expressions

    The patterns of the script only repeat single-character classes, so
    the abstract syntax has no general star and the backtracking matcher
    is structurally recursive.  The matcher follows the search order of
    Python's engine: a greedy repetition tries the longest run first, a
    lazy one the shortest, and the first success wins. *)
(* ===================================================================== *)

Inductive regex : Type :=
| Emp                                   (* the empty pattern *)
| Chr (c : ascii)                       (* a literal character *)
| Cls (p : ascii -> bool)               (* one character of a class *)
| Rep (greedy : bool) (p : ascii -> bool)  (* [p*] and [p*?] *)
| Bnd                                   (* [\b] *)
| Grp (r : regex)                       (* a capturing group *)
| Cat (r1 r2 : regex).

(** A literal text as a pattern. *)
Fixpoint lit (s : str) : regex :=
  match s with
  | [] => Emp
  | c :: s' => Cat (Chr c) (lit s')
  end.

(** [p+], greedy. *)
Definition plus (p : ascii -> bool) : regex := Cat (Cls p) (Rep true p).

(** [.] without and with [re.DOTALL]. *)
Definition dot (c : ascii) : bool := negb (Ascii.eqb c newline).
Definition dot_all (_ : ascii) : bool := true.

(** The state of a match attempt: the position reached, the character
    just before it, the text still ahead, and the spans of the groups
    closed so far (in the order they closed). *)
Record cursor : Type := Cursor {
  c_pos : nat;
  c_prev : option ascii;
  c_rest : str;
  c_caps : list (nat * nat)
}.

Definition word_before (cur : cursor) : bool :=
  match c_prev cur with Some c => is_word c | None => false end.

Definition word_after (cur : cursor) : bool :=
  match c_rest cur with c :: _ => is_word c | [] => false end.

Definition advance (cur : cursor) (c : ascii) (rest : str) : cursor :=
  Cursor (S (c_pos cur)) (Some c) rest (c_caps cur).

Section Engine.

Variable k : cursor -> option cursor.

Fixpoint rep_greedy (p : ascii -> bool) (rest : str) (cur : cursor)
  : option cursor :=
  match rest with
  | c :: rest' =>
      if p c then
        match rep_greedy p rest' (advance cur c rest') with
        | Some r => Some r
        | None => k cur
        end
      else k cur
  | [] => k cur
  end.

Fixpoint rep_lazy (p : ascii -> bool) (rest : str) (cur : cursor)
  : option cursor :=
  match k cur with
  | Some r => Some r
  | None =>
      match rest with
      | c :: rest' =>
          if p c then rep_lazy p rest' (advance cur c rest') else None
      | [] => None
      end
  end.

End Engine.

Fixpoint exec (r : regex) (cur : cursor) (k : cursor -> option cursor)
  : option cursor :=
  match r with
  | Emp => k cur
  | Chr c =>
      match c_rest cur with
      | x :: rest' => if Ascii.eqb x c then k (advance cur x rest') else None
      | [] => None
      end
  | Cls p =>
      match c_rest cur with
      | x :: rest' => if p x then k (advance cur x rest') else None
      | [] => None
      end
  | Rep true p => rep_greedy k p (c_rest cur) cur
  | Rep false p => rep_lazy k p (c_rest cur) cur
  | Bnd => if xorb (word_before cur) (word_after cur) then k cur else None
  | Grp r' =>
      exec r' cur (fun cur' =>
        k (Cursor (c_pos cur') (c_prev cur') (c_rest cur')
                  (c_caps cur' ++ [(c_pos cur, c_pos cur')])))
  | Cat r1 r2 => exec r1 cur (fun cur' => exec r2 cur' k)
  end.

(** One attempt at a fixed start.  With [must_advance] an empty match is
    refused and the engine backtracks for a longer one. *)
Definition attempt (r : regex) (must_advance : bool) (cur : cursor)
  : option cursor :=
  exec r cur (fun cur' =>
    if must_advance && (c_pos cur' =? c_pos cur)%nat then None else Some cur').

(** A match object: [m.start()], [m.end()] and the spans of the groups. *)
Record rmatch : Type := Match {
  m_start : nat;
  m_end : nat;
  m_groups : list (nat * nat)
}.

Definition span (s : str) (a b : nat) : str := firstn (b - a) (skipn a s).

(** [m.group(0)] *)
Definition group0 (s : str) (m : rmatch) : str := span s (m_start m) (m_end m).

(** [m.group(i)] for [i >= 1] *)
Definition group (s : str) (m : rmatch) (i : nat) : str :=
  match nth_error (m_groups m) (i - 1) with
  | Some (a, b) => span s a b
  | None => []
  end.

Fixpoint search_loop (r : regex) (pos : nat) (prev : option ascii) (rest : str)
  : option rmatch :=
  match attempt r false (Cursor pos prev rest []) with
  | Some cur' => Some (Match pos (c_pos cur') (c_caps cur'))
  | None =>
      match rest with
      | [] => None
      | c :: rest' => search_loop r (S pos) (Some c) rest'
      end
  end.

(** [re.search(r, s)]: the leftmost start at which the pattern matches. *)
Definition re_search (r : regex) (s : str) : option rmatch :=
  search_loop r 0 None s.

(** The loop of [re.sub]: non-overlapping matches from left to right.
    [skip] counts the characters of the current match still to be dropped.
    After an empty match the same start is tried once more for a longer
    match before the character is copied. *)
Fixpoint sub_loop (r : regex) (repl : str) (skip : nat)
    (pos : nat) (prev : option ascii) (rest : str) : str :=
  match skip, rest with
  | S n, c :: rest' => sub_loop r repl n (S pos) (Some c) rest'
  | S _, [] => []
  | O, _ =>
      let cur := Cursor pos prev rest [] in
      let copy :=
        match rest with
        | c :: rest' => c :: sub_loop r repl 0 (S pos) (Some c) rest'
        | [] => []
        end in
      let drop (n : nat) :=
        match rest with
        | c :: rest' => sub_loop r repl (n - 1) (S pos) (Some c) rest'
        | [] => []
        end in
      match attempt r false cur with
      | None => copy
      | Some cur' =>
          if (c_pos cur' =? pos)%nat then
            repl ++
            match attempt r true cur with
            | Some cur'' => repl ++ drop (c_pos cur'' - pos)
            | None => copy
            end
          else repl ++ drop (c_pos cur' - pos)
      end
  end.

(** [re.sub(r, repl, s)] for a replacement text without backslashes. *)
Definition re_sub (r : regex) (repl s : str) : str :=
  sub_loop r repl 0 0 None s.

(* ===================================================================== *)
(** * Shrinking the decompilation (lines 160-187) *)
(* ===================================================================== *)

(** [(\{[0-9A-Za-z_]*\})] *)
Definition placeholder_re : regex :=
  Grp (Cat (Chr "{") (Cat (Rep true is_ident_char) (Chr "}"))).

(** [.*(\{[0-9A-Za-z_]*\})] *)
Definition last_placeholder_re : regex :=
  Cat (Rep true dot) placeholder_re.

Definition default_window : Z := 320.

Definition ellipsis : str := py "// ...".

Local Open Scope Z_scope.

Definition shrink_decompilation (decompilation : str) (window : Z) : str :=
  let start_match := re_search placeholder_re decompilation in
  let end_match := re_search last_placeholder_re decompilation in
  let start :=
    match start_match with Some m => Z.of_nat (m_start m) | None => 0 end in
  let end_ :=
    match end_match with
    | Some m => Z.of_nat (m_end m)
    | None => py_len decompilation
    end in
  if start >? 0 then
    let text := decompilation in
    let func_content_start := py_find decompilation [newline; "{"; newline] + 2 in
    let sw := 0 in
    let '(sw, text) :=
      if start - window >? 0 then
        let sw := Z.max func_content_start (start - window) in
        let title := slice_to decompilation func_content_start in
        let content := py_last (split_once [newline] (slice_from text sw)) in
        (sw, py_join [newline] [title; ellipsis; content])
      else (sw, text) in
    let text :=
      if end_ + window - sw <? py_len text - 1 then
        let text :=
          py_first (rsplit_once [newline] (slice_to text (end_ + window - sw))) in
        py_join [newline] [text; ellipsis; py "}"]
      else text in
    text
  else decompilation.

Local Close Scope Z_scope.

(* ===================================================================== *)
(** * What the script prints and does

    The texts printed by the script go through the message catalogue;
    they are kept as catalogue entries with their arguments.  Effects on
    the outside world are recorded, in order, in a trace. *)
(* ===================================================================== *)

Inductive message : Type :=
| MsgRequestSent                       (* "Request to gpt-3.5-turbo sent..." *)
| MsgCouldNotComplete (error : str)    (* "... could not complete the request: {error}" *)
| MsgGeneralException (error : str)    (* "General exception encountered ..." *)
| MsgContextExceeded (max_tokens : Z)  (* "Context length exceeded! Reducing ..." *)
| MsgTooBig                            (* "Unfortunately, this function is too big ..." *)
| MsgGivingUp                          (* "Could not obtain valid data ..., giving up. ..." *)
| MsgRaw (text : str)                  (* print(response) *)
| MsgCannotExtract                     (* "Cannot extract valid JSON from the response. ..." *)
| MsgInvalidJson                       (* "The JSON document returned is invalid. ..." *)
| MsgExplainFinished                   (* "gpt-3.5-turbo query finished!" *)
| MsgRenameFinished (replaced : Z)     (* "... {replaced} variable(s) renamed." *)
| MsgCommentsFinished.                 (* "davinci-003 query finished!" *)

(** An exception that nothing in the script catches. *)
Inductive exn : Type :=
| MaxOfEmptySequence      (* ValueError: max() arg is an empty sequence *)
| IntValueError (s : str) (* ValueError raised by int(s) *)
| NotAText.               (* TypeError: a replacement that is not a str *)

(** The callbacks a reply can be handed to. *)
Inductive handler : Type :=
| CommentCallback
| InlineCommentsCallback
| RenameCallback.

(** The keyword arguments of [openai.ChatCompletion.create]. *)
Record request : Type := Request {
  req_model : str;
  req_messages : list (str * str);      (* role, content *)
  req_max_tokens : option Z             (* absent unless passed *)
}.

(* ===================================================================== *)
(** * The query wrapper (lines 371-406) *)
(* ===================================================================== *)

(** What one call of the endpoint does to the [try] block. *)
Inductive api_outcome : Type :=
| Reply (content : str)          (* response.choices[0]["message"]["content"] *)
| InvalidRequest (text : str)    (* openai.InvalidRequestError, [str(e)] *)
| OpenAIError (text : str)       (* any other openai.OpenAIError *)
| OtherException (text : str).   (* any other Exception *)

Inductive query_event : Type :=
| Sent (r : request)             (* the request handed to the endpoint *)
| ExecuteSync (response : str)   (* the reply queued for the callback *)
| Printed (m : message)
| Uncaught (e : exn).            (* an exception that ends the call *)

(** [maximum context length is (\d+) tokens, however you requested \d+
    tokens \((\d+) in your prompt;] *)
Definition context_length_re : regex :=
  Cat (lit (py "maximum context length is "))
 (Cat (Grp (plus is_decimal))
 (Cat (lit (py " tokens, however you requested "))
 (Cat (plus is_decimal)
 (Cat (lit (py " tokens ("))
 (Cat (Grp (plus is_decimal))
      (lit (py " in your prompt;"))))))).

(** The value of a run of decimal digits. *)
Definition digit_value (c : ascii) : Z := Z.of_N (code c) - 48.

Definition py_int (s : str) : Z :=
  fold_left (fun acc c => 10 * acc + digit_value c)%Z s 0%Z.

(** The longest text that [int] converts, as the interpreter sets it
    ([sys.get_int_max_str_digits()]). *)
Definition max_str_digits : nat := 4300.

(** [int(s)] on a run of decimal digits; [None] when the run is too long
    and [int] raises a [ValueError]. *)
Definition int_of_digits (s : str) : option Z :=
  if (length s <=? max_str_digits)%nat then Some (py_int s) else None.

(** Lines 389-394: what the error text gives. *)
Inductive limits : Type :=
| NoLimits                                  (* the pattern is not found *)
| Limits (hard_limit prompt_tokens : Z)
| LimitsTooLong (digits : str).             (* [int] raises *)

Definition context_limits (error : str) : limits :=
  match re_search context_length_re error with
  | None => NoLimits
  | Some m =>
      match int_of_digits (group error m 1) with
      | None => LimitsTooLong (group error m 1)
      | Some hard_limit =>
          match int_of_digits (group error m 2) with
          | None => LimitsTooLong (group error m 2)
          | Some prompt_tokens => Limits hard_limit prompt_tokens
          end
      end
  end.

Definition chat_request (query : str) : request :=
  Request (py "gpt-3.5-turbo") [(py "user", query)] None.

Definition default_max_tokens : Z := 2500.

(** [api n] is what the endpoint does to the [n]-th request of the
    chain.  [fuel] bounds the depth of the recursion; [None] means the
    chain was still retrying when the fuel ran out. *)
Fixpoint query_model (fuel : nat) (api : nat -> api_outcome) (n : nat)
    (query : str) (max_tokens : Z) : option (list query_event) :=
  match fuel with
  | O => None
  | S fuel' =>
      match api n with
      | Reply content =>
          Some [Sent (chat_request query); ExecuteSync content]
      | InvalidRequest e =>
          match context_limits e with
          | NoLimits =>
              Some [Sent (chat_request query); Printed (MsgCouldNotComplete e)]
          | LimitsTooLong digits =>
              Some [Sent (chat_request query); Uncaught (IntValueError digits)]
          | Limits hard_limit prompt_tokens =>
              let max_tokens := (hard_limit - prompt_tokens)%Z in
              if (max_tokens >=? 750)%Z then
                match query_model fuel' api (S n) query max_tokens with
                | Some t =>
                    Some (Sent (chat_request query)
                          :: Printed (MsgContextExceeded max_tokens) :: t)
                | None => None
                end
              else Some [Sent (chat_request query); Printed MsgTooBig]
          end
      | OpenAIError e =>
          Some [Sent (chat_request query); Printed (MsgCouldNotComplete e)]
      | OtherException e =>
          Some [Sent (chat_request query); Printed (MsgGeneralException e)]
      end
  end.

(** The requests of a trace, in order. *)
Fixpoint requests_of (t : list query_event) : list request :=
  match t with
  | [] => []
  | Sent r :: t' => r :: requests_of t'
  | _ :: t' => requests_of t'
  end.

(** The budgets announced by the retries of a trace, in order. *)
Fixpoint budgets_of (t : list query_event) : list Z :=
  match t with
  | [] => []
  | Printed (MsgContextExceeded b) :: t' => b :: budgets_of t'
  | _ :: t' => budgets_of t'
  end.

(** A "context length exceeded" text as the endpoint words it. *)
Definition context_error (limit requested prompt completion : str) : str :=
  py "This model's maximum context length is " ++ limit
  ++ py " tokens, however you requested " ++ requested
  ++ py " tokens (" ++ prompt ++ py " in your prompt; " ++ completion
  ++ py " for the completion). Please reduce your prompt; or completion length.".

(* ===================================================================== *)
(** * JSON documents ([json.loads])

    The decoder of the standard library, on the modelled character
    range.  A JSON object becomes a Python [dict]: an association list in
    insertion order with unique keys.  A floating-point literal is kept
    as its text. *)
(* ===================================================================== *)

Inductive json : Type :=
| JNull
| JBool (b : bool)
| JInt (z : Z)
| JFloat (literal : str)
| JStr (s : str)
| JArr (items : list json)
| JObj (members : list (str * json)).

Definition dict := list (str * json).

(** [d[k] = v] *)
Fixpoint dict_set (d : dict) (k : str) (v : json) : dict :=
  match d with
  | [] => [(k, v)]
  | (k', v') :: d' =>
      if str_eqb k' k then (k', v) :: d' else (k', v') :: dict_set d' k v
  end.

(** [d.get(k)] *)
Fixpoint dict_get (d : dict) (k : str) : option json :=
  match d with
  | [] => None
  | (k', v) :: d' => if str_eqb k' k then Some v else dict_get d' k
  end.

(** [d.keys()] *)
Definition dict_keys (d : dict) : list str := map fst d.

(** The result of scanning a prefix of a text.  [Unsupported] marks a
    document whose decoding leaves the model: an escape for a code point
    of 256 or more, an integer too long for [int], or nesting deeper than
    the text is long. *)
Inductive scanned (A : Type) : Type :=
| Scanned (a : A) (rest : str)
| Malformed
| Unsupported.

Arguments Scanned {A} a rest.
Arguments Malformed {A}.
Arguments Unsupported {A}.

Definition is_json_space (c : ascii) : bool :=
  (code c =? 32)%N || (code c =? 9)%N || (code c =? 10)%N || (code c =? 13)%N.

Fixpoint skip_ws (s : str) : str :=
  match s with
  | c :: s' => if is_json_space c then skip_ws s' else s
  | [] => []
  end.

Definition hex_value (c : ascii) : option N :=
  if between 48 57 c then Some (code c - 48)%N
  else if between 65 70 c then Some (code c - 55)%N
  else if between 97 102 c then Some (code c - 87)%N
  else None.

Definition hex4 (a b c d : ascii) : option N :=
  match hex_value a, hex_value b, hex_value c, hex_value d with
  | Some x, Some y, Some z, Some w => Some (((x * 16 + y) * 16 + z) * 16 + w)%N
  | _, _, _, _ => None
  end.

(** The body of a string literal, after its opening quote; [acc] holds
    the decoded characters in reverse. *)
Fixpoint scan_string (s : str) (acc : str) : scanned str :=
  match s with
  | [] => Malformed
  | c :: s' =>
      if Ascii.eqb c quote then Scanned (rev acc) s'
      else if Ascii.eqb c "\" then
        match s' with
        | [] => Malformed
        | e :: s'' =>
            if Ascii.eqb e quote then scan_string s'' (quote :: acc)
            else if Ascii.eqb e "\" then scan_string s'' ("\" :: acc)
            else if Ascii.eqb e "/" then scan_string s'' ("/" :: acc)
            else if Ascii.eqb e "b" then scan_string s'' (ascii_of_N 8 :: acc)
            else if Ascii.eqb e "f" then scan_string s'' (ascii_of_N 12 :: acc)
            else if Ascii.eqb e "n" then scan_string s'' (ascii_of_N 10 :: acc)
            else if Ascii.eqb e "r" then scan_string s'' (ascii_of_N 13 :: acc)
            else if Ascii.eqb e "t" then scan_string s'' (ascii_of_N 9 :: acc)
            else if Ascii.eqb e "u" then
              match s'' with
              | h1 :: h2 :: h3 :: h4 :: s5 =>
                  match hex4 h1 h2 h3 h4 with
                  | Some n =>
                      if (n <? 256)%N then scan_string s5 (ascii_of_N n :: acc)
                      else Unsupported
                  | None => Malformed
                  end
              | _ => Malformed
              end
            else Malformed
        end
      else if (code c <? 32)%N then Malformed
      else scan_string s' (c :: acc)
  end.

(** The longest prefix of decimal digits, and what follows it. *)
Fixpoint take_digits (s : str) : str * str :=
  match s with
  | c :: s' =>
      if is_decimal c then let (d, r) := take_digits s' in (c :: d, r)
      else ([], s)
  | [] => ([], [])
  end.

(** The number at the head of [s]: an optional minus sign, then [0] or a
    run of digits not starting with [0], then an optional fraction (a dot
    and at least one digit), then an optional exponent ([e] or [E], an
    optional sign, at least one digit). *)
Definition scan_number (s : str) : scanned json :=
  let (sign, s1) :=
    match s with
    | c :: s' => if Ascii.eqb c "-" then ([c], s') else ([], s)
    | [] => ([], s)
    end in
  let integer :=
    match s1 with
    | c :: s' =>
        if Ascii.eqb c "0" then Some ([c], s')
        else if between 49 57 c then
          let (d, r) := take_digits s' in Some (c :: d, r)
        else None
    | [] => None
    end in
  match integer with
  | None => Malformed
  | Some (digits, s2) =>
      let (frac, s3) :=
        match s2 with
        | c :: s' =>
            if Ascii.eqb c "." then
              match take_digits s' with
              | ([], _) => ([], s2)
              | (d, r) => (c :: d, r)
              end
            else ([], s2)
        | [] => ([], s2)
        end in
      let (expo, s4) :=
        match s3 with
        | c :: s' =>
            if Ascii.eqb c "e" || Ascii.eqb c "E" then
              let (sg, s'') :=
                match s' with
                | x :: t => if Ascii.eqb x "+" || Ascii.eqb x "-"
                            then ([x], t) else ([], s')
                | [] => ([], s')
                end in
              match take_digits s'' with
              | ([], _) => ([], s3)
              | (d, r) => (c :: sg ++ d, r)
              end
            else ([], s3)
        | [] => ([], s3)
        end in
      match frac, expo with
      | [], [] =>
          match int_of_digits digits with
          | Some z =>
              Scanned (JInt (match sign with [] => z | _ => - z end)%Z) s4
          | None => Unsupported
          end
      | _, _ => Scanned (JFloat (sign ++ digits ++ frac ++ expo)) s4
      end
  end.

Definition scan_constant (s : str) : scanned json :=
  if starts_with (py "null") s then Scanned JNull (skipn 4 s)
  else if starts_with (py "true") s then Scanned (JBool true) (skipn 4 s)
  else if starts_with (py "false") s then Scanned (JBool false) (skipn 5 s)
  else if starts_with (py "NaN") s then Scanned (JFloat (py "NaN")) (skipn 3 s)
  else if starts_with (py "Infinity") s
       then Scanned (JFloat (py "Infinity")) (skipn 8 s)
  else if starts_with (py "-Infinity") s
       then Scanned (JFloat (py "-Infinity")) (skipn 9 s)
  else Malformed.

(** [scan_value] reads one value at the head of the text;
    [scan_members] continues an object whose next key starts right after
    its opening quote; [scan_items] continues an array at the start of
    its next item. *)
Fixpoint scan_value (fuel : nat) (s : str) : scanned json :=
  match fuel with
  | O => Unsupported
  | S fuel' =>
      match s with
      | [] => Malformed
      | c :: s' =>
          if Ascii.eqb c quote then
            match scan_string s' [] with
            | Scanned t rest => Scanned (JStr t) rest
            | Malformed => Malformed
            | Unsupported => Unsupported
            end
          else if Ascii.eqb c "{" then
            match skip_ws s' with
            | x :: rest =>
                if Ascii.eqb x "}" then Scanned (JObj []) rest
                else if Ascii.eqb x quote then scan_members fuel' rest []
                else Malformed
            | [] => Malformed
            end
          else if Ascii.eqb c "[" then
            match skip_ws s' with
            | x :: rest =>
                if Ascii.eqb x "]" then Scanned (JArr []) rest
                else scan_items fuel' (x :: rest) []
            | [] => Malformed
            end
          else
            match scan_number s with
            | Malformed => scan_constant s
            | r => r
            end
      end
  end

with scan_members (fuel : nat) (s : str) (acc : dict) : scanned json :=
  match fuel with
  | O => Unsupported
  | S fuel' =>
      match scan_string s [] with
      | Malformed => Malformed
      | Unsupported => Unsupported
      | Scanned key rest =>
          match skip_ws rest with
          | c :: rest1 =>
              if Ascii.eqb c ":" then
                match scan_value fuel' (skip_ws rest1) with
                | Malformed => Malformed
                | Unsupported => Unsupported
                | Scanned v rest2 =>
                    let acc' := dict_set acc key v in
                    match skip_ws rest2 with
                    | d :: rest3 =>
                        if Ascii.eqb d "}" then Scanned (JObj acc') rest3
                        else if Ascii.eqb d "," then
                          match skip_ws rest3 with
                          | q :: rest4 =>
                              if Ascii.eqb q quote
                              then scan_members fuel' rest4 acc'
                              else Malformed
                          | [] => Malformed
                          end
                        else Malformed
                    | [] => Malformed
                    end
                end
              else Malformed
          | [] => Malformed
          end
      end
  end

with scan_items (fuel : nat) (s : str) (acc : list json) : scanned json :=
  match fuel with
  | O => Unsupported
  | S fuel' =>
      match scan_value fuel' s with
      | Malformed => Malformed
      | Unsupported => Unsupported
      | Scanned v rest =>
          match skip_ws rest with
          | d :: rest1 =>
              if Ascii.eqb d "]" then Scanned (JArr (rev (v :: acc))) rest1
              else if Ascii.eqb d "," then scan_items fuel' (skip_ws rest1) (v :: acc)
              else Malformed
          | [] => Malformed
          end
      end
  end.

(** The three ways [json.loads(s)] can go. *)
Inductive loaded : Type :=
| Loaded (v : json)
| JSONDecodeError
| NotModelled.

Definition json_loads (s : str) : loaded :=
  let s1 := skip_ws s in
  match scan_value (2 * length s1 + 2) s1 with
  | Scanned v rest =>
      match skip_ws rest with
      | [] => Loaded v
      | _ :: _ => JSONDecodeError
      end
  | Malformed => JSONDecodeError
  | Unsupported => NotModelled
  end.

(* ===================================================================== *)
(** * Effects of the callbacks *)
(* ===================================================================== *)

(** [functools.partial(retry_callback, **retry_kwargs, retries=n)]: the
    callback, the address and view it is bound to, and its retry count. *)
Record continuation : Type := Continuation {
  k_handler : handler;
  k_address : Z;
  k_view : bool;
  k_retries : Z
}.

Inductive effect : Type :=
| Print (m : message)
| Spawn (query : str) (k : continuation)   (* a worker thread running [query_model] *)
| RefreshView (redo : bool)                (* view.refresh_view(redo) *)
| RenameLvar (func : Z) (old : str) (new : json) (ok : bool).
                                           (* ida_hexrays.rename_lvar and its result *)

(** Lines 410-418 *)
Definition query_model_async (query : str) (k : continuation) : list effect :=
  [Print MsgRequestSent; Spawn query k].

(* ===================================================================== *)
(** * Extracting the JSON document of a reply (lines 309-340) *)
(* ===================================================================== *)

(** The class [[^}]]. *)
Definition not_close (c : ascii) : bool := negb (Ascii.eqb c "}").

(** [\{[^}]*?\}] *)
Definition braces_re : regex :=
  Cat (Chr "{") (Cat (Rep false not_close) (Chr "}")).

Definition fix_response_prompt (response : str) : str :=
  py "The JSON document provided in this response is invalid. Can you fix it?"
  ++ [newline] ++ response.

Definition fix_json_prompt (document : str) : str :=
  py "Please fix the following JSON document:" ++ [newline] ++ document.

Definition retry_limit : Z := 3.

(** The value returned ([None] for Python's [None]) and the effects, or
    [None] when the decoder leaves the model.  [bind] stands for the
    callback and the keyword arguments the retry is bound to. *)
Definition extract_json_or_retry (response : str) (retries : Z)
    (bind : Z -> continuation) : option (option json * list effect) :=
  match re_search braces_re response with
  | None =>
      if (retries >=? retry_limit)%Z then
        Some (None, [Print MsgGivingUp; Print (MsgRaw response)])
      else
        Some (None,
              Print MsgCannotExtract
              :: query_model_async (fix_response_prompt response)
                                   (bind (retries + 1)%Z))
  | Some j =>
      match json_loads (group0 response j) with
      | JSONDecodeError =>
          if (retries >=? retry_limit)%Z then
            Some (None, [Print MsgGivingUp; Print (MsgRaw response)])
          else
            Some (None,
                  Print MsgInvalidJson
                  :: query_model_async (fix_json_prompt (group0 response j))
                                       (bind (retries + 1)%Z))
      | Loaded data => Some (Some data, [])
      | NotModelled => None
      end
  end.

(** The spawned queries of a list of effects. *)
Fixpoint spawned (l : list effect) : list (str * continuation) :=
  match l with
  | [] => []
  | Spawn q k :: l' => (q, k) :: spawned l'
  | _ :: l' => spawned l'
  end.

(** The chain of repairs: each spawned repair query is answered by the
    next reply of the script, which is handed back to the extraction with
    the retry count the query was bound to.  The result lists the repair
    queries of the whole chain. *)
Fixpoint repair_chain (replies : list str) (response : str) (retries : Z)
    (bind : Z -> continuation) : list (str * continuation) :=
  match extract_json_or_retry response retries bind with
  | None => []
  | Some (_, effects) =>
      match spawned effects, replies with
      | (q, k) :: _, reply :: replies' =>
          (q, k) :: repair_chain replies' reply (k_retries k) bind
      | l, _ => l
      end
  end.

(* ===================================================================== *)
(** * The host database and the callbacks *)
(* ===================================================================== *)

(** The key of an inline comment: the address and the item position. *)
Definition treeloc : Type := (Z * Z)%type.

Definition treeloc_eqb (a b : treeloc) : bool :=
  (fst a =? fst b)%Z && (snd a =? snd b)%Z.

Section Host.

(** The local-variable tables of the decompiler and its renaming
    primitive are the host's own. *)
Variable lvar_table : Type.
Variable rename_lvar : lvar_table -> Z -> str -> json -> bool * lvar_table.

(** [idaapi.get_func(address).start_ea] *)
Variable func_start : Z -> Z.

(** [str.format] of a comment on the positional and keyword arguments;
    [None] when it raises. *)
Variable str_format : str -> list (option json) -> dict -> option str.

(** [textwrap.wrap(text, 80, replace_whitespace=False)] *)
Variable textwrap_wrap : str -> list str.

Record ida : Type := Ida {
  func_cmt : Z -> str;                   (* idc.get_func_cmt(ea, 0) *)
  user_cmts : list (treeloc * str);      (* decompiled_func.user_cmts *)
  saved_cmts : list (treeloc * str);     (* what save_user_cmts() last stored *)
  lvars : lvar_table;
  screen_ea : Z;                         (* idaapi.get_screen_ea() *)
  log : list effect                      (* in the order they happened *)
}.

Inductive outcome : Type :=
| Finished (s : ida)
| Raised (e : exn) (s : ida)
| OutsideModel.

Definition emit (l : list effect) (s : ida) : ida :=
  Ida (func_cmt s) (user_cmts s) (saved_cmts s) (lvars s) (screen_ea s)
      (log s ++ l).

(** [idc.set_func_cmt(address, text, 0)] *)
Definition set_func_cmt (address : Z) (text : str) (s : ida) : ida :=
  Ida (fun a => if (a =? address)%Z then text else func_cmt s a)
      (user_cmts s) (saved_cmts s) (lvars s) (screen_ea s) (log s).

Definition set_lvars (t : lvar_table) (s : ida) : ida :=
  Ida (func_cmt s) (user_cmts s) (saved_cmts s) t (screen_ea s) (log s).

(** [decompiled_func.set_user_cmt(key, text)] *)
Fixpoint update_cmt (l : list (treeloc * str)) (key : treeloc) (text : str)
  : list (treeloc * str) :=
  match l with
  | [] => [(key, text)]
  | (k, t) :: l' =>
      if treeloc_eqb k key then (k, text) :: l'
      else (k, t) :: update_cmt l' key text
  end.

Definition set_user_cmt (key : treeloc) (text : str) (s : ida) : ida :=
  Ida (func_cmt s) (update_cmt (user_cmts s) key text) (saved_cmts s)
      (lvars s) (screen_ea s) (log s).

(** [decompiled_func.save_user_cmts()] *)
Definition save_user_cmts (s : ida) : ida :=
  Ida (func_cmt s) (user_cmts s) (user_cmts s) (lvars s) (screen_ea s) (log s).

(** [if view: view.refresh_view(redo)] *)
Definition refresh (view redo : bool) (s : ida) : ida :=
  if view then emit [RefreshView redo] s else s.

(* ------------------------------------------------------------------- *)
(** ** The function comment (lines 222-246) *)

Definition dashes : str := py "----------------------------------------".

Definition comment_header : str :=
  py "----- " ++ py "Comment generated by Gepetto" ++ py " -----".

(** [----- Comment generated by Gepetto -----.*?-----...-----] with
    [re.DOTALL]; the message is the English one of the default
    language. *)
Definition generated_block_re : regex :=
  Cat (lit comment_header) (Cat (Rep false dot_all) (lit dashes)).

Definition comment_callback (address : Z) (view : bool) (response : str)
    (s : ida) : ida :=
  let response := py_join [newline] (textwrap_wrap response) in
  let comment := func_cmt s address in
  let comment := re_sub generated_block_re [] comment in
  let s := set_func_cmt address
             (comment_header ++ [newline; newline]
              ++ py_strip response ++ [newline; newline]
              ++ dashes ++ [newline; newline]
              ++ py_strip comment) s in
  let s := refresh view false s in
  emit [Print MsgExplainFinished] s.

(* ------------------------------------------------------------------- *)
(** ** Renaming variables (lines 274-305) *)

(** The characters with a meaning of their own in a pattern. *)
Definition is_special (c : ascii) : bool :=
  existsb (Ascii.eqb c) (py ".^$*+?{}[]\|()").

(** [r'\b%s\b' % n], for a name that the pattern language reads as
    itself. *)
Definition word_re (n : str) : option regex :=
  if existsb is_special n then None
  else Some (Cat Bnd (Cat (lit n) Bnd)).

(** Lines 291-293: one renaming attempt per pair, in the order of the
    mapping; the names that were renamed are collected. *)
Fixpoint rename_all (function_addr : Z) (pairs : dict) (s : ida)
  : list str * ida :=
  match pairs with
  | [] => ([], s)
  | (n, new) :: pairs' =>
      let (ok, t) := rename_lvar (lvars s) function_addr n new in
      let s := emit [RenameLvar function_addr n new ok] (set_lvars t s) in
      let (replaced, s) := rename_all function_addr pairs' s in
      (if ok then n :: replaced else replaced, s)
  end.

(** Lines 298-299: the substitutions in the comment, one renamed name
    after the other.  [inl] carries the exception of a replacement that
    is no text; [None] a name or a replacement that the pattern and
    template languages do not read as themselves. *)
Fixpoint substitute_names (names : dict) (replaced : list str) (comment : str)
  : option (exn + str) :=
  match replaced with
  | [] => Some (inr comment)
  | n :: replaced' =>
      match dict_get names n with
      | Some (JStr new) =>
          match word_re n with
          | Some r =>
              if existsb (Ascii.eqb "\") new then None
              else substitute_names names replaced' (re_sub r new comment)
          | None => None
          end
      | Some _ => Some (inl NotAText)
      | None => None
      end
  end.

Definition rename_callback (address : Z) (view : bool) (response : str)
    (retries : Z) (s : ida) : outcome :=
  match extract_json_or_retry response retries
          (Continuation RenameCallback (screen_ea s) view) with
  | None => OutsideModel
  | Some (names, effects) =>
      let s := emit effects s in
      match names with
      | None => Finished s
      | Some (JObj []) => Finished s
      | Some (JObj names) =>
          let function_addr := func_start address in
          let (replaced, s) := rename_all function_addr names s in
          let comment := func_cmt s address in
          let finish (s : ida) :=
            let s := refresh view true s in
            Finished
              (emit [Print (MsgRenameFinished (Z.of_nat (length replaced)))] s) in
          match comment, replaced with
          | _ :: _, _ :: _ =>
              match substitute_names names replaced comment with
              | Some (inr comment) => finish (set_func_cmt address comment s)
              | Some (inl e) => Raised e s
              | None => OutsideModel
              end
          | _, _ => finish s
          end
      | Some _ => OutsideModel   (* the decoded text starts with a brace *)
      end
  end.

(* ------------------------------------------------------------------- *)
(** ** Completing the inline comments (lines 123-156)

    The [debug] flag of the script is off, as the script sets it. *)

(** [str.isdigit]: at least one character, and only digits. *)
Definition str_isdigit (s : str) : bool :=
  match s with [] => false | _ :: _ => forallb is_digit_char s end.

(** [int(s)] on a text that passed [str.isdigit]: the superscript
    digits are digits but no decimal literal, and a text that is too
    long is not converted. *)
Definition int_of_key (s : str) : exn + Z :=
  if forallb is_decimal s then
    match int_of_digits s with
    | Some z => inr z
    | None => inl (IntValueError s)
    end
  else inl (IntValueError s).

(** [max(map(int, keys))], consumed from left to right. *)
Fixpoint max_int (keys : list str) (best : option Z) : exn + Z :=
  match keys with
  | [] =>
      match best with
      | Some m => inr m
      | None => inl MaxOfEmptySequence
      end
  | k :: keys' =>
      match int_of_key k with
      | inl e => inl e
      | inr v =>
          max_int keys'
            (Some (match best with
                   | Some m => if (v >? m)%Z then v else m
                   | None => v
                   end))
      end
  end.

(** [str(i)] for [i >= 0] *)
Definition str_of_nat (i : nat) : str :=
  py (NilZero.string_of_uint (Nat.to_uint i)).

(** Line 140: the positional arguments, [kwargs.get(str(i))] for every
    [i] up to the largest numeric key. *)
Definition make_args (kwargs : dict) : exn + list (option json) :=
  match max_int (filter str_isdigit (dict_keys kwargs)) None with
  | inl e => inl e
  | inr m =>
      inr (map (fun i => dict_get kwargs (str_of_nat i))
               (seq 0 (Z.to_nat (m + 1))))
  end.

(** Lines 143-149: every comment is formatted in turn; a comment whose
    formatting raises is left as it is. *)
Fixpoint format_comments (keys : list treeloc) (args : list (option json))
    (kwargs : dict) (s : ida) : ida :=
  match keys with
  | [] => s
  | key :: keys' =>
      let s :=
        match find (fun kt => treeloc_eqb (fst kt) key) (user_cmts s) with
        | Some (_, cmt) =>
            match str_format cmt args kwargs with
            | Some text => set_user_cmt key text s
            | None => s
            end
        | None => s
        end in
      format_comments keys' args kwargs s
  end.

Definition inline_comments_callback (address : Z) (view : bool)
    (response : str) (retries : Z) (s : ida) : outcome :=
  match extract_json_or_retry response retries
          (Continuation InlineCommentsCallback address view) with
  | None => OutsideModel
  | Some (kwargs, effects) =>
      let s := emit effects s in
      match kwargs with
      | None => Finished s
      | Some (JObj []) => Finished s
      | Some (JObj kwargs) =>
          match make_args kwargs with
          | inl e => Raised e s
          | inr args =>
              let s := format_comments (map fst (user_cmts s)) args kwargs s in
              let s := save_user_cmts s in
              let s := refresh view false s in
              Finished (emit [Print MsgCommentsFinished] s)
          end
      | Some _ => OutsideModel   (* the decoded text starts with a brace *)
      end
  end.

End Host.

(* ===================================================================== *)
(** * Texts, hosts and notions used in the statements *)
(* ===================================================================== *)

(** The endpoint refuses the first request and answers the second. *)
Definition refuse_once (e : str) (n : nat) : api_outcome :=
  match n with
  | O => InvalidRequest e
  | S _ => Reply (py "ok")
  end.

(** The endpoint refuses every request with the same error. *)
Definition refuse_always (e : str) (_ : nat) : api_outcome := InvalidRequest e.

(** A text given line by line, every line ended by a newline. *)
Definition text_of_lines (l : list str) : str :=
  concat (map (fun x => x ++ [newline]) l).

(** A function with a placeholder in its first comment and another one
    forty statements further down. *)
Definition two_placeholders : str :=
  text_of_lines
    ([py "void f()"; py "{"; py "  // {a}"]
     ++ repeat (py "  x = x + 1;") 40
     ++ [py "  // {b}"; py "  return;"; py "}"]).

(** A function whose only placeholder ends a comment line of more than
    320 characters. *)
Definition long_comment_line : str :=
  text_of_lines
    [py "int f()"; py "{";
     py "  // " ++ repeat "a" 330 ++ py " {x}";
     py "  return 0;"; py "}"].

(** A short function with one placeholder, for a window of 4. *)
Definition short_function : str :=
  text_of_lines
    [py "int f()"; py "{"; py "  a = 1;"; py "  // {x}"; py "  return a;"; py "}"].

(** The cursor after reading the text [p]. *)
Fixpoint consume (p : str) (cur : cursor) : cursor :=
  match p, c_rest cur with
  | _ :: p', x :: rest' => consume p' (advance cur x rest')
  | _, _ => cur
  end.

(** Any character but the opening brace. *)
Definition not_open (c : ascii) : bool := negb (Ascii.eqb c "{").

(** A JSON text written with single quotes in place of double quotes. *)
Definition json_text (s : string) : str :=
  map (fun c => if Ascii.eqb c "'" then quote else c) (py s).
Arguments json_text s%_string.

(** A database with one function comment and one inline comment. *)
Definition sample_ida (comment : str) : ida unit :=
  Ida (fun a => if (a =? 4096)%Z then comment else [])
      [((4100, 0)%Z, py "{purpose}")] [] tt 4096 [].

(** A formatter that always raises. *)
Definition no_format (_ : str) (_ : list (option json)) (_ : dict)
  : option str := None.

(** The block written by [comment_callback] for an already wrapped and
    stripped explanation. *)
Definition generated_block (explanation : str) : str :=
  comment_header ++ [newline; newline] ++ explanation
  ++ [newline; newline] ++ dashes.

(** A wrapping that leaves a short one-line text as its only line. *)
Definition one_line (s : str) : list str := [s].

(** Whole-word replacement said without patterns.  The words of a text
    are its maximal runs of word characters; every other character is a
    piece of its own. *)
Fixpoint tokens (s : str) : list str :=
  match s with
  | [] => []
  | c :: s' =>
      if is_word c then
        match tokens s' with
        | (d :: w) :: ts =>
            if is_word d then (c :: d :: w) :: ts else [c] :: (d :: w) :: ts
        | ts => [c] :: ts
        end
      else [c] :: tokens s'
  end.

(** Every piece equal to [n] is replaced by [repl]; nothing else moves. *)
Definition replace_words (n repl s : str) : str :=
  concat (map (fun t => if str_eqb t n then repl else t) (tokens s)).

(** The word characters a text starts with, and what comes after them. *)
Fixpoint word_prefix (s : str) : str :=
  match s with
  | c :: s' => if is_word c then c :: word_prefix s' else []
  | [] => []
  end.

Fixpoint after_word (s : str) : str :=
  match s with
  | c :: s' => if is_word c then after_word s' else s
  | [] => []
  end.

(** Whether the character before the cursor is a word character. *)
Definition prev_word (prev : option ascii) : bool :=
  match prev with Some c => is_word c | None => false end.

(** A C identifier, as far as its characters go: not empty, and made of
    letters, digits and underscores. *)
Definition is_identifier (n : str) : bool :=
  match n with [] => false | _ :: _ => forallb is_ident_char n end.

(** The new name the mapping gives to [n]. *)
Definition new_name (names : dict) (n : str) : str :=
  match dict_get names n with
  | Some (JStr t) => t
  | _ => []
  end.

(** The names that can stand in the pattern and in the replacement of
    line 299 as they are: [n] is an identifier and the mapping gives it a
    text that is an identifier. *)
Definition renames_identifier (names : dict) (n : str) : Prop :=
  is_identifier n = true
  /\ exists t, dict_get names n = Some (JStr t) /\ is_identifier t = true.

(** One renaming attempt as it is logged. *)
Definition attempt_entry (function_addr : Z) (a : str * json * bool) : effect :=
  RenameLvar function_addr (fst (fst a)) (snd (fst a)) (snd a).

(** The old names of the attempts that succeeded, in order. *)
Definition renamed (results : list (str * json * bool)) : list str :=
  map (fun a => fst (fst a)) (filter snd results).

(** The renaming attempts said without the database: every pair of the
    mapping is handed in turn to the renaming primitive of the host, on
    the table that the attempts before it left, whatever they answered.
    The result lists the pairs with the answer of the host to each, and
    gives the table after the last attempt. *)
Fixpoint apply_pairs (lvar_table : Type)
    (rename_lvar : lvar_table -> Z -> str -> json -> bool * lvar_table)
    (function_addr : Z) (pairs : dict) (t : lvar_table)
  : list (str * json * bool) * lvar_table :=
  match pairs with
  | [] => ([], t)
  | (n, new) :: pairs' =>
      let (ok, t1) := rename_lvar t function_addr n new in
      let (results, t2) := apply_pairs rename_lvar function_addr pairs' t1 in
      ((n, new, ok) :: results, t2)
  end.

(** A host for the examples: the variables of the function are a list of
    names, and a renaming succeeds when the old name is in the list and
    the new one is a text that is not. *)
Definition list_rename (t : list str) (_ : Z) (old : str) (new : json)
  : bool * list str :=
  match new with
  | JStr name =>
      if existsb (str_eqb old) t && negb (existsb (str_eqb name) t)
      then (true, map (fun x => if str_eqb x old then name else x) t)
      else (false, t)
  | _ => (false, t)
  end.

(** A database with one function comment and the given variables. *)
Definition sample_vars (comment : str) (vars : list str) : ida (list str) :=
  Ida (fun a => if (a =? 4096)%Z then comment else []) [] [] vars 4096 [].

(* ===================================================================== *)
(** * Further notions used in the statements *)
(* ===================================================================== *)

(** The replies handed to the callback along a trace, in order. *)
Fixpoint deliveries (t : list query_event) : list str :=
  match t with
  | [] => []
  | ExecuteSync c :: t' => c :: deliveries t'
  | _ :: t' => deliveries t'
  end.

(** An outcome of the endpoint after which [query_model] does not call
    itself again: everything but a "context length exceeded" error that
    leaves a budget of 750 or more. *)
Definition ends_chain (o : api_outcome) : bool :=
  match o with
  | InvalidRequest e =>
      match context_limits e with
      | Limits hard_limit prompt_tokens =>
          (hard_limit - prompt_tokens <? 750)%Z
      | _ => true
      end
  | _ => true
  end.

(** The character before the cursor once the text [p] is read. *)
Definition prev_after (p : str) (prev : option ascii) : option ascii :=
  fold_left (fun _ c => Some c) p prev.

(** A non-empty run of decimal digits. *)
Definition is_digits (s : str) : bool :=
  match s with [] => false | _ :: _ => forallb is_decimal s end.

(** The text [rest] does not go on with a character of the class [p]. *)
Definition stops (p : ascii -> bool) (rest : str) : Prop :=
  match rest with [] => True | c :: _ => p c = false end.

(** An inline comment after lines 145-146: formatted, or as it was when
    the formatting raises. *)
Definition formatted (str_format : str -> list (option json) -> dict -> option str)
    (args : list (option json)) (kwargs : dict) (kt : treeloc * str)
  : treeloc * str :=
  (fst kt,
   match str_format (snd kt) args kwargs with
   | Some text => text
   | None => snd kt
   end).

(** The keys of a mapping that [str.isdigit] accepts. *)
Definition numeric_keys (kwargs : dict) : list str :=
  filter str_isdigit (dict_keys kwargs).

(** The superscript two, a digit that is no decimal digit. *)
Definition superscript_two : ascii := ascii_of_N 178.

(** A formatter for the examples: a comment that is one named placeholder
    becomes the text the mapping gives to the name; on anything else it
    raises. *)
Definition format_placeholder (cmt : str) (_ : list (option json))
    (kwargs : dict) : option str :=
  match cmt with
  | "{" :: body =>
      match dict_get kwargs (removelast body) with
      | Some (JStr text) => Some text
      | _ => None
      end
  | _ => None
  end.

(** Whether a comment holds a closed generated block: a header that a
    run of 40 dashes follows, at once or further on. *)
Fixpoint has_closed_block (s : str) : bool :=
  match s with
  | [] => false
  | c :: s' =>
      (starts_with comment_header (c :: s')
       && py_in dashes (skipn (length comment_header) (c :: s')))
      || has_closed_block s'
  end.

(** What a callback may have sent: nothing, or one repair query bound
    to [k], and that only below the cap of three retries. *)
Definition one_repair (retries : Z) (k : continuation) (l : list effect)
  : Prop :=
  spawned l = []
  \/ ((retries < 3)%Z /\ exists q, spawned l = [(q, k)]).

(** An endpoint that answers every request with the same text. *)
Definition always_reply (c : str) (_ : nat) : api_outcome := Reply c.

(** A decompiler for the examples. *)
Definition sample_decompile (_ : Z) : str := short_function.

(* ===================================================================== *)
(** * The actions and the threads they start
    (lines 200-214, 260-266, 353-361, 385 and 417-418) *)
(* ===================================================================== *)

(** The question of [ExplainHandler] (lines 263-264). *)
Definition explain_prompt (decompiler_output : str) : str :=
  py "Can you explain what the following C function does and suggest a better name for it?"
  ++ [newline] ++ decompiler_output.

(** The question of [ExplainFurtherHandler] (lines 203-207). *)
Definition comments_prompt (decompiler_output : str) : str :=
  py "Analyze the following C function. Treat the comments as python format string (formatted with curly braces), and "
  ++ py "complete the comments. Reply with a single JSON where the keys are the values in the curly braces (without the braces), "
  ++ py "and the values are the matching substituted strings." ++ [newline]
  ++ py "The completions should make up valuable comments. Print only the json, without any other explanation."
  ++ [newline; newline]
  ++ shrink_decompilation decompiler_output default_window.

(** The question of [RenameHandler] (lines 356-359). *)
Definition rename_prompt (decompiler_output : str) : str :=
  py "Analyze the following C function:" ++ [newline] ++ decompiler_output
  ++ [newline]
  ++ py "Suggest better variable names, reply with a JSON array where keys are the original names "
  ++ py "and values are the proposed names. Do not explain anything, only print the JSON "
  ++ py "dictionary.".

(** The question that goes with a callback. *)
Definition prompt_of (h : handler) (decompiler_output : str) : str :=
  match h with
  | CommentCallback => explain_prompt decompiler_output
  | InlineCommentsCallback => comments_prompt decompiler_output
  | RenameCallback => rename_prompt decompiler_output
  end.

Section Actions.

Variable lvar_table : Type.
Variable rename_lvar : lvar_table -> Z -> str -> json -> bool * lvar_table.
Variable func_start : Z -> Z.
Variable str_format : str -> list (option json) -> dict -> option str.
Variable textwrap_wrap : str -> list str.

(** [str(ida_hexrays.decompile(ea))] *)
Variable decompile : Z -> str.

(** [activate] of the three action handlers: [ExplainHandler] for
    [CommentCallback], [ExplainFurtherHandler] for
    [InlineCommentsCallback], [RenameHandler] for [RenameCallback].  The
    function under the cursor is decompiled and the question is sent,
    bound to the callback, the address under the cursor and the view. *)
Definition activate (h : handler) (view : bool) (s : ida lvar_table)
  : ida lvar_table :=
  emit (query_model_async (prompt_of h (decompile (screen_ea s)))
          (Continuation h (screen_ea s) view 0))
       s.

(** The call of a bound callback on a reply (line 385): [comment_callback]
    takes no retry count. *)
Definition run_callback (k : continuation) (response : str)
    (s : ida lvar_table) : outcome lvar_table :=
  match k_handler k with
  | CommentCallback =>
      Finished (comment_callback textwrap_wrap (k_address k) (k_view k)
                  response s)
  | InlineCommentsCallback =>
      inline_comments_callback str_format (k_address k) (k_view k) response
        (k_retries k) s
  | RenameCallback =>
      rename_callback rename_lvar func_start (k_address k) (k_view k)
        response (k_retries k) s
  end.

(** What was logged between two states. *)
Definition added (s s' : ida lvar_table) : list effect :=
  skipn (length (log s)) (log s').

(** The threads that one action starts, one after the other: a thread
    runs [query_model] on its question (lines 417-418), the reply it
    delivers is handed to its callback (line 385), and the query that the
    callback sends starts the next thread (a callback sends at most one,
    lines 325-328 and 337-339).  [n] counts the requests the endpoint has
    answered; the result is the trace of all the threads and the outcome
    of the last callback.  [None] when [threads] threads were not enough
    or a chain of retries was still running. *)
Fixpoint serve (threads fuel : nat) (api : nat -> api_outcome) (n : nat)
    (query : str) (k : continuation) (s : ida lvar_table)
  : option (list query_event * outcome lvar_table) :=
  match threads with
  | O => None
  | S threads' =>
      match query_model fuel api n query default_max_tokens with
      | None => None
      | Some t =>
          match deliveries t with
          | [] => Some (t, Finished s)
          | response :: _ =>
              match run_callback k response s with
              | Finished s' =>
                  match spawned (added s s') with
                  | [] => Some (t, Finished s')
                  | (q, k') :: _ =>
                      match serve threads' fuel api
                              (n + length (requests_of t)) q k' s' with
                      | Some (t', o) => Some (t ++ t', o)
                      | None => None
                      end
                  end
              | o => Some (t, o)
              end
          end
      end
  end.

(** One action of the user, from the menu to the last callback. *)
Definition perform (threads fuel : nat) (api : nat -> api_outcome)
    (h : handler) (view : bool) (s : ida lvar_table)
  : option (list query_event * outcome lvar_table) :=
  match spawned (added s (activate h view s)) with
  | [] => Some ([], Finished (activate h view s))
  | (q, k) :: _ => serve threads fuel api 0 q k (activate h view s)
  end.

End Actions.

(* ===================================================================== *)
(** * Properties of the query wrapper *)
(* ===================================================================== *)

Section QueryModel.

Variable api : nat -> api_outcome.
Variable query : str.

(** One step of the chain on a "context length exceeded" error: the
    chain goes on exactly when the recomputed budget reaches 750. *)
Lemma query_model_context_step (fuel n : nat) (max_tokens : Z)
    (e : str) (hard_limit prompt_tokens : Z) :
  api n = InvalidRequest e ->
  context_limits e = Limits hard_limit prompt_tokens ->
  query_model (S fuel) api n query max_tokens =
    if (hard_limit - prompt_tokens >=? 750)%Z then
      option_map
        (fun t => Sent (chat_request query)
                  :: Printed (MsgContextExceeded (hard_limit - prompt_tokens))
                  :: t)
        (query_model fuel api (S n) query (hard_limit - prompt_tokens)%Z)
    else Some [Sent (chat_request query); Printed MsgTooBig].
Proof.
  intros Hapi Hlim. simpl. rewrite Hapi, Hlim.
  destruct (hard_limit - prompt_tokens >=? 750)%Z; [|reflexivity].
  destruct (query_model fuel api (S n) query (hard_limit - prompt_tokens));
    reflexivity.
Qed.

(** The budget handed to a call has no influence on what it does. *)
Lemma query_model_budget_unused (fuel n : nat) (m1 m2 : Z) :
  query_model fuel api n query m1 = query_model fuel api n query m2.
Proof. destruct fuel; reflexivity. Qed.

(** Every request of a chain is the same request, without a limit on
    the completion. *)
Lemma query_model_requests (fuel : nat) :
  forall n max_tokens t,
    query_model fuel api n query max_tokens = Some t ->
    Forall (fun r => r = chat_request query) (requests_of t).
Proof.
  induction fuel as [|fuel IH]; intros n max_tokens t H; [discriminate|].
  simpl in H. destruct (api n) as [c|e|e|e].
  - inversion H; subst; simpl. repeat constructor.
  - destruct (context_limits e) as [|hl pt|d].
    + inversion H; subst; simpl. repeat constructor.
    + destruct (hl - pt >=? 750)%Z.
      * destruct (query_model fuel api (S n) query (hl - pt)) as [t'|] eqn:E;
          [|discriminate].
        inversion H; subst; simpl. constructor; [reflexivity|].
        eapply IH; eassumption.
      * inversion H; subst; simpl. repeat constructor.
    + inversion H; subst; simpl. repeat constructor.
  - inversion H; subst; simpl. repeat constructor.
  - inversion H; subst; simpl. repeat constructor.
Qed.

End QueryModel.

(** C2: on an error text with hard limit 4097 and 2000 prompt tokens the
    recomputed budget is 2097 and a retry is made, but the request of the
    retry is the request of the first attempt: it carries no limit on the
    completion, where the specification wants the budget 2097. *)
Theorem query_model_retry_carries_no_budget :
  let e := context_error (py "4097") (py "4500") (py "2000") (py "2500") in
  context_limits e = Limits 4097 2000 /\
  query_model 2 (refuse_once e) 0 (py "q") default_max_tokens =
    Some [Sent (chat_request (py "q"));
          Printed (MsgContextExceeded 2097);
          Sent (chat_request (py "q"));
          ExecuteSync (py "ok")] /\
  req_max_tokens (chat_request (py "q")) = None.
Proof. vm_compute. repeat split. Qed.

(** C3 as stated fails: with hard limit 4000 and 3500 prompt tokens the
    only request is the first one, and the failure is reported. *)
Lemma query_model_budget_500_no_retry :
  let e := context_error (py "4000") (py "6000") (py "3500") (py "2500") in
  context_limits e = Limits 4000 3500 /\
  query_model 5 (refuse_always e) 0 (py "q") default_max_tokens =
    Some [Sent (chat_request (py "q")); Printed MsgTooBig].
Proof. vm_compute. split; reflexivity. Qed.

(** C3, amended: with hard limit 4000, both 3500 and 3300 prompt tokens
    leave a budget (500 and 700) below the floor of 750, and in both cases
    the failure is reported after the single first request, whatever the
    depth allowed to the chain. *)
Theorem query_model_below_floor_reports_failure :
  forall fuel prompt,
    prompt = py "3500" \/ prompt = py "3300" ->
    let e := context_error (py "4000") (py "6000") prompt (py "2500") in
    (4000 - py_int prompt <? 750)%Z = true /\
    context_limits e = Limits 4000 (py_int prompt) /\
    query_model (S fuel) (refuse_always e) 0 (py "q") default_max_tokens =
      Some [Sent (chat_request (py "q")); Printed MsgTooBig].
Proof.
  intros fuel prompt [-> | ->]; cbv zeta.
  - assert (H : context_limits
                  (context_error (py "4000") (py "6000") (py "3500") (py "2500"))
                = Limits 4000 3500) by (vm_compute; reflexivity).
    split; [reflexivity|]. split; [exact H|].
    rewrite (@query_model_context_step _ _ fuel 0 _ _ 4000%Z 3500%Z eq_refl H).
    reflexivity.
  - assert (H : context_limits
                  (context_error (py "4000") (py "6000") (py "3300") (py "2500"))
                = Limits 4000 3300) by (vm_compute; reflexivity).
    split; [reflexivity|]. split; [exact H|].
    rewrite (@query_model_context_step _ _ fuel 0 _ _ 4000%Z 3300%Z eq_refl H).
    reflexivity.
Qed.

Lemma query_model_below_floor_witness :
  (4000 - py_int (py "3300") <? 750)%Z = true /\
  context_limits (context_error (py "4000") (py "6000") (py "3300") (py "2500"))
    = Limits 4000 (py_int (py "3300")) /\
  query_model 1
    (refuse_always (context_error (py "4000") (py "6000") (py "3300") (py "2500")))
    0 (py "q") default_max_tokens =
    Some [Sent (chat_request (py "q")); Printed MsgTooBig].
Proof.
  exact (query_model_below_floor_reports_failure 0 (or_intror eq_refl)).
Defined.

(** C9: an endpoint that keeps refusing with hard limit 4097 and 1000
    prompt tokens.  The budget of every retry is 3097: it is above the
    starting budget of 2500, it does not shrink from one retry to the
    next, and it never falls below the floor, so the chain is still
    retrying at every depth. *)
Theorem query_model_refused_forever :
  let e := context_error (py "4097") (py "3500") (py "1000") (py "2500") in
  context_limits e = Limits 4097 1000 /\
  (forall fuel n max_tokens,
      query_model fuel (refuse_always e) n (py "q") max_tokens = None) /\
  (forall depth,
      query_model (S depth)
        (fun n => if (n <? depth)%nat then InvalidRequest e else Reply (py "ok"))
        0 (py "q") default_max_tokens <> None /\
      option_map budgets_of
        (query_model (S depth)
           (fun n => if (n <? depth)%nat then InvalidRequest e else Reply (py "ok"))
           0 (py "q") default_max_tokens)
      = Some (repeat 3097%Z depth)).
Proof.
  cbv zeta.
  assert (H : context_limits
                (context_error (py "4097") (py "3500") (py "1000") (py "2500"))
              = Limits 4097 1000) by (vm_compute; reflexivity).
  split; [exact H|]. split.
  - induction fuel as [|fuel IH]; intros n max_tokens; [reflexivity|].
    rewrite (@query_model_context_step _ _ fuel n _ _ 4097%Z 1000%Z eq_refl H).
    change (4097 - 1000 >=? 750)%Z with true. cbv iota.
    rewrite IH. reflexivity.
  - intros depth.
    set (e := context_error (py "4097") (py "3500") (py "1000") (py "2500")) in *.
    assert (G : forall d n max_tokens,
               exists t,
                 query_model (S d)
                   (fun i => if (i <? n + d)%nat then InvalidRequest e
                             else Reply (py "ok"))
                   n (py "q") max_tokens = Some t
                 /\ budgets_of t = repeat 3097%Z d).
    { induction d as [|d IH]; intros n max_tokens.
      - eexists. split.
        + simpl. replace (n <? n + 0)%nat with false
            by (symmetry; apply Nat.ltb_ge; lia). reflexivity.
        + reflexivity.
      - destruct (IH (S n) (4097 - 1000)%Z) as [t [Ht Hb]].
        eexists. split.
        + rewrite (@query_model_context_step _ _ (S d) n _ e 4097%Z 1000%Z).
          * change (4097 - 1000 >=? 750)%Z with true. cbv iota.
            replace (fun i : nat =>
                       if (i <? n + S d)%nat then InvalidRequest e
                       else Reply (py "ok"))
              with (fun i : nat =>
                       if (i <? S n + d)%nat then InvalidRequest e
                       else Reply (py "ok")).
            -- rewrite Ht. reflexivity.
            -- replace (S n + d)%nat with (n + S d)%nat by lia. reflexivity.
          * replace (n <? n + S d)%nat with true
              by (symmetry; apply Nat.ltb_lt; lia). reflexivity.
          * exact H.
        + simpl. rewrite Hb. reflexivity. }
    destruct (G depth 0%nat default_max_tokens) as [t [Ht Hb]].
    simpl Nat.add in Ht. rewrite Ht. split; [discriminate|].
    simpl. rewrite Hb. reflexivity.
Qed.

(* ===================================================================== *)
(** * Properties of the shrinking *)
(* ===================================================================== *)

(** Without a placeholder the text is returned as it is. *)
Lemma shrink_decompilation_no_placeholder (decompilation : str) (window : Z) :
  re_search placeholder_re decompilation = None ->
  shrink_decompilation decompilation window = decompilation.
Proof. intros H. unfold shrink_decompilation. rewrite H. reflexivity. Qed.

(** C4: the second search stops at the end of the first line that holds a
    placeholder, because [.] does not cross a newline.  On
    [two_placeholders] it ends at [{a}] (offset 19) although [{b}] sits at
    offset 545, and the text after the window that follows [{a}] is cut:
    the result has lost [{b}]. *)
Theorem shrink_decompilation_misses_last_placeholder :
  find_index (py "{b}") two_placeholders = Some 545 /\
  option_map m_end (re_search last_placeholder_re two_placeholders) = Some 19 /\
  shrink_decompilation two_placeholders default_window =
    py_join [newline]
      [text_of_lines [py "void f()"; py "{"; py "  // {a}"]
       ++ py_join [newline] (repeat (py "  x = x + 1;") 24);
       ellipsis; py "}"] /\
  py_in (py "{b}") (shrink_decompilation two_placeholders default_window) = false.
Proof. vm_compute. repeat split. Qed.

(** C8: the window opens inside the line of the placeholder and the text
    up to the next newline is dropped, so the only placeholder is lost.
    With the default window this needs a long line; with a window of 4 a
    six-line function is enough. *)
Theorem shrink_decompilation_drops_placeholder :
  option_map m_start (re_search placeholder_re long_comment_line) = Some 346 /\
  shrink_decompilation long_comment_line default_window =
    text_of_lines [py "int f()"; py "{"; ellipsis; py "  return 0;"; py "}"] /\
  py_in (py "{x}") (shrink_decompilation long_comment_line default_window) = false /\
  shrink_decompilation short_function 4 =
    py_join [newline] [py "int f()"; py "{"; ellipsis; py "}"] /\
  py_in (py "{x}") (shrink_decompilation short_function 4) = false.
Proof. vm_compute. repeat split. Qed.

(* ===================================================================== *)
(** * Facts about the matcher *)
(* ===================================================================== *)

Lemma starts_with_app (p s : str) : starts_with p (p ++ s) = true.
Proof.
  induction p as [|c p IH]; simpl; [reflexivity|].
  rewrite Ascii.eqb_refl. exact IH.
Qed.

Lemma consume_pos (p : str) :
  forall cur, starts_with p (c_rest cur) = true ->
    c_pos (consume p cur) = c_pos cur + length p
    /\ c_rest (consume p cur) = skipn (length p) (c_rest cur)
    /\ c_caps (consume p cur) = c_caps cur.
Proof.
  induction p as [|c p IH]; intros [pos prev rest caps] H; simpl in *.
  - repeat split. lia.
  - destruct rest as [|x rest]; [discriminate|].
    apply andb_prop in H. destruct H as [_ H].
    destruct (IH (advance (Cursor pos prev (x :: rest) caps) x rest) H)
      as [Hp [Hr Hc]].
    simpl. rewrite Hp, Hr, Hc. simpl. repeat split. lia.
Qed.

(** A literal matches exactly where the text starts with it. *)
Lemma exec_lit (p : str) :
  forall cur k,
    exec (lit p) cur k =
      if starts_with p (c_rest cur) then k (consume p cur) else None.
Proof.
  induction p as [|c p IH]; intros [pos prev rest caps] k; simpl.
  - reflexivity.
  - destruct rest as [|x rest]; [reflexivity|].
    rewrite (Ascii.eqb_sym x c).
    destruct (Ascii.eqb c x); simpl; [|reflexivity].
    rewrite IH. reflexivity.
Qed.


(** The lazy run of [braces_re] stops at the first closing brace. *)
Lemma rep_lazy_to_close (k : cursor -> option cursor) (body post : str) :
  forallb not_close body = true ->
  forall pos prev caps,
    rep_lazy (fun cur' => exec (Chr "}") cur' k) not_close
      (body ++ "}" :: post) (Cursor pos prev (body ++ "}" :: post) caps)
    = k (Cursor (S (pos + length body)) (Some "}") post caps).
Proof.
  induction body as [|c body IH]; intros Hb pos prev caps.
  - simpl. unfold advance. simpl. rewrite Nat.add_0_r.
    destruct (k (Cursor (S pos) (Some "}") post caps)); reflexivity.
  - simpl in Hb. apply andb_prop in Hb. destruct Hb as [Hc Hb].
    cbn [app rep_lazy exec c_rest]. unfold not_close in Hc.
    destruct (Ascii.eqb c "}") eqn:E; [discriminate|].
    unfold not_close at 1. rewrite E. cbn [negb].
    unfold advance; cbn [c_pos c_caps].
    rewrite (IH Hb). f_equal. f_equal. simpl. lia.
Qed.

Lemma rep_lazy_no_close (k : cursor -> option cursor) (rest : str) :
  forallb not_close rest = true ->
  forall pos prev caps,
    rep_lazy (fun cur' => exec (Chr "}") cur' k) not_close
      rest (Cursor pos prev rest caps) = None.
Proof.
  induction rest as [|c rest IH]; intros Hb pos prev caps.
  - reflexivity.
  - simpl in Hb. apply andb_prop in Hb. destruct Hb as [Hc Hb].
    cbn [rep_lazy exec c_rest]. unfold not_close in Hc.
    destruct (Ascii.eqb c "}") eqn:E; [discriminate|].
    unfold not_close at 1. rewrite E. cbn [negb].
    apply IH. exact Hb.
Qed.

Lemma exec_Cat (r1 r2 : regex) cur k :
  exec (Cat r1 r2) cur k = exec r1 cur (fun cur' => exec r2 cur' k).
Proof. reflexivity. Qed.

Lemma exec_Chr_hit (c : ascii) rest pos prev caps k :
  exec (Chr c) (Cursor pos prev (c :: rest) caps) k
  = k (Cursor (S pos) (Some c) rest caps).
Proof. simpl. rewrite Ascii.eqb_refl. reflexivity. Qed.

Lemma exec_Rep_lazy (p : ascii -> bool) cur k :
  exec (Rep false p) cur k = rep_lazy k p (c_rest cur) cur.
Proof. reflexivity. Qed.

Lemma exec_Rep_greedy (p : ascii -> bool) cur k :
  exec (Rep true p) cur k = rep_greedy k p (c_rest cur) cur.
Proof. reflexivity. Qed.

Lemma attempt_braces_not_open (c : ascii) (rest : str) pos prev :
  not_open c = true ->
  attempt braces_re false (Cursor pos prev (c :: rest) []) = None.
Proof.
  unfold not_open. intros H. unfold attempt, braces_re. simpl.
  destruct (Ascii.eqb c "{"); [discriminate|reflexivity].
Qed.

(** Where the first brace-delimited piece of a text is found. *)
Lemma search_braces (pre body post : str) :
  forallb not_open pre = true ->
  forallb not_close body = true ->
  forall pos prev,
    search_loop braces_re pos prev (pre ++ "{" :: body ++ "}" :: post)
    = Some (Match (pos + length pre) (pos + length pre + length body + 2) []).
Proof.
  induction pre as [|c pre IH]; intros Hpre Hbody pos prev.
  - cbn [app search_loop]. unfold attempt, braces_re.
    rewrite exec_Cat, exec_Chr_hit, exec_Cat, exec_Rep_lazy. cbn [c_rest].
    rewrite (@rep_lazy_to_close _ body post Hbody).
    cbn. f_equal. f_equal; lia.
  - simpl in Hpre. apply andb_prop in Hpre. destruct Hpre as [Hc Hpre].
    cbn [app search_loop]. rewrite attempt_braces_not_open by exact Hc.
    rewrite (IH Hpre Hbody). f_equal. simpl. f_equal; lia.
Qed.

Lemma search_braces_none (s : str) :
  forallb not_open s = true ->
  forall pos prev, search_loop braces_re pos prev s = None.
Proof.
  induction s as [|c s IH]; intros H pos prev.
  - reflexivity.
  - simpl in H. apply andb_prop in H. destruct H as [Hc H].
    cbn [search_loop]. rewrite attempt_braces_not_open by exact Hc.
    apply IH. exact H.
Qed.

Lemma span_middle (pre mid post : str) :
  span (pre ++ mid ++ post) (length pre) (length pre + length mid) = mid.
Proof.
  unfold span. rewrite skipn_app, skipn_all, Nat.sub_diag. simpl.
  replace (length pre + length mid - length pre) with (length mid) by lia.
  rewrite firstn_app, firstn_all, Nat.sub_diag. simpl. apply app_nil_r.
Qed.

(* ===================================================================== *)
(** * Properties of the extraction *)
(* ===================================================================== *)

(** C1 as stated fails: both replies are well-formed JSON objects, one
    with a nested object and one with a closing brace inside a text, and
    for both the piece handed to the decoder stops at the first closing
    brace, is refused, and a repair query is sent. *)
Lemma extract_json_nested_object_repaired :
  let bind := Continuation RenameCallback 0 true in
  json_loads (json_text "{'a': {'b': 'c'}}")
    = Loaded (JObj [(py "a", JObj [(py "b", JStr (py "c"))])]) /\
  extract_json_or_retry (json_text "{'a': {'b': 'c'}}") 0 bind
    = Some (None,
            [Print MsgInvalidJson; Print MsgRequestSent;
             Spawn (fix_json_prompt (json_text "{'a': {'b': 'c'}")) (bind 1%Z)]) /\
  json_loads (json_text "{'0': 'ends the } block'}")
    = Loaded (JObj [(py "0", JStr (py "ends the } block"))]) /\
  extract_json_or_retry (json_text "{'0': 'ends the } block'}") 0 bind
    = Some (None,
            [Print MsgInvalidJson; Print MsgRequestSent;
             Spawn (fix_json_prompt (json_text "{'0': 'ends the }")) (bind 1%Z)]).
Proof. vm_compute. repeat split. Qed.

(** C1, amended: when the first opening brace of the reply starts a
    well-formed JSON document that holds no closing brace before its last
    character, the decoded document is returned at once and nothing is
    printed or sent. *)
Theorem extract_json_first_flat_object :
  forall (pre body post : str) (v : json) (retries : Z)
         (bind : Z -> continuation),
    forallb not_open pre = true ->
    forallb not_close body = true ->
    json_loads ("{" :: body ++ ["}"]) = Loaded v ->
    extract_json_or_retry (pre ++ "{" :: body ++ "}" :: post) retries bind
    = Some (Some v, []).
Proof.
  intros pre body post v retries bind Hpre Hbody Hload.
  unfold extract_json_or_retry, re_search.
  rewrite search_braces by assumption. unfold group0. cbn [m_start m_end].
  replace (pre ++ "{" :: body ++ "}" :: post)
    with (pre ++ ("{" :: body ++ ["}"]) ++ post)
    by (simpl; rewrite <- app_assoc; reflexivity).
  replace (0 + length pre + length body + 2)
    with (length pre + length ("{" :: body ++ ["}"]))
    by (simpl; rewrite length_app; simpl; lia).
  rewrite span_middle, Hload. reflexivity.
Qed.

Lemma extract_json_first_flat_object_witness :
  extract_json_or_retry
    (py "Sure: " ++ "{" :: json_text "'v1': 'count', 'v2': 'total'"
                 ++ "}" :: py " (see {v1})")
    0 (Continuation RenameCallback 0 true)
  = Some (Some (JObj [(py "v1", JStr (py "count")); (py "v2", JStr (py "total"))]),
          []).
Proof.
  apply (@extract_json_first_flat_object (py "Sure: ")
           (json_text "'v1': 'count', 'v2': 'total'") (py " (see {v1})")).
  - vm_compute; reflexivity.
  - vm_compute; reflexivity.
  - vm_compute; reflexivity.
Defined.

(** The decoded document comes without effects, and only for a text in
    which the pattern was found. *)
Lemma extract_json_data (response : str) (retries : Z)
    (bind : Z -> continuation) (v : json) (effects : list effect) :
  extract_json_or_retry response retries bind = Some (Some v, effects) ->
  effects = [].
Proof.
  unfold extract_json_or_retry.
  destruct (re_search braces_re response) as [m|].
  - destruct (json_loads (group0 response m)).
    + intros H; inversion H; reflexivity.
    + destruct (retries >=? retry_limit)%Z; discriminate.
    + discriminate.
  - destruct (retries >=? retry_limit)%Z; discriminate.
Qed.

(** What one call sends: at most one query, bound to the next count. *)
Lemma extract_json_spawned (response : str) (retries : Z)
    (bind : Z -> continuation) (r : option json) (effects : list effect) :
  extract_json_or_retry response retries bind = Some (r, effects) ->
  spawned effects = [] \/
  ((retries < 3)%Z /\ exists q, spawned effects = [(q, bind (retries + 1)%Z)]).
Proof.
  unfold extract_json_or_retry, retry_limit.
  destruct (re_search braces_re response) as [m|].
  - destruct (json_loads (group0 response m)).
    + intros H; inversion H; left; reflexivity.
    + destruct (Z.geb_spec retries 3) as [Hge|Hlt]; intros H; inversion H; subst.
      * left; reflexivity.
      * right. split; [lia|]. eexists; reflexivity.
    + discriminate.
  - destruct (Z.geb_spec retries 3) as [Hge|Hlt]; intros H; inversion H; subst.
    + left; reflexivity.
    + right. split; [lia|]. eexists; reflexivity.
Qed.

Lemma repair_chain_bounded (h : handler) (address : Z) (view : bool) :
  forall (replies : list str) (response : str) (retries : Z),
    (0 <= retries)%Z ->
    length (repair_chain replies response retries (Continuation h address view))
      <= Z.to_nat (3 - retries)
    /\ Forall (fun qk => (k_retries (snd qk) <= 3)%Z)
         (repair_chain replies response retries (Continuation h address view)).
Proof.
  induction replies as [|reply replies IH]; intros response retries Hr.
  - cbn [repair_chain].
    destruct (extract_json_or_retry response retries _) as [[r effects]|] eqn:E;
      [|split; [cbn [length]; lia|constructor]].
    destruct (extract_json_spawned _ _ _ E) as [-> | [Hlt [q ->]]].
    + split; [cbn [length]; lia|constructor].
    + split; [cbn [length]; lia|]. repeat constructor. cbn [k_retries snd]. lia.
  - cbn [repair_chain].
    destruct (extract_json_or_retry response retries _) as [[r effects]|] eqn:E;
      [|split; [cbn [length]; lia|constructor]].
    destruct (extract_json_spawned _ _ _ E) as [-> | [Hlt [q ->]]].
    + split; [cbn [length]; lia|constructor].
    + cbn [k_retries].
      destruct (IH reply (retries + 1)%Z ltac:(lia)) as [Hlen Hall].
      split.
      * cbn [length]. lia.
      * constructor; [cbn [k_retries snd]; lia|exact Hall].
Qed.

(** C5: a reply without an opening brace, or with a piece between braces
    that the decoder refuses, makes a call below the cap print a notice
    and send exactly one repair query bound to the next retry count; from
    the cap on, the same failures print the notice of giving up and the
    raw reply and send nothing.  Along a whole chain of repairs that
    starts at count 0 the counts stay at most 3 and at most three repair
    queries are sent, whatever the replies are. *)
Theorem extract_json_repairs_bounded :
  forall (h : handler) (address : Z) (view : bool)
         (response : str) (retries : Z),
    let bind := Continuation h address view in
    let failure (notice : message) (prompt : str) :=
      if (retries >=? 3)%Z
      then Some (None, [Print MsgGivingUp; Print (MsgRaw response)])
      else Some (None,
                 [Print notice; Print MsgRequestSent;
                  Spawn prompt (bind (retries + 1)%Z)]) in
    (forallb not_open response = true ->
       extract_json_or_retry response retries bind
       = failure MsgCannotExtract (fix_response_prompt response))
    /\ (forall m,
          re_search braces_re response = Some m ->
          json_loads (group0 response m) = JSONDecodeError ->
          extract_json_or_retry response retries bind
          = failure MsgInvalidJson (fix_json_prompt (group0 response m)))
    /\ (forall replies,
          length (repair_chain replies response 0 bind) <= 3
          /\ Forall (fun qk => (k_retries (snd qk) <= 3)%Z)
               (repair_chain replies response 0 bind)).
Proof.
  intros h address view response retries bind failure. repeat split.
  - intros H. unfold extract_json_or_retry, re_search.
    rewrite search_braces_none by assumption. reflexivity.
  - intros m Hm Hj. unfold extract_json_or_retry. rewrite Hm, Hj. reflexivity.
  - apply (repair_chain_bounded h address view replies response (retries := 0)).
    lia.
  - apply (repair_chain_bounded h address view replies response (retries := 0)).
    lia.
Qed.

Lemma extract_json_repairs_bounded_witness :
  extract_json_or_retry (py "I cannot help with that.") 2
    (Continuation RenameCallback 0 true)
  = Some (None,
          [Print MsgCannotExtract; Print MsgRequestSent;
           Spawn (fix_response_prompt (py "I cannot help with that."))
                 (Continuation RenameCallback 0 true 3%Z)])
  /\ extract_json_or_retry (py "{v1: count}") 3
       (Continuation RenameCallback 0 true)
     = Some (None, [Print MsgGivingUp; Print (MsgRaw (py "{v1: count}"))])
  /\ length (repair_chain (repeat (py "no") 9) (py "I cannot help with that.") 0
               (Continuation RenameCallback 0 true)) <= 3.
Proof.
  split; [|split].
  - apply (extract_json_repairs_bounded RenameCallback 0 true
             (py "I cannot help with that.") 2).
    vm_compute; reflexivity.
  - apply (proj1 (proj2 (extract_json_repairs_bounded RenameCallback 0 true
                           (py "{v1: count}") 3))
             (Match 0 11 [])).
    + vm_compute; reflexivity.
    + vm_compute; reflexivity.
  - apply (proj2 (proj2 (extract_json_repairs_bounded RenameCallback 0 true
                           (py "I cannot help with that.") 0))).
Defined.

(* ===================================================================== *)
(** * Properties of the inline-comment callback *)
(* ===================================================================== *)

Section InlineComments.

Variable lvar_table : Type.
Variable str_format : str -> list (option json) -> dict -> option str.

Lemma emit_nil (s : ida lvar_table) : emit [] s = s.
Proof. destruct s. unfold emit. simpl. rewrite app_nil_r. reflexivity. Qed.

Lemma filter_none (A : Type) (f : A -> bool) (l : list A) :
  (forall x, In x l -> f x = false) -> filter f l = [].
Proof.
  induction l as [|x l IH]; intros H; simpl; [reflexivity|].
  rewrite (H x (or_introl eq_refl)). apply IH.
  intros y Hy. apply H. right. exact Hy.
Qed.

(** C10, amended: when the extracted mapping is not empty and none of
    its keys is made of digits only, building the positional arguments
    raises the error of a maximum over an empty sequence, and the
    callback ends there: the database is as it was, no comment was
    reformatted and none was saved.  (An empty mapping makes the
    callback return before.) *)
Theorem inline_comments_no_numeric_key_raises :
  forall (address : Z) (view : bool) (response : str) (retries : Z)
         (s : ida lvar_table) (kwargs : dict) (effects : list effect),
    extract_json_or_retry response retries
      (Continuation InlineCommentsCallback address view)
      = Some (Some (JObj kwargs), effects) ->
    kwargs <> [] ->
    (forall k, In k (dict_keys kwargs) -> str_isdigit k = false) ->
    make_args kwargs = inl MaxOfEmptySequence
    /\ inline_comments_callback str_format address view response retries s
       = Raised MaxOfEmptySequence s.
Proof.
  intros address view response retries s kwargs effects Hx Hne Hkeys.
  assert (Hargs : make_args kwargs = inl MaxOfEmptySequence).
  { unfold make_args. rewrite (filter_none _ _ Hkeys). reflexivity. }
  split; [exact Hargs|].
  unfold inline_comments_callback. rewrite Hx.
  rewrite (extract_json_data _ _ _ Hx), emit_nil.
  destruct kwargs as [|kv kwargs]; [contradiction|].
  rewrite Hargs. reflexivity.
Qed.

End InlineComments.

(** C10 as stated fails: the empty mapping has no key made of digits, and
    the callback returns without raising anything. *)
Lemma inline_comments_empty_mapping_returns :
  extract_json_or_retry (py "{}") 0
    (Continuation InlineCommentsCallback 4096 true)
    = Some (Some (JObj []), []) /\
  filter str_isdigit (dict_keys []) = [] /\
  inline_comments_callback no_format 4096 true (py "{}") 0 (sample_ida [])
    = Finished (sample_ida []).
Proof. vm_compute. repeat split. Qed.

Lemma inline_comments_no_numeric_key_witness :
  make_args [(py "purpose", JStr (py "checks the size"))]
    = inl MaxOfEmptySequence
  /\ inline_comments_callback no_format 4096 true
       (json_text "{'purpose': 'checks the size'}") 0 (sample_ida [])
     = Raised MaxOfEmptySequence (sample_ida []).
Proof.
  apply (@inline_comments_no_numeric_key_raises unit no_format 4096 true
           (json_text "{'purpose': 'checks the size'}") 0 (sample_ida [])
           [(py "purpose", JStr (py "checks the size"))] []).
  - vm_compute; reflexivity.
  - discriminate.
  - intros k [<- | []]. vm_compute; reflexivity.
Defined.

(* ===================================================================== *)
(** * Properties of the comment callback *)
(* ===================================================================== *)

Lemma find_index_cons_Some (sub : str) (c : ascii) (s : str) (n : nat) :
  find_index sub (c :: s) = Some (S n) ->
  starts_with sub (c :: s) = false /\ find_index sub s = Some n.
Proof.
  cbn [find_index]. destruct (starts_with sub (c :: s)); [discriminate|].
  destruct (find_index sub s) as [i|]; [|discriminate].
  simpl. intros H. inversion H. split; reflexivity.
Qed.

Lemma find_index_cons_None (sub : str) (c : ascii) (s : str) :
  find_index sub (c :: s) = None ->
  starts_with sub (c :: s) = false /\ find_index sub s = None.
Proof.
  cbn [find_index]. destruct (starts_with sub (c :: s)); [discriminate|].
  destruct (find_index sub s) as [i|]; [discriminate|].
  split; reflexivity.
Qed.

Lemma find_index_zero (sub s : str) :
  find_index sub s = Some 0 -> starts_with sub s = true.
Proof.
  destruct s as [|c s]; cbn [find_index];
    destruct (starts_with sub _); try reflexivity; try discriminate.
  destruct (find_index sub s); discriminate.
Qed.

Lemma find_index_nil_None (sub : str) :
  find_index sub [] = None -> starts_with sub [] = false.
Proof. cbn [find_index]. destruct (starts_with sub []); [discriminate|reflexivity]. Qed.

(** The lazy run before a literal stops at the first place where the
    literal is found. *)
Lemma rep_lazy_find (d : str) (k : cursor -> option cursor) :
  (forall cur, k cur = Some cur) ->
  forall (rest : str) (j pos : nat) prev caps,
    find_index d rest = Some j ->
    exists cur',
      rep_lazy (fun cur0 => exec (lit d) cur0 k) dot_all rest
        (Cursor pos prev rest caps) = Some cur'
      /\ c_pos cur' = pos + j + length d.
Proof.
  intros Hk. induction rest as [|c rest IH]; intros j pos prev caps Hf.
  - destruct j.
    + apply find_index_zero in Hf.
      cbn [rep_lazy]. rewrite exec_lit. cbn [c_rest]. rewrite Hf, Hk.
      eexists. split; [reflexivity|].
      destruct (consume_pos d (Cursor pos prev [] caps) Hf) as [Hp _].
      rewrite Hp. simpl. lia.
    + cbn [find_index] in Hf. destruct (starts_with d []); discriminate.
  - destruct j.
    + apply find_index_zero in Hf.
      cbn [rep_lazy]. rewrite exec_lit. cbn [c_rest]. rewrite Hf, Hk.
      eexists. split; [reflexivity|].
      destruct (consume_pos d (Cursor pos prev (c :: rest) caps) Hf) as [Hp _].
      rewrite Hp. simpl. lia.
    + apply find_index_cons_Some in Hf. destruct Hf as [Hs Hf].
      cbn [rep_lazy]. rewrite exec_lit. cbn [c_rest]. rewrite Hs.
      cbn [dot_all]. unfold advance. cbn [c_pos c_caps].
      destruct (IH j (S pos) (Some c) caps Hf) as [cur' [Hr Hp]].
      exists cur'. split; [exact Hr|]. rewrite Hp. lia.
Qed.

Lemma consume_app (p : str) :
  forall pos prev tail caps,
    exists prev',
      consume p (Cursor pos prev (p ++ tail) caps)
      = Cursor (pos + length p) prev' tail caps.
Proof.
  induction p as [|c p IH]; intros pos prev tail caps.
  - exists prev. simpl. rewrite Nat.add_0_r. reflexivity.
  - destruct (IH (S pos) (Some c) tail caps) as [prev' H].
    exists prev'. cbn [app consume c_rest]. unfold advance. cbn [c_pos c_caps].
    rewrite H. f_equal. simpl. lia.
Qed.

Section CommentBlock.

Lemma header_not_nil : starts_with comment_header [] = false.
Proof. reflexivity. Qed.

(** Where the block pattern does not start, the attempt fails. *)
Lemma attempt_block_miss (rest : str) pos prev :
  starts_with comment_header rest = false ->
  attempt generated_block_re false (Cursor pos prev rest []) = None.
Proof.
  intros H. unfold attempt, generated_block_re.
  rewrite exec_Cat, exec_lit. cbn [c_rest]. rewrite H. reflexivity.
Qed.

(** Where it starts, the match runs to the end of the first closing
    line of dashes. *)
Lemma attempt_block_hit (tail : str) (j pos : nat) prev :
  find_index dashes tail = Some j ->
  exists cur',
    attempt generated_block_re false
      (Cursor pos prev (comment_header ++ tail) []) = Some cur'
    /\ c_pos cur' = pos + length comment_header + j + length dashes.
Proof.
  intros Hf. unfold attempt, generated_block_re.
  rewrite exec_Cat, exec_lit. cbn [c_rest].
  rewrite starts_with_app.
  destruct (consume_app comment_header pos prev tail []) as [prev1 ->].
  rewrite exec_Cat, exec_Rep_lazy. cbn [c_rest].
  destruct (@rep_lazy_find dashes
              (fun cur' =>
                 if false && (c_pos cur' =? pos)%nat then None else Some cur')
              (fun cur => eq_refl) tail j
              (pos + length comment_header) prev1 [] Hf)
    as [cur' [Hrun Hpos]].
  exists cur'. split; [exact Hrun|exact Hpos].
Qed.

(** A text without the header is copied as it is. *)
Lemma sub_block_copy (s : str) :
  find_index comment_header s = None ->
  forall pos prev, sub_loop generated_block_re [] 0 pos prev s = s.
Proof.
  induction s as [|c s IH]; intros Hf pos prev.
  - apply find_index_nil_None in Hf.
    cbn [sub_loop]. rewrite attempt_block_miss by exact Hf. reflexivity.
  - apply find_index_cons_None in Hf. destruct Hf as [Hs Hf].
    cbn [sub_loop]. rewrite attempt_block_miss by exact Hs.
    rewrite IH by exact Hf. reflexivity.
Qed.

(** The characters of a match are dropped. *)
Lemma sub_loop_skip (r : regex) (repl u rest : str) :
  forall pos prev,
    exists prev',
      sub_loop r repl (length u) pos prev (u ++ rest)
      = sub_loop r repl 0 (pos + length u) prev' rest.
Proof.
  induction u as [|c u IH]; intros pos prev.
  - exists prev. simpl. rewrite Nat.add_0_r. reflexivity.
  - destruct (IH (S pos) (Some c)) as [prev' H].
    exists prev'. cbn [length app sub_loop]. rewrite H.
    f_equal. lia.
Qed.

(** The substitution of line 233 on a comment with one block: the
    block goes and the text around it stays. *)
Lemma sub_block_removed (pre body post : str) :
  find_index comment_header (pre ++ comment_header ++ body ++ dashes ++ post)
    = Some (length pre) ->
  find_index dashes (body ++ dashes ++ post) = Some (length body) ->
  find_index comment_header post = None ->
  re_sub generated_block_re []
    (pre ++ comment_header ++ body ++ dashes ++ post) = pre ++ post.
Proof.
  intros H1 H2 H3. unfold re_sub. generalize 0 at 2. generalize (@None ascii).
  revert H1. induction pre as [|c pre IH]; intros H1 prev pos.
  - cbn [app].
    destruct (@attempt_block_hit (body ++ dashes ++ post) (length body)
                pos prev H2) as [cur' [Ha Hp]].
    remember (comment_header ++ body ++ dashes ++ post) as text eqn:Et.
    assert (Hshape : exists c0 u,
               text = c0 :: u ++ post
               /\ length u = c_pos cur' - pos - 1).
    { subst text. exists "-", (skipn 1 comment_header ++ body ++ dashes).
      split.
      - rewrite <- !app_assoc. reflexivity.
      - rewrite Hp, !length_app. simpl. lia. }
    destruct Hshape as [c0 [u [Hshape Hlen]]].
    rewrite Hshape in *. cbn [sub_loop]. rewrite Ha.
    replace (c_pos cur' =? pos)%nat with false
      by (symmetry; apply Nat.eqb_neq; rewrite Hp; simpl; lia).
    cbn [app].
    replace (c_pos cur' - pos - 1) with (length u) by lia.
    destruct (@sub_loop_skip generated_block_re [] u post (S pos) (Some c0))
      as [prev' Hs].
    rewrite Hs. apply sub_block_copy. exact H3.
  - cbn [app length] in H1. apply find_index_cons_Some in H1.
    destruct H1 as [Hs H1].
    cbn [app sub_loop]. rewrite attempt_block_miss by exact Hs.
    rewrite (IH H1). reflexivity.
Qed.

End CommentBlock.

(** C6 as stated fails: the text the user wrote above the old block does
    not stay above the new one, and the blank lines around the user's
    text are not kept: the new block comes first, then a blank line, then
    the text from both sides of the old block, stripped. *)
Lemma comment_callback_moves_outside_text :
  let pre := py "checked by hand" ++ [newline] in
  let post := [newline; newline] ++ py "see also f2" ++ [newline] in
  let old := pre ++ generated_block (py "Old text.") ++ post in
  let s := comment_callback one_line 4096 true (py "Adds two numbers.")
             (sample_ida old) in
  func_cmt s 4096
    = generated_block (py "Adds two numbers.") ++ [newline; newline]
      ++ py "checked by hand" ++ [newline; newline; newline] ++ py "see also f2"
  /\ func_cmt s 4096 <> pre ++ generated_block (py "Adds two numbers.") ++ post.
Proof. vm_compute. split; [reflexivity|discriminate]. Qed.

Section CommentCallback.

Variable lvar_table : Type.
Variable textwrap_wrap : str -> list str.

(** C6, amended: on a comment made of the text [pre], one generated
    block and the text [post], the callback stores the new block, a
    blank line, and then [pre ++ post] with the whitespace at its two
    ends removed; the comments of the other functions are untouched. *)
Theorem comment_callback_keeps_outside_text :
  forall (address : Z) (view : bool) (response : str) (s : ida lvar_table)
         (pre body post : str),
    func_cmt s address = pre ++ comment_header ++ body ++ dashes ++ post ->
    find_index comment_header (func_cmt s address) = Some (length pre) ->
    find_index dashes (body ++ dashes ++ post) = Some (length body) ->
    find_index comment_header post = None ->
    let s' := comment_callback textwrap_wrap address view response s in
    func_cmt s' address
      = generated_block (py_strip (py_join [newline] (textwrap_wrap response)))
        ++ [newline; newline] ++ py_strip (pre ++ post)
    /\ (forall a, a <> address -> func_cmt s' a = func_cmt s a).
Proof.
  intros address view response s pre body post Hc H1 H2 H3 s'.
  subst s'. unfold comment_callback. rewrite Hc in *.
  rewrite (sub_block_removed _ _ _ H1 H2 H3).
  unfold generated_block, refresh. split.
  - destruct view; cbn [emit func_cmt set_func_cmt];
      rewrite Z.eqb_refl, <- !app_assoc; reflexivity.
  - intros a Ha. apply Z.eqb_neq in Ha.
    destruct view; cbn [emit func_cmt set_func_cmt]; rewrite Ha;
      reflexivity.
Qed.

End CommentCallback.

Lemma comment_callback_keeps_outside_text_witness :
  func_cmt
    (comment_callback one_line 4096 true (py "Adds two numbers.")
       (sample_ida (generated_block (py "Old text.") ++ [newline; newline]
                    ++ py "see also f2")))
    4096
  = generated_block (py_strip (py_join [newline] (one_line (py "Adds two numbers."))))
    ++ [newline; newline]
    ++ py_strip ([] ++ [newline; newline] ++ py "see also f2").
Proof.
  apply (@comment_callback_keeps_outside_text unit one_line 4096 true
           (py "Adds two numbers.")
           (sample_ida (generated_block (py "Old text.") ++ [newline; newline]
                        ++ py "see also f2"))
           [] ([newline; newline] ++ py "Old text." ++ [newline; newline])
           ([newline; newline] ++ py "see also f2")).
  - vm_compute; reflexivity.
  - vm_compute; reflexivity.
  - vm_compute; reflexivity.
  - vm_compute; reflexivity.
Defined.

(* ===================================================================== *)
(** * Whole-word substitution *)
(* ===================================================================== *)

Lemma word_split (s : str) : word_prefix s ++ after_word s = s.
Proof.
  induction s as [|c s IH]; simpl; [reflexivity|].
  destruct (is_word c); simpl; [rewrite IH|]; reflexivity.
Qed.

Lemma after_word_length (s : str) : length (after_word s) <= length s.
Proof.
  induction s as [|c s IH]; simpl; [lia|].
  destruct (is_word c); simpl; lia.
Qed.

Lemma after_word_stable (s : str) :
  word_prefix (after_word s) = [] /\ after_word (after_word s) = after_word s.
Proof.
  induction s as [|c s IH]; simpl; [split; reflexivity|].
  destruct (is_word c) eqn:E; [exact IH|].
  simpl. rewrite E. split; reflexivity.
Qed.

Lemma word_prefix_app (n u : str) :
  forallb is_word n = true -> word_prefix (n ++ u) = n ++ word_prefix u.
Proof.
  induction n as [|c n IH]; simpl; [reflexivity|].
  intros H. apply andb_prop in H. destruct H as [Hc H].
  rewrite Hc, IH by exact H. reflexivity.
Qed.

Lemma starts_with_split (p s : str) :
  starts_with p s = true -> exists u, s = p ++ u.
Proof.
  revert s. induction p as [|c p IH]; intros s H.
  - exists s. reflexivity.
  - destruct s as [|x s]; [discriminate|]. simpl in H.
    apply andb_prop in H. destruct H as [Hc H].
    apply Ascii.eqb_eq in Hc. subst x.
    destruct (IH s H) as [u ->]. exists u. reflexivity.
Qed.

Lemma str_eqb_eq (a b : str) : str_eqb a b = true <-> a = b.
Proof.
  unfold str_eqb. split.
  - intros H. apply andb_prop in H. destruct H as [Hl Hs].
    apply Nat.eqb_eq in Hl. destruct (starts_with_split _ _ Hs) as [u ->].
    rewrite length_app in Hl. destruct u; [symmetry; apply app_nil_r|].
    simpl in Hl. lia.
  - intros ->. rewrite Nat.eqb_refl. simpl.
    rewrite <- (app_nil_r b) at 2. apply starts_with_app.
Qed.

Lemma tokens_other (c : ascii) (s : str) :
  is_word c = false -> tokens (c :: s) = [c] :: tokens s.
Proof. intros H. simpl. rewrite H. reflexivity. Qed.

Lemma tokens_cons (c : ascii) (s : str) :
  tokens (c :: s) =
    if is_word c then
      match tokens s with
      | (d :: w) :: ts =>
          if is_word d then (c :: d :: w) :: ts else [c] :: (d :: w) :: ts
      | ts => [c] :: ts
      end
    else [c] :: tokens s.
Proof. reflexivity. Qed.

Lemma tokens_word (s : str) :
  forall c, is_word c = true ->
    tokens (c :: s) = (c :: word_prefix s) :: tokens (after_word s).
Proof.
  induction s as [|d s IH]; intros c Hc.
  - simpl. rewrite Hc. reflexivity.
  - rewrite tokens_cons, Hc. cbn [word_prefix after_word].
    destruct (is_word d) eqn:Hd.
    + rewrite (IH d Hd), Hd. reflexivity.
    + rewrite tokens_other by exact Hd. rewrite Hd. reflexivity.
Qed.

Section WordSubstitution.

Variable n repl : str.
Hypothesis n_word : forallb is_word n = true.
Hypothesis n_not_nil : n <> [].

(** [\bn\b] *)
Let r : regex := Cat Bnd (Cat (lit n) Bnd).

Lemma exec_Bnd (cur : cursor) (k : cursor -> option cursor) :
  exec Bnd cur k
  = if xorb (word_before cur) (word_after cur) then k cur else None.
Proof. reflexivity. Qed.

Lemma head_of_n : exists c m, n = c :: m /\ is_word c = true.
Proof.
  destruct n as [|c m] eqn:E; [contradiction|].
  exists c, m. split; [reflexivity|].
  simpl in n_word. apply andb_prop in n_word. tauto.
Qed.

Lemma starts_with_other (c : ascii) (s : str) :
  is_word c = false -> starts_with n (c :: s) = false.
Proof.
  intros Hc. destruct head_of_n as [x [m [-> Hx]]]. simpl.
  destruct (Ascii.eqb x c) eqn:E; [|reflexivity].
  apply Ascii.eqb_eq in E. subst x. congruence.
Qed.

Lemma starts_with_nil : starts_with n [] = false.
Proof. destruct head_of_n as [x [m [-> _]]]. reflexivity. Qed.

(** The character before the cursor after reading a word. *)
Lemma consume_word (p : str) :
  forallb is_word p = true ->
  forall pos prev tail caps,
    prev_word prev = true \/ p <> [] ->
    exists prev',
      consume p (Cursor pos prev (p ++ tail) caps)
      = Cursor (pos + length p) prev' tail caps
      /\ prev_word prev' = true.
Proof.
  induction p as [|c p IH]; intros Hp pos prev tail caps Hor.
  - exists prev. simpl. rewrite Nat.add_0_r. split; [reflexivity|].
    destruct Hor as [H|H]; [exact H|contradiction].
  - simpl in Hp. apply andb_prop in Hp. destruct Hp as [Hc Hp].
    destruct (IH Hp (S pos) (Some c) tail caps (or_introl Hc))
      as [prev' [H Hw]].
    exists prev'. cbn [app consume c_rest]. unfold advance.
    cbn [c_pos c_caps]. rewrite H. split; [f_equal; simpl; lia|exact Hw].
Qed.

Lemma word_before_eq pos prev rest caps :
  word_before (Cursor pos prev rest caps) = prev_word prev.
Proof. reflexivity. Qed.

Lemma word_after_eq pos prev rest caps :
  word_after (Cursor pos prev rest caps)
  = match rest with c :: _ => is_word c | [] => false end.
Proof. reflexivity. Qed.

Lemma attempt_word_eq (cur : cursor) :
  attempt r false cur
  = if xorb (word_before cur) (word_after cur) then
      if starts_with n (c_rest cur) then
        if xorb (word_before (consume n cur)) (word_after (consume n cur))
        then Some (consume n cur) else None
      else None
    else None.
Proof.
  unfold attempt, r. rewrite exec_Cat, exec_Bnd.
  destruct (xorb (word_before cur) (word_after cur)); [|reflexivity].
  rewrite exec_Cat, exec_lit.
  destruct (starts_with n (c_rest cur)); [|reflexivity].
  rewrite exec_Bnd. reflexivity.
Qed.

(** Inside a word, and in front of a character that is no word
    character, the pattern does not match. *)
Lemma attempt_word_miss (s : str) pos prev :
  prev_word prev = true \/ word_prefix s = [] ->
  attempt r false (Cursor pos prev s []) = None.
Proof.
  intros H. rewrite attempt_word_eq.
  rewrite word_before_eq, word_after_eq. cbn [c_rest].
  destruct s as [|c s].
  - rewrite starts_with_nil. destruct (xorb _ _); reflexivity.
  - destruct (is_word c) eqn:Hc.
    + destruct H as [H|H]; [|simpl in H; rewrite Hc in H; discriminate].
      rewrite H. reflexivity.
    + rewrite starts_with_other by exact Hc.
      destruct (xorb _ _); reflexivity.
Qed.

(** At the start of a word the pattern matches exactly when the word
    is [n]. *)
Lemma attempt_word_start (c : ascii) (s : str) pos prev :
  prev_word prev = false ->
  is_word c = true ->
  if str_eqb (c :: word_prefix s) n then
    exists cur',
      attempt r false (Cursor pos prev (c :: s) []) = Some cur'
      /\ c_pos cur' = pos + length n
  else attempt r false (Cursor pos prev (c :: s) []) = None.
Proof.
  intros Hprev Hc.
  assert (Hw : word_prefix (c :: s) = c :: word_prefix s)
    by (simpl; rewrite Hc; reflexivity).
  rewrite attempt_word_eq, word_before_eq, word_after_eq. cbn [c_rest].
  rewrite Hprev, Hc. cbn [xorb].
  destruct (starts_with n (c :: s)) eqn:Hs.
  - destruct (starts_with_split _ _ Hs) as [u Hu]. rewrite Hu.
    destruct (@consume_word n n_word pos prev u [] (or_intror n_not_nil))
      as [prev' [Hcon Hpw]].
    rewrite Hcon, word_before_eq, word_after_eq. rewrite Hpw.
    rewrite <- Hw, Hu, word_prefix_app by exact n_word.
    destruct u as [|d u].
    + cbn [word_prefix]. rewrite app_nil_r.
      replace (str_eqb n n) with true
        by (symmetry; apply str_eqb_eq; reflexivity).
      eexists. split; [reflexivity|reflexivity].
    + cbn [word_prefix]. destruct (is_word d).
      * cbn [xorb].
        destruct (str_eqb (n ++ d :: word_prefix u) n) eqn:E; [|reflexivity].
        apply str_eqb_eq in E. apply (f_equal (@length ascii)) in E.
        rewrite length_app in E. simpl in E. lia.
      * cbn [xorb]. rewrite app_nil_r.
        replace (str_eqb n n) with true
          by (symmetry; apply str_eqb_eq; reflexivity).
        eexists. split; [reflexivity|reflexivity].
  - destruct (str_eqb (c :: word_prefix s) n) eqn:E; [|reflexivity].
    apply str_eqb_eq in E. rewrite <- Hw in E.
    rewrite <- (word_split (c :: s)), E, starts_with_app in Hs.
    discriminate.
Qed.

Lemma replace_words_other (c : ascii) (s : str) :
  is_word c = false ->
  replace_words n repl (c :: s) = c :: replace_words n repl s.
Proof.
  intros Hc. unfold replace_words. rewrite tokens_other by exact Hc.
  cbn [map concat].
  destruct (str_eqb [c] n) eqn:E; [|reflexivity].
  apply str_eqb_eq in E. rewrite <- E in n_word. simpl in n_word.
  rewrite Hc in n_word. discriminate.
Qed.

Lemma replace_words_word (c : ascii) (s : str) :
  is_word c = true ->
  replace_words n repl (c :: s)
  = (if str_eqb (c :: word_prefix s) n then repl else c :: word_prefix s)
    ++ replace_words n repl (after_word s).
Proof.
  intros Hc. unfold replace_words. rewrite tokens_word by exact Hc.
  reflexivity.
Qed.

(** The loop of the substitution, from any state it can be in: after a
    word character it first copies the rest of the current word. *)
Lemma sub_loop_words (fuel : nat) :
  forall (s : str) pos prev,
    length s <= fuel ->
    sub_loop r repl 0 pos prev s
    = if prev_word prev
      then word_prefix s ++ replace_words n repl (after_word s)
      else replace_words n repl s.
Proof.
  induction fuel as [|fuel IH]; intros s pos prev Hlen.
  - destruct s; [|simpl in Hlen; lia].
    cbn [sub_loop]. rewrite attempt_word_miss by (right; reflexivity).
    destruct (prev_word prev); reflexivity.
  - destruct s as [|c s].
    + cbn [sub_loop]. rewrite attempt_word_miss by (right; reflexivity).
      destruct (prev_word prev); reflexivity.
    + simpl in Hlen. assert (Hs : length s <= fuel) by lia.
      destruct (is_word c) eqn:Hc; destruct (prev_word prev) eqn:Hp.
      * cbn [sub_loop]. rewrite attempt_word_miss by (left; exact Hp).
        rewrite (IH s (S pos) (Some c) Hs). cbn [prev_word]. rewrite Hc.
        cbn [word_prefix after_word]. rewrite Hc. reflexivity.
      * rewrite replace_words_word by exact Hc.
        pose proof (@attempt_word_start c s pos prev Hp Hc) as Ha.
        destruct (str_eqb (c :: word_prefix s) n) eqn:E.
        -- destruct Ha as [cur' [Ha Hpos]].
           cbn [sub_loop]. rewrite Ha.
           replace (c_pos cur' =? pos)%nat with false
             by (symmetry; apply Nat.eqb_neq; rewrite Hpos;
                 destruct head_of_n as [x [m [-> _]]]; simpl; lia).
           apply str_eqb_eq in E.
           replace (c_pos cur' - pos - 1) with (length (word_prefix s))
             by (rewrite Hpos, <- E; simpl; lia).
           replace (sub_loop r repl (length (word_prefix s)) (S pos) (Some c) s)
             with (sub_loop r repl (length (word_prefix s)) (S pos) (Some c)
                     (word_prefix s ++ after_word s))
             by (rewrite word_split; reflexivity).
           destruct (@sub_loop_skip r repl (word_prefix s) (after_word s)
                       (S pos) (Some c)) as [prev' Hskip].
           rewrite Hskip.
           rewrite (IH (after_word s) _ prev')
             by (pose proof (after_word_length s); lia).
           destruct (after_word_stable s) as [H1 H2]. rewrite H1, H2.
           destruct (prev_word prev'); reflexivity.
        -- cbn [sub_loop]. rewrite Ha.
           rewrite (IH s (S pos) (Some c) Hs). cbn [prev_word]. rewrite Hc.
           reflexivity.
      * cbn [sub_loop].
        rewrite attempt_word_miss
          by (right; simpl; rewrite Hc; reflexivity).
        rewrite (IH s (S pos) (Some c) Hs). cbn [prev_word]. rewrite Hc.
        cbn [word_prefix after_word]. rewrite Hc.
        rewrite replace_words_other by exact Hc. reflexivity.
      * cbn [sub_loop].
        rewrite attempt_word_miss
          by (right; simpl; rewrite Hc; reflexivity).
        rewrite (IH s (S pos) (Some c) Hs). cbn [prev_word]. rewrite Hc.
        rewrite replace_words_other by exact Hc. reflexivity.
Qed.

(** [re.sub(r'\bn\b', repl, s)] replaces the words equal to [n]. *)
Lemma re_sub_word (s : str) :
  re_sub r repl s = replace_words n repl s.
Proof.
  unfold re_sub. rewrite (@sub_loop_words (length s)) by lia. reflexivity.
Qed.

End WordSubstitution.

(* ===================================================================== *)
(** * Properties of the renaming callback *)
(* ===================================================================== *)

Lemma ident_char_word (c : ascii) : is_ident_char c = true -> is_word c = true.
Proof. intros H. unfold is_word. rewrite H. reflexivity. Qed.

Lemma ident_char_plain (c : ascii) :
  is_ident_char c = true ->
  is_special c = false /\ Ascii.eqb "\" c = false.
Proof.
  destruct c as [[] [] [] [] [] [] [] []]; vm_compute; intros H;
    solve [discriminate H | split; reflexivity].
Qed.

Lemma identifier_word (n : str) :
  is_identifier n = true -> forallb is_word n = true /\ n <> [].
Proof.
  destruct n as [|c n]; [discriminate|]. unfold is_identifier. intros H.
  split; [|discriminate].
  apply forallb_forall. intros x Hx. apply ident_char_word.
  rewrite forallb_forall in H. apply H. exact Hx.
Qed.

Lemma identifier_plain (n : str) :
  is_identifier n = true ->
  existsb is_special n = false /\ existsb (Ascii.eqb "\") n = false.
Proof.
  destruct n as [|c n]; [discriminate|]. unfold is_identifier.
  generalize (c :: n). clear c n. intros n H.
  induction n as [|c n IH]; [split; reflexivity|].
  cbn [forallb] in H. apply andb_prop in H. destruct H as [Hc H].
  destruct (ident_char_plain _ Hc) as [H1 H2]. destruct (IH H) as [H3 H4].
  cbn [existsb]. rewrite H1, H2, H3, H4. split; reflexivity.
Qed.

Lemma replace_words_nil (n repl : str) : replace_words n repl [] = [].
Proof. reflexivity. Qed.

(** The substitutions of lines 298-299, for identifiers: one whole-word
    replacement after the other. *)
Lemma substitute_names_identifiers (names : dict) :
  forall (replaced : list str) (comment : str),
    (forall n, In n replaced -> renames_identifier names n) ->
    substitute_names names replaced comment
    = Some (inr (fold_left (fun c n => replace_words n (new_name names n) c)
                           replaced comment)).
Proof.
  induction replaced as [|n replaced IH]; intros comment Hin.
  - reflexivity.
  - destruct (Hin n (or_introl eq_refl)) as [Hn [t [Hg Ht]]].
    cbn [substitute_names fold_left]. unfold new_name at 2. rewrite Hg.
    destruct (identifier_plain _ Hn) as [Hs _].
    destruct (identifier_plain _ Ht) as [_ Hb].
    destruct (identifier_word _ Hn) as [Hw Hne].
    unfold word_re. rewrite Hs, Hb.
    rewrite (re_sub_word t Hw Hne).
    apply IH. intros m Hm. apply Hin. right. exact Hm.
Qed.

Section RenameCallback.

Variable lvar_table : Type.
Variable rename_lvar : lvar_table -> Z -> str -> json -> bool * lvar_table.
Variable func_start : Z -> Z.

(** The loop makes one attempt for every pair of the mapping, in its
    order and whatever the earlier attempts gave; it keeps the names
    whose attempt succeeded and touches no comment. *)
Lemma rename_all_attempts (function_addr : Z) (pairs : dict) :
  forall s : ida lvar_table,
    exists results,
      map fst results = pairs
      /\ fst (rename_all rename_lvar function_addr pairs s) = renamed results
      /\ log (snd (rename_all rename_lvar function_addr pairs s))
         = log s ++ map (attempt_entry function_addr) results
      /\ func_cmt (snd (rename_all rename_lvar function_addr pairs s))
         = func_cmt s.
Proof.
  induction pairs as [|[n new] pairs IH]; intros s.
  - exists []. simpl. rewrite app_nil_r. repeat split.
  - cbn [rename_all].
    destruct (rename_lvar (lvars s) function_addr n new) as [ok t] eqn:E.
    destruct (IH (emit [RenameLvar function_addr n new ok] (set_lvars t s)))
      as [results [Hm [Hr [Hl Hc]]]].
    destruct (rename_all rename_lvar function_addr pairs
                (emit [RenameLvar function_addr n new ok] (set_lvars t s)))
      as [replaced s1].
    cbn [fst snd] in *.
    exists ((n, new, ok) :: results). cbn [map fst snd]. rewrite Hm.
    split; [reflexivity|]. split; [|split].
    + unfold renamed. cbn [filter snd]. destruct ok; cbn [map fst];
        rewrite Hr; reflexivity.
    + rewrite Hl. cbn [emit log set_lvars]. rewrite <- app_assoc.
      reflexivity.
    + rewrite Hc. reflexivity.
Qed.

(** The loop of lines 291-293 is the application of the pairs to the
    table of the host: the names it collects are those the host
    renamed, the table it leaves is the table after the last attempt,
    and every attempt is logged with the answer of the host. *)
Lemma rename_all_apply_pairs (function_addr : Z) (pairs : dict) :
  forall s : ida lvar_table,
    fst (rename_all rename_lvar function_addr pairs s)
      = renamed (fst (apply_pairs rename_lvar function_addr pairs (lvars s)))
    /\ lvars (snd (rename_all rename_lvar function_addr pairs s))
       = snd (apply_pairs rename_lvar function_addr pairs (lvars s))
    /\ log (snd (rename_all rename_lvar function_addr pairs s))
       = log s
         ++ map (attempt_entry function_addr)
              (fst (apply_pairs rename_lvar function_addr pairs (lvars s)))
    /\ func_cmt (snd (rename_all rename_lvar function_addr pairs s))
       = func_cmt s.
Proof.
  induction pairs as [|[n new] pairs IH]; intros s.
  - cbn [rename_all apply_pairs fst snd map]. rewrite app_nil_r.
    repeat split.
  - cbn [rename_all apply_pairs].
    destruct (rename_lvar (lvars s) function_addr n new) as [ok t] eqn:E.
    destruct (IH (emit [RenameLvar function_addr n new ok] (set_lvars t s)))
      as [Hr [Hv [Hl Hc]]].
    cbn [emit set_lvars lvars log func_cmt] in Hr, Hv, Hl, Hc.
    destruct (rename_all rename_lvar function_addr pairs
                (emit [RenameLvar function_addr n new ok] (set_lvars t s)))
      as [replaced s1].
    destruct (apply_pairs rename_lvar function_addr pairs t)
      as [results t2].
    cbn [fst snd] in *. split; [|split; [exact Hv|split; [|exact Hc]]].
    + unfold renamed. cbn [filter snd]. destruct ok; cbn [map fst];
        rewrite Hr; reflexivity.
    + rewrite Hl. cbn [map]. rewrite <- app_assoc. reflexivity.
Qed.

Lemma apply_pairs_pairs (function_addr : Z) (pairs : dict) :
  forall t : lvar_table,
    map fst (fst (apply_pairs rename_lvar function_addr pairs t)) = pairs.
Proof.
  induction pairs as [|[n new] pairs IH]; intros t; [reflexivity|].
  cbn [apply_pairs].
  destruct (rename_lvar t function_addr n new) as [ok t1].
  specialize (IH t1).
  destruct (apply_pairs rename_lvar function_addr pairs t1) as [results t2].
  cbn [fst map] in *. rewrite IH. reflexivity.
Qed.

(** C7: for every mapping, the callback applies the pairs to the table
    of local variables of the host: every pair is handed to
    [rename_lvar] once, in order and whatever the host answered to the
    others, each on the table the attempts before it left, and the
    table of the database is afterwards the one the host gave back
    last.  The count it reports is the number of pairs the host
    renamed.  When the names the host did rename are identifiers renamed
    to identifiers, the function comment it leaves is the old one in
    which, for each successfully renamed name in turn, the words equal
    to that name are replaced by its new name; the names whose attempt
    failed take no part in the substitution. *)
Theorem rename_callback_substitutes_renamed :
  forall (address : Z) (view : bool) (response : str) (retries : Z)
         (s : ida lvar_table) (names : dict) (effects : list effect),
    extract_json_or_retry response retries
      (Continuation RenameCallback (screen_ea s) view)
      = Some (Some (JObj names), effects) ->
    names <> [] ->
    let applied :=
      apply_pairs rename_lvar (func_start address) names (lvars s) in
    (forall n, In n (renamed (fst applied)) -> renames_identifier names n) ->
    exists s' : ida lvar_table,
      rename_callback rename_lvar func_start address view response retries s
        = Finished s'
      /\ map fst (fst applied) = names
      /\ lvars s' = snd applied
      /\ log s'
         = log s ++ map (attempt_entry (func_start address)) (fst applied)
           ++ (if view then [RefreshView true] else [])
           ++ [Print (MsgRenameFinished
                        (Z.of_nat (length (filter snd (fst applied)))))]
      /\ func_cmt s' address
         = fold_left (fun c n => replace_words n (new_name names n) c)
             (renamed (fst applied)) (func_cmt s address)
      /\ (forall a, a <> address -> func_cmt s' a = func_cmt s a).
Proof.
  intros address view response retries s names effects Hx Hne applied Hren.
  unfold rename_callback. rewrite Hx.
  rewrite (extract_json_data _ _ _ Hx), emit_nil.
  destruct names as [|kv names']; [contradiction|].
  set (names := kv :: names') in *.
  destruct (rename_all_apply_pairs (func_start address) names s)
    as [Hr [Hv [Hl Hc]]].
  pose proof (apply_pairs_pairs (func_start address) names (lvars s)) as Hm.
  fold applied in Hr, Hv, Hl, Hm.
  destruct (rename_all rename_lvar (func_start address) names s)
    as [replaced s1].
  cbn [fst snd] in Hr, Hv, Hl, Hc. subst replaced.
  set (results := fst applied) in *.
  assert (Hlen : length (renamed results) = length (filter snd results))
    by (unfold renamed; apply length_map).
  rewrite Hc.
  destruct (func_cmt s address) as [|c0 comment] eqn:Ecmt.
  - eexists. split; [reflexivity|]. split; [exact Hm|].
    split; [|split; [|split]].
    + unfold refresh. destruct view; cbn [emit lvars]; exact Hv.
    + unfold refresh. destruct view; cbn [emit log]; rewrite Hl, Hlen;
        rewrite <- ?app_assoc; reflexivity.
    + unfold refresh. destruct view; cbn [emit func_cmt]; rewrite Hc, Ecmt;
        clear; induction (renamed results) as [|n l IH];
        [reflexivity|exact IH|reflexivity|exact IH].
    + intros a _. unfold refresh.
      destruct view; cbn [emit func_cmt]; rewrite Hc; reflexivity.
  - destruct (renamed results) as [|n0 replaced] eqn:Erep.
    + eexists. split; [reflexivity|]. split; [exact Hm|].
      split; [|split; [|split]].
      * unfold refresh. destruct view; cbn [emit lvars]; exact Hv.
      * unfold refresh. destruct view; cbn [emit log]; rewrite Hl, <- Hlen;
          rewrite <- ?app_assoc; reflexivity.
      * unfold refresh. destruct view; cbn [emit func_cmt]; rewrite Hc, Ecmt;
          reflexivity.
      * intros a _. unfold refresh.
        destruct view; cbn [emit func_cmt]; rewrite Hc; reflexivity.
    + rewrite (substitute_names_identifiers _ (c0 :: comment) Hren).
      eexists. split; [reflexivity|]. split; [exact Hm|].
      split; [|split; [|split]].
      * unfold refresh.
        destruct view; cbn [emit lvars set_func_cmt]; exact Hv.
      * unfold refresh.
        destruct view; cbn [emit log set_func_cmt]; rewrite Hl, <- Hlen;
          rewrite <- ?app_assoc; reflexivity.
      * unfold refresh.
        destruct view; cbn [emit func_cmt set_func_cmt];
          rewrite Z.eqb_refl; reflexivity.
      * intros a Ha. apply Z.eqb_neq in Ha. unfold refresh.
        destruct view; cbn [emit func_cmt set_func_cmt]; rewrite Ha, Hc;
          reflexivity.
Qed.

End RenameCallback.

(** The scenario of the specification: [v1] is renamed, [v2] is not (its
    new name is taken), and only the word [v1] changes in the comment. *)
Example rename_callback_one_of_two :
  rename_callback list_rename (fun a => a) 4096 true
    (json_text "{'v1': 'count', 'v2': 'total'}") 0
    (sample_vars (py "v1 and v2 and v12 (v1)") [py "v1"; py "v2"; py "total"])
  = Finished
      (Ida (fun a => if (a =? 4096)%Z
                     then py "count and v2 and v12 (count)"
                     else if (a =? 4096)%Z then py "v1 and v2 and v12 (v1)"
                     else [])
           [] [] [py "count"; py "v2"; py "total"] 4096
           [RenameLvar 4096 (py "v1") (JStr (py "count")) true;
            RenameLvar 4096 (py "v2") (JStr (py "total")) false;
            RefreshView true;
            Print (MsgRenameFinished 1)]).
Proof. vm_compute. reflexivity. Qed.

Lemma rename_callback_substitutes_renamed_witness :
  let names := [(py "v1", JStr (py "count")); (py "v2", JStr (py "total"))] in
  let s := sample_vars (py "v1 and v2 and v12 (v1)")
             [py "v1"; py "v2"; py "total"] in
  let applied := apply_pairs list_rename 4096 names (lvars s) in
  exists s' : ida (list str),
    rename_callback list_rename (fun a => a) 4096 true
      (json_text "{'v1': 'count', 'v2': 'total'}") 0 s = Finished s'
    /\ map fst (fst applied) = names
    /\ lvars s' = snd applied
    /\ log s'
       = log s ++ map (attempt_entry 4096) (fst applied)
         ++ [RefreshView true]
         ++ [Print (MsgRenameFinished
                      (Z.of_nat (length (filter snd (fst applied)))))]
    /\ func_cmt s' 4096
       = fold_left (fun c n => replace_words n (new_name names n) c)
           (renamed (fst applied)) (func_cmt s 4096)
    /\ (forall a, a <> 4096%Z -> func_cmt s' a = func_cmt s a).
Proof.
  apply (@rename_callback_substitutes_renamed (list str) list_rename
           (fun a => a) 4096 true
           (json_text "{'v1': 'count', 'v2': 'total'}") 0
           (sample_vars (py "v1 and v2 and v12 (v1)")
              [py "v1"; py "v2"; py "total"])
           [(py "v1", JStr (py "count")); (py "v2", JStr (py "total"))] []).
  - vm_compute; reflexivity.
  - discriminate.
  - intros n [<- | []]. split; [reflexivity|].
    exists (py "count"). split; reflexivity.
Defined.


(* ===================================================================== *)
(** * Further properties of the query wrapper *)
(* ===================================================================== *)

Lemma requests_of_retry (r : request) (m : message) (t : list query_event) :
  requests_of (Sent r :: Printed m :: t) = r :: requests_of t.
Proof. reflexivity. Qed.

(** The shape of a trace: what one call contributes, and the trace of
    the call it makes. *)
Lemma query_model_unfold (fuel : nat) (api : nat -> api_outcome) (n : nat)
    (query : str) (max_tokens : Z) (t : list query_event) :
  query_model (S fuel) api n query max_tokens = Some t ->
  (exists e hard_limit prompt_tokens t',
      api n = InvalidRequest e
      /\ context_limits e = Limits hard_limit prompt_tokens
      /\ (750 <= hard_limit - prompt_tokens)%Z
      /\ query_model fuel api (S n) query (hard_limit - prompt_tokens) = Some t'
      /\ t = Sent (chat_request query)
             :: Printed (MsgContextExceeded (hard_limit - prompt_tokens)) :: t')
  \/ (ends_chain (api n) = true
      /\ exists ev,
           t = [Sent (chat_request query); ev]
           /\ requests_of [ev] = [] /\ budgets_of [ev] = []
           /\ match api n with
              | Reply c => ev = ExecuteSync c
              | _ => forall c, ev <> ExecuteSync c
              end).
Proof.
  cbn [query_model]. unfold ends_chain.
  destruct (api n) as [c|e|e|e].
  - intros H; inversion H. right. split; [reflexivity|].
    eexists; repeat split.
  - destruct (context_limits e) as [|hl pt|d] eqn:El.
    + intros H; inversion H. right. split; [reflexivity|].
      eexists; repeat split; discriminate.
    + destruct (Z.geb_spec (hl - pt) 750) as [Hge|Hlt].
      * destruct (query_model fuel api (S n) query (hl - pt)) as [t'|] eqn:E;
          [|discriminate].
        intros H; inversion H. left.
        exists e, hl, pt, t'.
        split; [reflexivity|]. split; [exact El|]. split; [lia|].
        split; [exact E|reflexivity].
      * intros H; inversion H. right.
        split; [apply Z.ltb_lt; exact Hlt|].
        eexists; repeat split; discriminate.
    + intros H; inversion H. right. split; [reflexivity|].
      eexists; repeat split; discriminate.
  - intros H; inversion H. right. split; [reflexivity|].
    eexists; repeat split; discriminate.
  - intros H; inversion H. right. split; [reflexivity|].
    eexists; repeat split; discriminate.
Qed.

(** X1: along one call of [query_model], retries included, the callback
    is handed a reply at most once; when it is, that is the last thing
    the call does, and the reply is the one the endpoint gave to the last
    request. *)
Theorem query_model_delivers_at_most_once :
  forall (fuel : nat) (api : nat -> api_outcome) (n : nat) (query : str)
         (max_tokens : Z) (t : list query_event),
    query_model fuel api n query max_tokens = Some t ->
    deliveries t = []
    \/ exists c,
         deliveries t = [c]
         /\ last t (Sent (chat_request query)) = ExecuteSync c
         /\ api (n + length (requests_of t) - 1) = Reply c.
Proof.
  induction fuel as [|fuel IH]; intros api n query max_tokens t H;
    [discriminate|].
  destruct (query_model_unfold _ _ _ _ _ H)
    as [[e [hl [pt [t' [Ha [Hl [Hge [Hrec ->]]]]]]]]
       | [_ [ev [-> [Hrq [Hbg Hev]]]]]].
  - destruct (IH _ _ _ _ _ Hrec) as [Hd | [c [Hd [Hlast Hapi]]]].
    + left. exact Hd.
    + right. exists c. split; [exact Hd|]. split.
      * destruct t' as [|x t']; [discriminate|]. exact Hlast.
      * rewrite requests_of_retry. cbn [length].
        destruct (requests_of t') as [|r rs] eqn:E.
        -- exfalso. clear - E Hrec.
           destruct fuel; [discriminate|]. cbn [query_model] in Hrec.
           destruct (api (S n)); try (inversion Hrec; subst; discriminate).
           destruct (context_limits text);
             try (inversion Hrec; subst; discriminate).
           destruct (_ >=? _)%Z; [|inversion Hrec; subst; discriminate].
           destruct (query_model fuel api (S (S n)) query _);
             inversion Hrec; subst; discriminate.
        -- cbn [length] in Hapi |- *.
           replace (n + S (S (length rs)) - 1) with (S n + S (length rs) - 1)
             by lia.
           exact Hapi.
  - destruct (api n) as [c|e|e|e] eqn:Ea.
    + right. exists c. subst ev. cbn. repeat split.
      replace (n + 1 - 1) with n by lia. exact Ea.
    + left. destruct ev; try reflexivity. exfalso. apply (Hev response eq_refl).
    + left. destruct ev; try reflexivity. exfalso. apply (Hev response eq_refl).
    + left. destruct ev; try reflexivity. exfalso. apply (Hev response eq_refl).
Qed.

Lemma query_model_delivers_at_most_once_witness :
  deliveries [Sent (chat_request (py "q")); ExecuteSync (py "ok")] = []
  \/ exists c,
       deliveries [Sent (chat_request (py "q")); ExecuteSync (py "ok")] = [c]
       /\ last [Sent (chat_request (py "q")); ExecuteSync (py "ok")]
               (Sent (chat_request (py "q"))) = ExecuteSync c
       /\ (fun _ : nat => Reply (py "ok"))
            (0 + length (requests_of [Sent (chat_request (py "q"));
                                      ExecuteSync (py "ok")]) - 1)
          = Reply c.
Proof.
  apply (@query_model_delivers_at_most_once 1 (fun _ => Reply (py "ok")) 0
           (py "q") default_max_tokens).
  reflexivity.
Defined.

(** X2: a finished call has sent one request more than it announced
    budgets, never more requests than its depth allows, and every budget
    it announced is at least 750. *)
Theorem query_model_requests_and_budgets :
  forall (fuel : nat) (api : nat -> api_outcome) (n : nat) (query : str)
         (max_tokens : Z) (t : list query_event),
    query_model fuel api n query max_tokens = Some t ->
    length (requests_of t) = S (length (budgets_of t))
    /\ length (requests_of t) <= fuel
    /\ Forall (fun b => (750 <= b)%Z) (budgets_of t).
Proof.
  induction fuel as [|fuel IH]; intros api n query max_tokens t H;
    [discriminate|].
  destruct (query_model_unfold _ _ _ _ _ H)
    as [[e [hl [pt [t' [Ha [Hl [Hge [Hrec ->]]]]]]]]
       | [_ [ev [-> [Hrq [Hbg Hev]]]]]].
  - destruct (IH _ _ _ _ _ Hrec) as [H1 [H2 H3]].
    cbn [requests_of budgets_of length]. repeat split.
    + rewrite H1. reflexivity.
    + lia.
    + constructor; assumption.
  - assert (Hb : budgets_of [Sent (chat_request query); ev] = []
                 /\ requests_of [Sent (chat_request query); ev]
                    = [chat_request query]).
    { split.
      - exact Hbg.
      - change (requests_of [Sent (chat_request query); ev])
          with (chat_request query :: requests_of [ev]).
        rewrite Hrq. reflexivity. }
    destruct Hb as [Hb Hr]. rewrite Hb, Hr. cbn [length].
    repeat split; [lia|constructor].
Qed.

Lemma query_model_requests_and_budgets_witness :
  let e := context_error (py "4097") (py "4500") (py "2000") (py "2500") in
  let t := [Sent (chat_request (py "q")); Printed (MsgContextExceeded 2097);
            Sent (chat_request (py "q")); ExecuteSync (py "ok")] in
  length (requests_of t) = S (length (budgets_of t))
  /\ length (requests_of t) <= 2
  /\ Forall (fun b => (750 <= b)%Z) (budgets_of t).
Proof.
  apply (@query_model_requests_and_budgets 2
           (refuse_once
              (context_error (py "4097") (py "4500") (py "2000") (py "2500")))
           0 (py "q") default_max_tokens).
  vm_compute. reflexivity.
Defined.

(** X3: as soon as the endpoint gives an outcome that ends the chain (a
    reply, any error but "context length exceeded", or such an error with
    a budget below 750), the call finishes: with [d] retries before that
    outcome, a depth of [d + 1] is enough, and [d + 1] requests are
    sent. *)
Theorem query_model_finishes :
  forall (d : nat) (api : nat -> api_outcome) (n : nat) (query : str)
         (max_tokens : Z),
    ends_chain (api (n + d)) = true ->
    exists t,
      query_model (S d) api n query max_tokens = Some t
      /\ length (requests_of t) <= S d.
Proof.
  induction d as [|d IH]; intros api n query max_tokens Hend.
  - rewrite Nat.add_0_r in Hend. cbn [query_model]. unfold ends_chain in Hend.
    destruct (api n) as [c|e|e|e]; try (eexists; split; [reflexivity|cbn; lia]).
    destruct (context_limits e) as [|hl pt|dg];
      try (eexists; split; [reflexivity|cbn; lia]).
    replace (hl - pt >=? 750)%Z with false
      by (symmetry; rewrite Z.geb_leb; apply Z.leb_gt; apply Z.ltb_lt; exact Hend).
    eexists; split; [reflexivity|cbn; lia].
  - replace (n + S d) with (S n + d) in Hend by lia.
    change (query_model (S (S d)) api n query max_tokens)
      with (match api n with
            | Reply content =>
                Some [Sent (chat_request query); ExecuteSync content]
            | InvalidRequest e =>
                match context_limits e with
                | NoLimits =>
                    Some [Sent (chat_request query);
                          Printed (MsgCouldNotComplete e)]
                | LimitsTooLong digits =>
                    Some [Sent (chat_request query);
                          Uncaught (IntValueError digits)]
                | Limits hard_limit prompt_tokens =>
                    if (hard_limit - prompt_tokens >=? 750)%Z then
                      match query_model (S d) api (S n) query
                              (hard_limit - prompt_tokens) with
                      | Some t =>
                          Some (Sent (chat_request query)
                                :: Printed (MsgContextExceeded
                                              (hard_limit - prompt_tokens))
                                :: t)
                      | None => None
                      end
                    else Some [Sent (chat_request query); Printed MsgTooBig]
                end
            | OpenAIError e =>
                Some [Sent (chat_request query);
                      Printed (MsgCouldNotComplete e)]
            | OtherException e =>
                Some [Sent (chat_request query);
                      Printed (MsgGeneralException e)]
            end).
    destruct (api n) as [c|e|e|e]; try (eexists; split; [reflexivity|cbn; lia]).
    destruct (context_limits e) as [|hl pt|dg];
      try (eexists; split; [reflexivity|cbn; lia]).
    destruct (hl - pt >=? 750)%Z; [|eexists; split; [reflexivity|cbn; lia]].
    destruct (IH api (S n) query (hl - pt)%Z Hend) as [t [Ht Hlen]].
    rewrite Ht. eexists; split; [reflexivity|].
    rewrite requests_of_retry. cbn [length]. lia.
Qed.

Lemma query_model_finishes_witness :
  exists t,
    query_model 2
      (refuse_once
         (context_error (py "4097") (py "4500") (py "2000") (py "2500")))
      0 (py "q") default_max_tokens = Some t
    /\ length (requests_of t) <= 2.
Proof.
  apply (@query_model_finishes 1
           (refuse_once
              (context_error (py "4097") (py "4500") (py "2000") (py "2500")))
           0 (py "q") default_max_tokens).
  vm_compute. reflexivity.
Defined.


(** A pattern that begins with a literal fails wherever the text does
    not go on with that literal. *)
Lemma attempt_lit_miss (p : str) (r : regex) (ma : bool) pos prev rest caps :
  starts_with p rest = false ->
  attempt (Cat (lit p) r) ma (Cursor pos prev rest caps) = None.
Proof.
  intros H. unfold attempt. rewrite exec_Cat, exec_lit. cbn [c_rest].
  rewrite H. reflexivity.
Qed.

Lemma search_lit_absent (p : str) (r : regex) :
  forall (rest : str) pos prev,
    find_index p rest = None ->
    search_loop (Cat (lit p) r) pos prev rest = None.
Proof.
  induction rest as [|c rest IH]; intros pos prev Hf.
  - apply find_index_nil_None in Hf. cbn [search_loop].
    rewrite attempt_lit_miss by exact Hf. reflexivity.
  - apply find_index_cons_None in Hf. destruct Hf as [Hs Hf].
    cbn [search_loop]. rewrite attempt_lit_miss by exact Hs.
    apply IH. exact Hf.
Qed.

(** X4: an error of the endpoint is reported after the one request that
    caused it, and nothing is retried, when it is an invalid-request
    error whose text does not hold the words "maximum context length is ",
    or any other error of the library, or any other exception. *)
Theorem query_model_reports_other_errors :
  forall (fuel : nat) (api : nat -> api_outcome) (n : nat) (query : str)
         (max_tokens : Z) (e : str),
    (api n = InvalidRequest e
     /\ find_index (py "maximum context length is ") e = None
     \/ api n = OpenAIError e ->
     query_model (S fuel) api n query max_tokens
     = Some [Sent (chat_request query); Printed (MsgCouldNotComplete e)])
    /\ (api n = OtherException e ->
        query_model (S fuel) api n query max_tokens
        = Some [Sent (chat_request query); Printed (MsgGeneralException e)]).
Proof.
  intros fuel api n query max_tokens e. split.
  - intros [[Ha Hf] | Ha]; cbn [query_model]; rewrite Ha; [|reflexivity].
    unfold context_limits, re_search, context_length_re.
    rewrite search_lit_absent by exact Hf. reflexivity.
  - intros Ha. cbn [query_model]. rewrite Ha. reflexivity.
Qed.

Lemma query_model_reports_other_errors_witness :
  query_model 1 (fun _ => InvalidRequest (py "Invalid API key")) 0 (py "q")
    default_max_tokens
  = Some [Sent (chat_request (py "q"));
          Printed (MsgCouldNotComplete (py "Invalid API key"))].
Proof.
  apply (proj1 (@query_model_reports_other_errors 0
                  (fun _ => InvalidRequest (py "Invalid API key")) 0 (py "q")
                  default_max_tokens (py "Invalid API key"))).
  left. split; [reflexivity|vm_compute; reflexivity].
Defined.

(* --------------------------------------------------------------------- *)
(** ** Reading the numbers of a "context length exceeded" text *)

Lemma prev_after_app (p q : str) (prev : option ascii) :
  prev_after (p ++ q) prev = prev_after q (prev_after p prev).
Proof. unfold prev_after. apply fold_left_app. Qed.

Lemma consume_exact (p : str) :
  forall pos prev tail caps,
    consume p (Cursor pos prev (p ++ tail) caps)
    = Cursor (pos + length p) (prev_after p prev) tail caps.
Proof.
  induction p as [|c p IH]; intros pos prev tail caps.
  - simpl. rewrite Nat.add_0_r. reflexivity.
  - cbn [app consume c_rest]. unfold advance. cbn [c_pos c_caps].
    rewrite IH. f_equal. simpl. lia.
Qed.

(** A literal read where the text goes on with it. *)
Lemma exec_lit_app (p tail : str) pos prev caps k :
  exec (lit p) (Cursor pos prev (p ++ tail) caps) k
  = k (Cursor (pos + length p) (prev_after p prev) tail caps).
Proof.
  rewrite exec_lit. cbn [c_rest]. rewrite starts_with_app, consume_exact.
  reflexivity.
Qed.

(** A greedy run takes every character of the class when what follows
    matches from there. *)
Lemma rep_greedy_run (p : ascii -> bool) (k : cursor -> option cursor)
    (rest : str) (r : cursor) :
  stops p rest ->
  forall (ds : str) pos prev caps,
    forallb p ds = true ->
    k (Cursor (pos + length ds) (prev_after ds prev) rest caps) = Some r ->
    rep_greedy k p (ds ++ rest) (Cursor pos prev (ds ++ rest) caps) = Some r.
Proof.
  intros Hstop. induction ds as [|c ds IH]; intros pos prev caps Hds Hk.
  - cbn [app length prev_after fold_left] in *. rewrite Nat.add_0_r in Hk.
    destruct rest as [|x rest]; cbn [rep_greedy]; [exact Hk|].
    simpl in Hstop. rewrite Hstop. exact Hk.
  - cbn [forallb] in Hds. apply andb_prop in Hds. destruct Hds as [Hc Hds].
    cbn [app rep_greedy]. rewrite Hc. unfold advance. cbn [c_pos c_caps].
    rewrite (IH (S pos) (Some c) caps Hds).
    + reflexivity.
    + rewrite <- Hk. f_equal. f_equal. simpl. lia.
Qed.

Lemma exec_plus_run (p : ascii -> bool) (k : cursor -> option cursor)
    (ds rest : str) (r : cursor) pos prev caps :
  stops p rest ->
  ds <> [] ->
  forallb p ds = true ->
  k (Cursor (pos + length ds) (prev_after ds prev) rest caps) = Some r ->
  exec (plus p) (Cursor pos prev (ds ++ rest) caps) k = Some r.
Proof.
  intros Hstop Hne Hds Hk. destruct ds as [|c ds]; [contradiction|].
  cbn [forallb] in Hds. apply andb_prop in Hds. destruct Hds as [Hc Hds].
  unfold plus. rewrite exec_Cat. cbn [app exec c_rest]. rewrite Hc.
  unfold advance. cbn [c_pos c_caps c_rest].
  apply rep_greedy_run; [exact Hstop|exact Hds|].
  rewrite <- Hk. f_equal. f_equal. simpl. lia.
Qed.

Lemma exec_Grp (r : regex) (cur : cursor) (k : cursor -> option cursor) :
  exec (Grp r) cur k
  = exec r cur (fun cur' =>
      k (Cursor (c_pos cur') (c_prev cur') (c_rest cur')
                (c_caps cur' ++ [(c_pos cur, c_pos cur')]))).
Proof. reflexivity. Qed.

Lemma is_digits_spec (s : str) :
  is_digits s = true -> s <> [] /\ forallb is_decimal s = true.
Proof.
  destruct s as [|c s]; [discriminate|]. intros H. split; [discriminate|exact H].
Qed.

(** The match of the pattern of lines 389-390 on the words of the
    endpoint. *)
Lemma attempt_context_error (limit requested prompt tail : str) pos prev :
  is_digits limit = true ->
  is_digits requested = true ->
  is_digits prompt = true ->
  attempt context_length_re false
    (Cursor pos prev
       (py "maximum context length is " ++ limit
        ++ py " tokens, however you requested " ++ requested
        ++ py " tokens (" ++ prompt ++ py " in your prompt;" ++ tail) [])
  = Some (Cursor (pos + 26 + length limit + 31 + length requested + 9
                  + length prompt + 16)
                 (Some ";") tail
                 [(pos + 26, pos + 26 + length limit);
                  (pos + 26 + length limit + 31 + length requested + 9,
                   pos + 26 + length limit + 31 + length requested + 9
                   + length prompt)]).
Proof.
  intros Hl Hr Hp.
  destruct (is_digits_spec _ Hl) as [Hl0 Hl1].
  destruct (is_digits_spec _ Hr) as [Hr0 Hr1].
  destruct (is_digits_spec _ Hp) as [Hp0 Hp1].
  unfold attempt, context_length_re.
  rewrite exec_Cat, exec_lit_app.
  rewrite exec_Cat, exec_Grp.
  apply exec_plus_run; [reflexivity|exact Hl0|exact Hl1|].
  cbn [c_pos c_prev c_rest c_caps].
  rewrite exec_Cat, exec_lit_app.
  rewrite exec_Cat.
  apply exec_plus_run; [reflexivity|exact Hr0|exact Hr1|].
  rewrite exec_Cat, exec_lit_app.
  rewrite exec_Cat, exec_Grp.
  apply exec_plus_run; [reflexivity|exact Hp0|exact Hp1|].
  cbn [c_pos c_prev c_rest c_caps].
  rewrite exec_lit_app.
  cbn [andb c_pos].
  change (length (py "maximum context length is ")) with 26.
  change (length (py " tokens, however you requested ")) with 31.
  change (length (py " tokens (")) with 9.
  change (length (py " in your prompt;")) with 16.
  reflexivity.
Qed.


(** The search passes over what precedes the first occurrence of the
    literal a pattern begins with. *)
Lemma search_lit_first (p : str) (r : regex) (text : str) (found : cursor) :
  forall (junk : str) pos prev,
    find_index p (junk ++ text) = Some (length junk) ->
    (forall prev',
        attempt (Cat (lit p) r) false (Cursor (pos + length junk) prev' text [])
        = Some found) ->
    search_loop (Cat (lit p) r) pos prev (junk ++ text)
    = Some (Match (pos + length junk) (c_pos found) (c_caps found)).
Proof.
  induction junk as [|c junk IH]; intros pos prev Hf Ha.
  - cbn [app length] in *. rewrite Nat.add_0_r in *.
    destruct text as [|x text]; cbn [search_loop]; rewrite Ha; reflexivity.
  - cbn [app length] in Hf. apply find_index_cons_Some in Hf.
    destruct Hf as [Hs Hf].
    cbn [app search_loop]. rewrite attempt_lit_miss by exact Hs.
    rewrite (IH (S pos) (Some c) Hf).
    + f_equal. f_equal. cbn [length]. lia.
    + intros prev'. rewrite <- (Ha prev'). f_equal. f_equal. cbn [length]. lia.
Qed.

Lemma span_after (pre mid post : str) (a b : nat) :
  a = length pre -> b = length pre + length mid ->
  span (pre ++ mid ++ post) a b = mid.
Proof. intros -> ->. apply span_middle. Qed.

(** X5: in an error text in which the words "maximum context length is "
    first occur right before a run of digits and the text goes on as the
    endpoint words it, the hard limit and the number of prompt tokens
    that [query_model] reads are the values of the first and of the third
    run of digits; the second run, the number of requested tokens, plays
    no part. *)
Theorem context_limits_reads_numbers :
  forall (before limit requested prompt after : str),
    let text :=
      before ++ py "maximum context length is " ++ limit
      ++ py " tokens, however you requested " ++ requested
      ++ py " tokens (" ++ prompt ++ py " in your prompt;" ++ after in
    find_index (py "maximum context length is ") text = Some (length before) ->
    is_digits limit = true ->
    is_digits requested = true ->
    is_digits prompt = true ->
    length limit <= max_str_digits ->
    length prompt <= max_str_digits ->
    context_limits text = Limits (py_int limit) (py_int prompt).
Proof.
  intros before limit requested prompt after text Hf Hl Hr Hp Hll Hlp.
  unfold context_limits, re_search.
  unfold text at 1. unfold context_length_re at 1.
  rewrite (@search_lit_first _ _ _
             (Cursor (0 + length before + 26 + length limit + 31
                      + length requested + 9 + length prompt + 16)
                     (Some ";") after
                     [(0 + length before + 26,
                       0 + length before + 26 + length limit);
                      (0 + length before + 26 + length limit + 31
                       + length requested + 9,
                       0 + length before + 26 + length limit + 31
                       + length requested + 9 + length prompt)])).
  - unfold group. cbn [m_groups nth_error Nat.sub c_caps].
    assert (G1 : span text (0 + length before + 26)
                   (0 + length before + 26 + length limit) = limit).
    { unfold text.
      rewrite (app_assoc before (py "maximum context length is ")).
      apply span_after; rewrite length_app;
        change (length (py "maximum context length is ")) with 26; lia. }
    assert (G2 : span text
                   (0 + length before + 26 + length limit + 31
                    + length requested + 9)
                   (0 + length before + 26 + length limit + 31
                    + length requested + 9 + length prompt) = prompt).
    { unfold text.
      replace (before ++ py "maximum context length is " ++ limit
               ++ py " tokens, however you requested " ++ requested
               ++ py " tokens (" ++ prompt ++ py " in your prompt;" ++ after)
        with ((before ++ py "maximum context length is " ++ limit
               ++ py " tokens, however you requested " ++ requested
               ++ py " tokens (") ++ prompt ++ py " in your prompt;" ++ after)
        by (rewrite <- !app_assoc; reflexivity).
      apply span_after; rewrite !length_app;
        change (length (py "maximum context length is ")) with 26;
        change (length (py " tokens, however you requested ")) with 31;
        change (length (py " tokens (")) with 9; lia. }
    rewrite G1, G2. unfold int_of_digits.
    replace (length limit <=? max_str_digits)%nat with true
      by (symmetry; apply Nat.leb_le; exact Hll).
    replace (length prompt <=? max_str_digits)%nat with true
      by (symmetry; apply Nat.leb_le; exact Hlp).
    reflexivity.
  - exact Hf.
  - intros prev'. apply attempt_context_error; assumption.
Qed.

Lemma context_limits_reads_numbers_witness :
  context_limits
    (py "This model's " ++ py "maximum context length is " ++ py "4097"
     ++ py " tokens, however you requested " ++ py "4500"
     ++ py " tokens (" ++ py "2000" ++ py " in your prompt;"
     ++ py " 2500 for the completion). Please reduce your prompt.")
  = Limits (py_int (py "4097")) (py_int (py "2000")).
Proof.
  apply (@context_limits_reads_numbers (py "This model's ") (py "4097")
           (py "4500") (py "2000")
           (py " 2500 for the completion). Please reduce your prompt."));
    try (vm_compute; reflexivity); apply Nat.leb_le; vm_compute; reflexivity.
Defined.

(* ===================================================================== *)
(** * Further properties of the extraction *)
(* ===================================================================== *)

(** A text either holds no closing brace or splits at its first one. *)
Lemma first_close (s : str) :
  forallb not_close s = true
  \/ exists body post,
       s = body ++ "}" :: post /\ forallb not_close body = true.
Proof.
  induction s as [|c s IH].
  - left. reflexivity.
  - destruct (not_close c) eqn:Hc.
    + destruct IH as [IH | [body [post [-> Hb]]]].
      * left. cbn [forallb]. rewrite Hc, IH. reflexivity.
      * right. exists (c :: body), post. split; [reflexivity|].
        cbn [forallb]. rewrite Hc, Hb. reflexivity.
    + right. exists [], s. split; [|reflexivity].
      unfold not_close in Hc. apply negb_false_iff in Hc.
      apply Ascii.eqb_eq in Hc. subst c. reflexivity.
Qed.

(** Every text is of one of two shapes: no opening brace is followed by
    a closing one, or there is a first opening brace and a first closing
    brace after it. *)
Lemma braces_shape (s : str) :
  (exists pre rest,
      s = pre ++ rest
      /\ forallb not_open pre = true /\ forallb not_close rest = true)
  \/ (exists pre body post,
         s = pre ++ "{" :: body ++ "}" :: post
         /\ forallb not_open pre = true /\ forallb not_close body = true).
Proof.
  induction s as [|c s IH].
  - left. exists [], []. repeat split.
  - destruct (not_open c) eqn:Hc.
    + destruct IH as [[pre [rest [-> [Hp Hr]]]]
                     | [pre [body [post [-> [Hp Hb]]]]]].
      * left. exists (c :: pre), rest. split; [reflexivity|].
        cbn [forallb]. rewrite Hc, Hp. split; [reflexivity|exact Hr].
      * right. exists (c :: pre), body, post. split; [reflexivity|].
        cbn [forallb]. rewrite Hc, Hp. split; [reflexivity|exact Hb].
    + unfold not_open in Hc. apply negb_false_iff in Hc.
      apply Ascii.eqb_eq in Hc. subst c.
      destruct (first_close s) as [Hs | [body [post [-> Hb]]]].
      * left. exists [], ("{" :: s). split; [reflexivity|].
        split; [reflexivity|]. cbn [forallb]. rewrite Hs. reflexivity.
      * right. exists [], body, post. repeat split. exact Hb.
Qed.

(** Without a closing brace ahead the pattern is found nowhere. *)
Lemma search_braces_unclosed (rest : str) :
  forallb not_close rest = true ->
  forall pos prev, search_loop braces_re pos prev rest = None.
Proof.
  induction rest as [|c rest IH]; intros H pos prev.
  - reflexivity.
  - cbn [forallb] in H. apply andb_prop in H. destruct H as [Hc H].
    cbn [search_loop].
    replace (attempt braces_re false (Cursor pos prev (c :: rest) []))
      with (@None cursor).
    + apply IH. exact H.
    + symmetry. unfold attempt, braces_re. rewrite exec_Cat.
      cbn [exec c_rest]. destruct (Ascii.eqb c "{"); [|reflexivity].
      unfold advance. cbn [c_pos c_caps c_rest].
      apply (@rep_lazy_no_close _ rest H).
Qed.

Lemma search_braces_open_unclosed (pre rest : str) :
  forallb not_open pre = true ->
  forallb not_close rest = true ->
  forall pos prev, search_loop braces_re pos prev (pre ++ rest) = None.
Proof.
  induction pre as [|c pre IH]; intros Hp Hr pos prev.
  - apply search_braces_unclosed. exact Hr.
  - cbn [forallb] in Hp. apply andb_prop in Hp. destruct Hp as [Hc Hp].
    cbn [app search_loop]. rewrite attempt_braces_not_open by exact Hc.
    apply IH; assumption.
Qed.

(** What the decoder makes of the members of an object is an object. *)
Lemma scan_members_object (fuel : nat) :
  forall (s : str) (acc : dict) (v : json) (rest : str),
    scan_members fuel s acc = Scanned v rest -> exists members, v = JObj members.
Proof.
  induction fuel as [|fuel IH]; intros s acc v rest; [discriminate|].
  cbn [scan_members].
  destruct (scan_string s []) as [key r0| |]; try discriminate.
  destruct (skip_ws r0) as [|c r1]; try discriminate.
  destruct (Ascii.eqb c ":"); try discriminate.
  destruct (scan_value fuel (skip_ws r1)) as [x r2| |]; try discriminate.
  destruct (skip_ws r2) as [|d r3]; try discriminate.
  destruct (Ascii.eqb d "}").
  - intros H. inversion H. eexists. reflexivity.
  - destruct (Ascii.eqb d ","); try discriminate.
    destruct (skip_ws r3) as [|q r4]; try discriminate.
    destruct (Ascii.eqb q quote); try discriminate.
    apply IH.
Qed.

(** A text that begins with an opening brace is decoded to an object, if
    it is decoded at all. *)
Lemma json_loads_object (s : str) (v : json) :
  json_loads ("{" :: s) = Loaded v -> exists members, v = JObj members.
Proof.
  unfold json_loads.
  change (skip_ws ("{" :: s)) with ("{" :: s).
  cbn [length Nat.mul Nat.add scan_value].
  change (Ascii.eqb "{" quote) with false.
  change (Ascii.eqb "{" "{") with true. cbv iota.
  destruct (skip_ws s) as [|x r]; [discriminate|].
  destruct (Ascii.eqb x "}").
  - destruct (skip_ws r); [|discriminate].
    intros H. inversion H. eexists. reflexivity.
  - destruct (Ascii.eqb x quote); [|discriminate].
    destruct (scan_members _ r []) as [w r'| |] eqn:E; try discriminate.
    destruct (skip_ws r'); [|discriminate].
    intros H. inversion H. subst w.
    exact (scan_members_object _ _ _ E).
Qed.

(** The piece handed to the decoder on a text with a first pair of
    braces. *)
Lemma group0_braces (pre body post : str) :
  group0 (pre ++ "{" :: body ++ "}" :: post)
    (Match (0 + length pre) (0 + length pre + length body + 2) [])
  = "{" :: body ++ ["}"].
Proof.
  unfold group0. cbn [m_start m_end].
  replace (pre ++ "{" :: body ++ "}" :: post)
    with (pre ++ ("{" :: body ++ ["}"]) ++ post)
    by (simpl; rewrite <- app_assoc; reflexivity).
  replace (0 + length pre + length body + 2)
    with (length pre + length ("{" :: body ++ ["}"]))
    by (simpl; rewrite length_app; simpl; lia).
  apply span_middle.
Qed.

(** X6: whatever the reply is, a document that [extract_json_or_retry]
    returns is a JSON object (a [dict]), never a list, a text or a
    number; it is the decoding of the piece of the reply that runs from
    its first opening brace to the first closing brace after it; and it
    is returned without anything being printed or sent. *)
Theorem extract_json_returns_flat_object :
  forall (response : str) (retries : Z) (bind : Z -> continuation)
         (v : json) (effects : list effect),
    extract_json_or_retry response retries bind = Some (Some v, effects) ->
    exists (pre body post : str) (members : dict),
      response = pre ++ "{" :: body ++ "}" :: post
      /\ forallb not_open pre = true
      /\ forallb not_close body = true
      /\ json_loads ("{" :: body ++ ["}"]) = Loaded (JObj members)
      /\ v = JObj members
      /\ effects = [].
Proof.
  intros response retries bind v effects H.
  pose proof (extract_json_data _ _ _ H) as He.
  destruct (braces_shape response)
    as [[pre [rest [-> [Hp Hr]]]] | [pre [body [post [-> [Hp Hb]]]]]].
  - exfalso. revert H. unfold extract_json_or_retry, re_search.
    rewrite search_braces_open_unclosed by assumption.
    destruct (retries >=? retry_limit)%Z; discriminate.
  - revert H. unfold extract_json_or_retry, re_search.
    rewrite search_braces by assumption. rewrite group0_braces.
    destruct (json_loads ("{" :: body ++ ["}"])) as [w| |] eqn:E.
    + intros H. inversion H. subst w.
      destruct (json_loads_object _ E) as [members ->].
      exists pre, body, post, members. repeat split; assumption.
    + destruct (retries >=? retry_limit)%Z; discriminate.
    + discriminate.
Qed.

Lemma extract_json_returns_flat_object_witness :
  exists (pre body post : str) (members : dict),
    py "Here you go: " ++ json_text "{'v1': 'count'}" ++ py " Anything else?"
      = pre ++ "{" :: body ++ "}" :: post
    /\ forallb not_open pre = true
    /\ forallb not_close body = true
    /\ json_loads ("{" :: body ++ ["}"]) = Loaded (JObj members)
    /\ JObj [(py "v1", JStr (py "count"))] = JObj members
    /\ @nil effect = [].
Proof.
  apply (@extract_json_returns_flat_object
           (py "Here you go: " ++ json_text "{'v1': 'count'}"
            ++ py " Anything else?")
           0 (Continuation RenameCallback 0 true)).
  vm_compute. reflexivity.
Defined.

(** X7: a reply in which no opening brace is followed by a closing one,
    as when the document was cut off before its end, is treated like a
    reply without any document: nothing is handed to the decoder, and
    below the cap the whole reply is sent back for repair. *)
Theorem extract_json_unclosed_brace :
  forall (pre rest : str) (retries : Z) (bind : Z -> continuation),
    forallb not_open pre = true ->
    forallb not_close rest = true ->
    re_search braces_re (pre ++ rest) = None
    /\ extract_json_or_retry (pre ++ rest) retries bind
       = if (retries >=? 3)%Z
         then Some (None, [Print MsgGivingUp; Print (MsgRaw (pre ++ rest))])
         else Some (None,
                    [Print MsgCannotExtract; Print MsgRequestSent;
                     Spawn (fix_response_prompt (pre ++ rest))
                           (bind (retries + 1)%Z)]).
Proof.
  intros pre rest retries bind Hp Hr.
  assert (H : re_search braces_re (pre ++ rest) = None)
    by (apply search_braces_open_unclosed; assumption).
  split; [exact H|].
  unfold extract_json_or_retry. rewrite H. reflexivity.
Qed.

Lemma extract_json_unclosed_brace_witness :
  re_search braces_re (py "Sure: " ++ json_text "{'v1': 'count', 'v2': 'to")
    = None
  /\ extract_json_or_retry
       (py "Sure: " ++ json_text "{'v1': 'count', 'v2': 'to") 1
       (Continuation RenameCallback 0 true)
     = Some (None,
             [Print MsgCannotExtract; Print MsgRequestSent;
              Spawn (fix_response_prompt
                       (py "Sure: " ++ json_text "{'v1': 'count', 'v2': 'to"))
                    (Continuation RenameCallback 0 true 2%Z)]).
Proof.
  apply (@extract_json_unclosed_brace (py "Sure: ")
           (json_text "{'v1': 'count', 'v2': 'to") 1
           (Continuation RenameCallback 0 true)).
  - vm_compute; reflexivity.
  - vm_compute; reflexivity.
Defined.

(** X19: when the piece between the first opening brace and the first
    closing brace after it is refused by the decoder, the repair query
    quotes that piece only: what the reply held before and after it is
    not sent back.  From the third retry on the callback gives up and
    prints the whole reply. *)
Theorem extract_json_malformed_piece :
  forall (pre body post : str) (retries : Z) (bind : Z -> continuation),
    forallb not_open pre = true ->
    forallb not_close body = true ->
    json_loads ("{" :: body ++ ["}"]) = JSONDecodeError ->
    extract_json_or_retry (pre ++ "{" :: body ++ "}" :: post) retries bind
    = if (retries >=? 3)%Z
      then Some (None,
                 [Print MsgGivingUp;
                  Print (MsgRaw (pre ++ "{" :: body ++ "}" :: post))])
      else Some (None,
                 [Print MsgInvalidJson; Print MsgRequestSent;
                  Spawn (fix_json_prompt ("{" :: body ++ ["}"]))
                        (bind (retries + 1)%Z)]).
Proof.
  intros pre body post retries bind Hp Hb Hj.
  unfold extract_json_or_retry, re_search.
  rewrite search_braces by assumption. rewrite group0_braces, Hj.
  reflexivity.
Qed.

Lemma extract_json_malformed_piece_witness :
  extract_json_or_retry
    (py "Here: " ++ "{" :: py "v1: count" ++ "}" :: py " Hope this helps.")
    0 (Continuation RenameCallback 0 true)
  = Some (None,
          [Print MsgInvalidJson; Print MsgRequestSent;
           Spawn (fix_json_prompt ("{" :: py "v1: count" ++ ["}"]))
                 (Continuation RenameCallback 0 true (0 + 1)%Z)]).
Proof.
  apply (@extract_json_malformed_piece (py "Here: ") (py "v1: count")
           (py " Hope this helps.") 0 (Continuation RenameCallback 0 true)).
  - vm_compute; reflexivity.
  - vm_compute; reflexivity.
  - vm_compute; reflexivity.
Defined.

(* ===================================================================== *)
(** * Further properties of the comment callback *)
(* ===================================================================== *)

Lemma find_index_here (p s : str) :
  starts_with p s = true -> find_index p s = Some 0.
Proof. intros H. destruct s; cbn [find_index]; rewrite H; reflexivity. Qed.

Lemma find_index_step (p : str) (c : ascii) (s : str) :
  starts_with p (c :: s) = false ->
  find_index p (c :: s) = option_map S (find_index p s).
Proof. intros H. cbn [find_index]. rewrite H. reflexivity. Qed.

Lemma starts_with_app_mono (p u w : str) :
  starts_with p u = true -> starts_with p (u ++ w) = true.
Proof.
  revert u. induction p as [|a p IH]; intros u H; [reflexivity|].
  destruct u as [|x u]; [discriminate|]. cbn [app starts_with] in *.
  apply andb_prop in H. destruct H as [Hx H]. rewrite Hx, IH by exact H.
  reflexivity.
Qed.

(** A text without an occurrence has none in its prefixes and in its
    suffixes. *)
Lemma find_index_None_prefix (p u w : str) :
  find_index p (u ++ w) = None -> find_index p u = None.
Proof.
  induction u as [|c u IH]; intros H.
  - cbn [app] in H. cbn [find_index].
    destruct (starts_with p []) eqn:E; [|reflexivity].
    destruct p; [|discriminate].
    destruct w; cbn [find_index starts_with] in H; discriminate.
  - cbn [app] in H. apply find_index_cons_None in H. destruct H as [Hs H].
    rewrite find_index_step.
    + rewrite IH by exact H. reflexivity.
    + destruct (starts_with p (c :: u)) eqn:E; [|reflexivity].
      apply (starts_with_app_mono _ _ w) in E. cbn [app] in E. congruence.
Qed.

Lemma find_index_None_lstrip (p s : str) :
  find_index p s = None -> find_index p (lstrip s) = None.
Proof.
  induction s as [|c s IH]; intros H; [exact H|].
  cbn [lstrip]. destruct (is_space c); [|exact H].
  apply find_index_cons_None in H. apply IH. tauto.
Qed.

Lemma lstrip_suffix (s : str) : exists w, s = w ++ lstrip s.
Proof.
  induction s as [|c s [w IH]].
  - exists []. reflexivity.
  - cbn [lstrip]. destruct (is_space c).
    + exists (c :: w). cbn [app]. rewrite <- IH. reflexivity.
    + exists []. reflexivity.
Qed.

Lemma rstrip_prefix (s : str) : exists w, s = rstrip s ++ w.
Proof.
  unfold rstrip. destruct (lstrip_suffix (rev s)) as [w H].
  exists (rev w). rewrite <- rev_app_distr, <- H, rev_involutive. reflexivity.
Qed.

Lemma find_index_None_strip (p s : str) :
  find_index p s = None -> find_index p (py_strip s) = None.
Proof.
  intros H. unfold py_strip. apply find_index_None_lstrip in H.
  destruct (rstrip_prefix (lstrip s)) as [w Hw]. rewrite Hw in H.
  apply find_index_None_prefix in H. exact H.
Qed.

(** Stripping twice is stripping once, and white space in front of a
    stripped text makes no difference. *)
Lemma lstrip_idem (s : str) : lstrip (lstrip s) = lstrip s.
Proof.
  induction s as [|c s IH]; [reflexivity|].
  cbn [lstrip]. destruct (is_space c) eqn:E; [exact IH|].
  cbn [lstrip]. rewrite E. reflexivity.
Qed.

Lemma lstrip_snoc (u : str) (c : ascii) :
  is_space c = false -> lstrip (u ++ [c]) = lstrip u ++ [c].
Proof.
  intros Hc. induction u as [|x u IH].
  - cbn [app lstrip]. rewrite Hc. reflexivity.
  - cbn [app lstrip]. destruct (is_space x); [exact IH|reflexivity].
Qed.

Lemma rstrip_cons (c : ascii) (t : str) :
  is_space c = false -> rstrip (c :: t) = c :: rstrip t.
Proof.
  intros Hc. unfold rstrip. cbn [rev]. rewrite lstrip_snoc by exact Hc.
  rewrite rev_app_distr. reflexivity.
Qed.

Lemma rstrip_idem (s : str) : rstrip (rstrip s) = rstrip s.
Proof. unfold rstrip. rewrite rev_involutive, lstrip_idem. reflexivity. Qed.

Lemma lstrip_rstrip_lstrip (s : str) :
  lstrip (rstrip (lstrip s)) = rstrip (lstrip s).
Proof.
  assert (G : forall t, lstrip t = t -> lstrip (rstrip t) = rstrip t).
  { intros t Ht. destruct t as [|c t]; [reflexivity|].
    cbn [lstrip] in Ht. destruct (is_space c) eqn:E.
    - exfalso. destruct (lstrip_suffix t) as [w Hw].
      apply (f_equal (@length ascii)) in Ht. rewrite Hw in Ht at 2.
      cbn [length] in Ht. rewrite length_app in Ht. lia.
    - rewrite rstrip_cons by exact E. cbn [lstrip]. rewrite E. reflexivity. }
  apply G. apply lstrip_idem.
Qed.

Lemma py_strip_idem (s : str) : py_strip (py_strip s) = py_strip s.
Proof.
  unfold py_strip. rewrite lstrip_rstrip_lstrip. apply rstrip_idem.
Qed.

Lemma py_strip_blank_line (s : str) :
  py_strip ([newline; newline] ++ py_strip s) = py_strip s.
Proof.
  unfold py_strip at 1. cbn [app lstrip].
  change (is_space newline) with true. cbv iota.
  fold (py_strip (py_strip s)). apply py_strip_idem.
Qed.

(** A pattern without a newline does not match across one. *)
Lemma starts_with_before_newline (p u v : str) :
  forallb dot p = true ->
  p <> [] ->
  starts_with p (u ++ newline :: v) = starts_with p u.
Proof.
  revert u. induction p as [|a p IH]; intros u Hp Hne; [contradiction|].
  cbn [forallb] in Hp. apply andb_prop in Hp. destruct Hp as [Ha Hp].
  destruct u as [|x u].
  - cbn [app starts_with]. unfold dot in Ha.
    destruct (Ascii.eqb a newline); [discriminate|reflexivity].
  - cbn [app starts_with]. destruct (Ascii.eqb a x); [|reflexivity].
    cbn [andb]. destruct p as [|b p]; [reflexivity|].
    apply IH; [exact Hp|discriminate].
Qed.

(** After a text that holds no line of dashes and ends a line, the first
    line of dashes is the one that follows. *)
Lemma find_index_dashes_after (u tail : str) :
  find_index dashes u = None ->
  find_index dashes (u ++ newline :: tail)
  = option_map (fun i => length u + 1 + i) (find_index dashes tail).
Proof.
  induction u as [|c u IH]; intros H.
  - cbn [app length]. rewrite find_index_step by reflexivity.
    destruct (find_index dashes tail); reflexivity.
  - apply find_index_cons_None in H. destruct H as [Hs H].
    cbn [app]. rewrite find_index_step.
    + rewrite IH by exact H. destruct (find_index dashes tail); reflexivity.
    + change (c :: u ++ newline :: tail) with ((c :: u) ++ newline :: tail).
      rewrite starts_with_before_newline; [exact Hs|reflexivity|discriminate].
Qed.

(** The lazy run before a literal fails when the literal does not come
    any more. *)
Lemma rep_lazy_absent (d : str) (k : cursor -> option cursor) :
  forall (rest : str) pos prev caps,
    find_index d rest = None ->
    rep_lazy (fun cur0 => exec (lit d) cur0 k) dot_all rest
      (Cursor pos prev rest caps) = None.
Proof.
  induction rest as [|c rest IH]; intros pos prev caps Hf.
  - apply find_index_nil_None in Hf.
    cbn [rep_lazy]. rewrite exec_lit. cbn [c_rest]. rewrite Hf. reflexivity.
  - apply find_index_cons_None in Hf. destruct Hf as [Hs Hf].
    cbn [rep_lazy]. rewrite exec_lit. cbn [c_rest]. rewrite Hs.
    cbn [dot_all]. unfold advance. cbn [c_pos c_caps].
    apply IH. exact Hf.
Qed.

(** A header that no run of dashes follows opens no block. *)
Lemma attempt_block_open (rest : str) pos prev :
  starts_with comment_header rest = true ->
  py_in dashes (skipn (length comment_header) rest) = false ->
  attempt generated_block_re false (Cursor pos prev rest []) = None.
Proof.
  intros E Hd. destruct (starts_with_split _ _ E) as [tail ->].
  rewrite skipn_app, skipn_all, Nat.sub_diag in Hd. cbn [skipn app] in Hd.
  unfold py_in in Hd.
  destruct (find_index dashes tail) as [i|] eqn:Hf; [discriminate|].
  unfold attempt, generated_block_re.
  rewrite exec_Cat, exec_lit_app, exec_Cat, exec_Rep_lazy. cbn [c_rest].
  apply rep_lazy_absent. exact Hf.
Qed.

(** The substitution of line 233 leaves a comment without a closed
    block as it is. *)
Lemma sub_block_none (s : str) :
  has_closed_block s = false ->
  forall pos prev, sub_loop generated_block_re [] 0 pos prev s = s.
Proof.
  induction s as [|c s IH]; intros H pos prev.
  - cbn [sub_loop]. rewrite attempt_block_miss by apply header_not_nil.
    reflexivity.
  - cbn [has_closed_block] in H. apply orb_false_iff in H.
    destruct H as [Hhere Hlater].
    assert (Ha : attempt generated_block_re false
                   (Cursor pos prev (c :: s) []) = None).
    { destruct (starts_with comment_header (c :: s)) eqn:E.
      - apply attempt_block_open; [exact E|]. exact Hhere.
      - apply attempt_block_miss. exact E. }
    cbn [sub_loop]. rewrite Ha, IH by exact Hlater. reflexivity.
Qed.

(** A comment holds a closed block exactly when the pattern of line
    233 is found in it. *)
Lemma has_closed_block_search (s : str) :
  has_closed_block s = false <-> re_search generated_block_re s = None.
Proof.
  unfold re_search. generalize 0. generalize (@None ascii).
  induction s as [|c s IH]; intros prev pos.
  - cbn [has_closed_block search_loop].
    rewrite attempt_block_miss by apply header_not_nil. tauto.
  - cbn [has_closed_block search_loop]. rewrite orb_false_iff.
    destruct (starts_with comment_header (c :: s)) eqn:E.
    + destruct (py_in dashes (skipn (length comment_header) (c :: s))) eqn:Hd.
      * destruct (starts_with_split _ _ E) as [tail Ht].
        rewrite Ht, skipn_app, skipn_all, Nat.sub_diag in Hd.
        cbn [skipn app] in Hd. unfold py_in in Hd.
        destruct (find_index dashes tail) as [j|] eqn:Hf; [|discriminate].
        destruct (@attempt_block_hit tail j pos prev Hf) as [cur' [Ha _]].
        rewrite Ht, Ha. split; [intros [H _]; discriminate H|discriminate].
      * rewrite attempt_block_open by assumption.
        rewrite <- (IH (Some c) (S pos)). cbn [andb]. tauto.
    + rewrite attempt_block_miss by exact E.
      rewrite <- (IH (Some c) (S pos)). cbn [andb]. tauto.
Qed.

Section CommentCallbackMore.

Variable lvar_table : Type.
Variable textwrap_wrap : str -> list str.

(** X8: on a function whose comment holds no closed generated block,
    that is no header that a run of 40 dashes follows further on (there
    may be headers, and there may be dashes before them), the pattern of
    line 233 is not found and the callback writes the new block, a blank line and the whole old comment with the
    white space at its two ends removed, so that an explanation whose
    closing line was lost stays under the new one; only the comment of
    that function is written; and the log gains the refresh of the view,
    when there is one, and the notice. *)
Theorem comment_callback_without_closed_block :
  forall (address : Z) (view : bool) (response : str) (s : ida lvar_table),
    has_closed_block (func_cmt s address) = false ->
    let s' := comment_callback textwrap_wrap address view response s in
    re_search generated_block_re (func_cmt s address) = None
    /\ func_cmt s' address
       = generated_block
           (py_strip (py_join [newline] (textwrap_wrap response)))
         ++ [newline; newline] ++ py_strip (func_cmt s address)
    /\ (forall a, a <> address -> func_cmt s' a = func_cmt s a)
    /\ user_cmts s' = user_cmts s
    /\ saved_cmts s' = saved_cmts s
    /\ lvars s' = lvars s
    /\ log s' = log s ++ (if view then [RefreshView false] else [])
                ++ [Print MsgExplainFinished].
Proof.
  intros address view response s Hf s'. subst s'.
  split; [apply has_closed_block_search; exact Hf|].
  unfold comment_callback, re_sub. rewrite sub_block_none by exact Hf.
  unfold generated_block, refresh.
  destruct view;
    cbn [emit func_cmt set_func_cmt user_cmts saved_cmts lvars log];
    rewrite Z.eqb_refl, <- !app_assoc;
    (split; [reflexivity|]);
    (split; [intros a Ha; apply Z.eqb_neq in Ha; rewrite Ha; reflexivity|]);
    repeat split.
Qed.

(** What the callback leaves as the comment of the function, in terms
    of the comment after the substitution of line 233. *)
Lemma comment_callback_func_cmt (address : Z) (view : bool) (response : str)
    (s : ida lvar_table) :
  func_cmt (comment_callback textwrap_wrap address view response s) address
  = generated_block (py_strip (py_join [newline] (textwrap_wrap response)))
    ++ [newline; newline]
    ++ py_strip (re_sub generated_block_re [] (func_cmt s address)).
Proof.
  unfold comment_callback, generated_block, refresh.
  destruct view; cbn [emit func_cmt set_func_cmt];
    rewrite Z.eqb_refl, <- !app_assoc; reflexivity.
Qed.

Lemma comment_callback_other (address : Z) (view : bool) (response : str)
    (s : ida lvar_table) (a : Z) :
  a <> address ->
  func_cmt (comment_callback textwrap_wrap address view response s) a
  = func_cmt s a.
Proof.
  intros Ha. apply Z.eqb_neq in Ha. unfold comment_callback, refresh.
  destruct view; cbn [emit func_cmt set_func_cmt]; rewrite Ha; reflexivity.
Qed.

(** X9: explaining a function a second time replaces the first
    explanation instead of adding to it.  When the comment held no
    generated block before and the first explanation holds no line of 40
    dashes, the comments after the two explanations are the comments
    after the second one alone. *)
Theorem comment_callback_replaces_own_block :
  forall (address : Z) (view1 view2 : bool) (first second : str)
         (s : ida lvar_table),
    find_index comment_header (func_cmt s address) = None ->
    find_index dashes
      (py_strip (py_join [newline] (textwrap_wrap first))) = None ->
    forall a,
      func_cmt
        (comment_callback textwrap_wrap address view2 second
           (comment_callback textwrap_wrap address view1 first s)) a
      = func_cmt (comment_callback textwrap_wrap address view2 second s) a.
Proof.
  intros address view1 view2 first second s Hh Hd a.
  destruct (Z.eq_dec a address) as [-> | Ha];
    [|rewrite !comment_callback_other by exact Ha; reflexivity].
  rewrite (comment_callback_func_cmt address view2 second
             (comment_callback textwrap_wrap address view1 first s)).
  rewrite (comment_callback_func_cmt address view2 second s).
  rewrite (comment_callback_func_cmt address view1 first s).
  unfold re_sub at 2. rewrite sub_block_copy by exact Hh.
  set (R := py_strip (py_join [newline] (textwrap_wrap first))) in *.
  set (old := py_strip (func_cmt s address)).
  unfold re_sub at 2. rewrite sub_block_copy by exact Hh. fold old.
  assert (Hsub : re_sub generated_block_re []
                   (generated_block R ++ [newline; newline] ++ old)
                 = [newline; newline] ++ old).
  { unfold generated_block.
    replace ((comment_header ++ [newline; newline] ++ R
              ++ [newline; newline] ++ dashes)
             ++ [newline; newline] ++ old)
      with ([] ++ comment_header ++ ([newline; newline] ++ R ++ [newline; newline])
            ++ dashes ++ [newline; newline] ++ old)
      by (cbn [app]; repeat (rewrite <- app_assoc; cbn [app]); reflexivity).
    apply (@sub_block_removed [] ([newline; newline] ++ R ++ [newline; newline])
             ([newline; newline] ++ old)).
    - cbn [app length]. apply find_index_here. apply starts_with_app.
    - rewrite <- !app_assoc. cbn [app].
      rewrite find_index_step by reflexivity.
      rewrite find_index_step by reflexivity.
      rewrite find_index_dashes_after by exact Hd.
      rewrite find_index_step by reflexivity.
      rewrite find_index_here by apply starts_with_app.
      cbn [option_map app length]. f_equal. rewrite ?length_app.
      cbn [length]. lia.
    - cbn [app]. rewrite find_index_step by reflexivity.
      rewrite find_index_step by reflexivity.
      unfold old. rewrite find_index_None_strip by exact Hh. reflexivity. }
  rewrite Hsub. unfold old. rewrite py_strip_blank_line. reflexivity.
Qed.

End CommentCallbackMore.

Lemma comment_callback_without_closed_block_witness :
  let s := sample_ida (dashes ++ [newline] ++ comment_header ++ [newline]
                       ++ py "Old text.") in
  let s' := comment_callback one_line 4096 true (py "Adds two numbers.") s in
  re_search generated_block_re (func_cmt s 4096) = None
  /\ func_cmt s' 4096
     = generated_block (py_strip (py_join [newline]
                                    (one_line (py "Adds two numbers."))))
       ++ [newline; newline] ++ py_strip (func_cmt s 4096)
  /\ (forall a, a <> 4096%Z -> func_cmt s' a = func_cmt s a)
  /\ user_cmts s' = user_cmts s
  /\ saved_cmts s' = saved_cmts s
  /\ lvars s' = lvars s
  /\ log s' = log s ++ [RefreshView false] ++ [Print MsgExplainFinished].
Proof.
  apply (@comment_callback_without_closed_block unit one_line 4096 true
           (py "Adds two numbers.")
           (sample_ida (dashes ++ [newline] ++ comment_header ++ [newline]
                        ++ py "Old text."))).
  vm_compute; reflexivity.
Defined.

Lemma comment_callback_replaces_own_block_witness :
  func_cmt
    (comment_callback one_line 4096 true (py "Adds two numbers.")
       (comment_callback one_line 4096 true (py "Adds numbers?")
          (sample_ida (py "checked by hand")))) 4096
  = func_cmt
      (comment_callback one_line 4096 true (py "Adds two numbers.")
         (sample_ida (py "checked by hand"))) 4096.
Proof.
  apply (@comment_callback_replaces_own_block unit one_line 4096 true true
           (py "Adds numbers?") (py "Adds two numbers.")
           (sample_ida (py "checked by hand"))).
  - vm_compute; reflexivity.
  - vm_compute; reflexivity.
Defined.

(* ===================================================================== *)
(** * Further properties of the shrinking *)
(* ===================================================================== *)

(** A pattern that needs a character is found before the end of the
    text. *)
Lemma search_start_lt (r : regex) :
  (forall pos prev, attempt r false (Cursor pos prev [] []) = None) ->
  forall (rest : str) pos prev m,
    search_loop r pos prev rest = Some m ->
    pos <= m_start m < pos + length rest.
Proof.
  intros Hr. induction rest as [|c rest IH]; intros pos prev m.
  - cbn [search_loop]. rewrite Hr. discriminate.
  - cbn [search_loop length].
    destruct (attempt r false (Cursor pos prev (c :: rest) [])) as [cur'|].
    + intros H. inversion H. cbn [m_start]. lia.
    + intros H. apply IH in H. lia.
Qed.

Lemma placeholder_needs_char pos prev :
  attempt placeholder_re false (Cursor pos prev [] []) = None.
Proof. reflexivity. Qed.

(** X15: a decompilation of at most [window + 1] characters is sent as
    it is, wherever its placeholders are: with the default window, every
    function of at most 321 characters. *)
Theorem shrink_decompilation_short_text_unchanged :
  forall (decompilation : str) (window : Z),
    (py_len decompilation - 1 <= window)%Z ->
    shrink_decompilation decompilation window = decompilation.
Proof.
  intros d window Hlen. unfold shrink_decompilation.
  destruct (re_search placeholder_re d) as [m|] eqn:E; [|reflexivity].
  apply (@search_start_lt placeholder_re placeholder_needs_char) in E.
  cbn [Nat.add] in E. unfold py_len in *.
  destruct (Z.of_nat (m_start m) >? 0)%Z; [|reflexivity].
  replace (Z.of_nat (m_start m) - window >? 0)%Z with false
    by (symmetry; rewrite Z.gtb_ltb; apply Z.ltb_ge; lia).
  cbv iota beta.
  match goal with
  | |- (if ?c then _ else _) = _ =>
      replace c with false; [reflexivity|]
  end.
  symmetry. apply Z.ltb_ge.
  destruct (re_search last_placeholder_re d); lia.
Qed.

Lemma shrink_decompilation_short_text_witness :
  shrink_decompilation short_function default_window = short_function.
Proof.
  apply (@shrink_decompilation_short_text_unchanged short_function
           default_window).
  vm_compute. intros H; discriminate H.
Defined.

(** The pattern of a placeholder matches where the text starts with
    one. *)
Lemma attempt_placeholder_hit (name rest : str) pos prev :
  forallb is_ident_char name = true ->
  attempt placeholder_re false
    (Cursor pos prev ("{" :: name ++ "}" :: rest) []) <> None.
Proof.
  intros Hn. unfold attempt, placeholder_re.
  rewrite exec_Grp, exec_Cat, exec_Chr_hit, exec_Cat, exec_Rep_greedy.
  cbn [c_rest].
  erewrite rep_greedy_run; [discriminate|reflexivity|exact Hn|].
  rewrite exec_Chr_hit. reflexivity.
Qed.

(** X16: a text that begins with a placeholder is returned as it is,
    however long it is: the test [start > 0] of line 173 takes a
    placeholder at offset 0 for no placeholder at all. *)
Theorem shrink_decompilation_leading_placeholder :
  forall (name rest : str) (window : Z),
    forallb is_ident_char name = true ->
    option_map m_start
      (re_search placeholder_re ("{" :: name ++ "}" :: rest)) = Some 0
    /\ shrink_decompilation ("{" :: name ++ "}" :: rest) window
       = "{" :: name ++ "}" :: rest.
Proof.
  intros name rest window Hn.
  assert (H : option_map m_start
                (re_search placeholder_re ("{" :: name ++ "}" :: rest))
              = Some 0).
  { unfold re_search. cbn [search_loop].
    pose proof (@attempt_placeholder_hit name rest 0 None Hn) as Ha.
    destruct (attempt placeholder_re false _) as [cur'|];
      [reflexivity|contradiction]. }
  split; [exact H|].
  unfold shrink_decompilation.
  destruct (re_search placeholder_re ("{" :: name ++ "}" :: rest)) as [m|];
    [|reflexivity].
  cbn [option_map] in H. inversion H as [H0]. rewrite H0. reflexivity.
Qed.

Lemma shrink_decompilation_leading_placeholder_witness :
  option_map m_start
    (re_search placeholder_re
       ("{" :: py "x" ++ "}" :: long_comment_line)) = Some 0
  /\ shrink_decompilation ("{" :: py "x" ++ "}" :: long_comment_line)
       default_window
     = "{" :: py "x" ++ "}" :: long_comment_line.
Proof.
  apply (@shrink_decompilation_leading_placeholder (py "x") long_comment_line
           default_window).
  reflexivity.
Defined.

Lemma find_index_occurrence (p a b : str) :
  exists i, find_index p (a ++ p ++ b) = Some i.
Proof.
  induction a as [|c a [i IH]].
  - exists 0. cbn [app]. apply find_index_here. apply starts_with_app.
  - cbn [app]. destruct (starts_with p (c :: a ++ p ++ b)) eqn:E.
    + exists 0. apply find_index_here. exact E.
    + exists (S i). rewrite find_index_step by exact E. rewrite IH. reflexivity.
Qed.

Lemma py_in_join_ellipsis (x y : str) :
  py_in ellipsis (py_join [newline] [x; ellipsis; y]) = true.
Proof.
  unfold py_in. cbn [py_join].
  replace (x ++ [newline] ++ ellipsis ++ [newline] ++ y)
    with ((x ++ [newline]) ++ ellipsis ++ [newline] ++ y)
    by (rewrite <- app_assoc; reflexivity).
  destruct (find_index_occurrence ellipsis (x ++ [newline]) ([newline] ++ y))
    as [i ->].
  reflexivity.
Qed.

(** X18: whatever [shrink_decompilation] removes, it marks: the text it
    returns is the decompilation itself, or it holds the line of the
    ellipsis. *)
Theorem shrink_decompilation_marks_cuts :
  forall (decompilation : str) (window : Z),
    shrink_decompilation decompilation window = decompilation
    \/ py_in ellipsis (shrink_decompilation decompilation window) = true.
Proof.
  intros d window. unfold shrink_decompilation.
  destruct (_ >? 0)%Z; [|left; reflexivity].
  destruct (_ - window >? 0)%Z; cbv iota beta zeta.
  - right. destruct (_ <? _)%Z; apply py_in_join_ellipsis.
  - destruct (_ <? _)%Z; [right; apply py_in_join_ellipsis|left; reflexivity].
Qed.

(* ===================================================================== *)
(** * Further properties of the inline-comment callback *)
(* ===================================================================== *)

Lemma treeloc_eqb_eq (a b : treeloc) : treeloc_eqb a b = true <-> a = b.
Proof.
  destruct a as [a1 a2], b as [b1 b2]. unfold treeloc_eqb. cbn [fst snd].
  rewrite andb_true_iff, !Z.eqb_eq. split.
  - intros [-> ->]. reflexivity.
  - intros H. inversion H. split; reflexivity.
Qed.

Lemma find_fresh (done todo : list (treeloc * str)) (k : treeloc) (t : str) :
  ~ In k (map fst done) ->
  find (fun kt => treeloc_eqb (fst kt) k) (done ++ (k, t) :: todo)
  = Some (k, t).
Proof.
  induction done as [|[k0 t0] done IH]; intros Hn.
  - cbn [app find fst].
    replace (treeloc_eqb k k) with true
      by (symmetry; apply treeloc_eqb_eq; reflexivity).
    reflexivity.
  - cbn [app find fst map] in *.
    destruct (treeloc_eqb k0 k) eqn:E.
    + apply treeloc_eqb_eq in E. exfalso. apply Hn. left. exact E.
    + apply IH. intros Hin. apply Hn. right. exact Hin.
Qed.

Lemma update_fresh (done todo : list (treeloc * str)) (k : treeloc)
    (t text : str) :
  ~ In k (map fst done) ->
  update_cmt (done ++ (k, t) :: todo) k text = done ++ (k, text) :: todo.
Proof.
  induction done as [|[k0 t0] done IH]; intros Hn.
  - cbn [app update_cmt].
    replace (treeloc_eqb k k) with true
      by (symmetry; apply treeloc_eqb_eq; reflexivity).
    reflexivity.
  - cbn [app update_cmt map fst] in *.
    destruct (treeloc_eqb k0 k) eqn:E.
    + apply treeloc_eqb_eq in E. exfalso. apply Hn. left. exact E.
    + rewrite IH; [reflexivity|]. intros Hin. apply Hn. right. exact Hin.
Qed.

Section FormatComments.

Variable lvar_table : Type.
Variable str_format : str -> list (option json) -> dict -> option str.
Variable args : list (option json).
Variable kwargs : dict.

(** The loop of lines 143-149 from any point of its run: the comments
    already visited are behind, the others are formatted in turn, and
    nothing else is written. *)
Lemma format_comments_spec (todo : list (treeloc * str)) :
  forall (done : list (treeloc * str)) (s : ida lvar_table),
    user_cmts s = done ++ todo ->
    NoDup (map fst (done ++ todo)) ->
    user_cmts (format_comments str_format (map fst todo) args kwargs s)
      = done ++ map (formatted str_format args kwargs) todo
    /\ func_cmt (format_comments str_format (map fst todo) args kwargs s)
       = func_cmt s
    /\ saved_cmts (format_comments str_format (map fst todo) args kwargs s)
       = saved_cmts s
    /\ lvars (format_comments str_format (map fst todo) args kwargs s)
       = lvars s
    /\ screen_ea (format_comments str_format (map fst todo) args kwargs s)
       = screen_ea s
    /\ log (format_comments str_format (map fst todo) args kwargs s) = log s.
Proof.
  induction todo as [|[k t] todo IH]; intros done s Hu Hnd.
  - cbn [map format_comments]. rewrite Hu. repeat split.
  - assert (Hfresh : ~ In k (map fst done)).
    { rewrite map_app in Hnd. cbn [map fst] in Hnd.
      apply NoDup_remove_2 in Hnd. intros Hin. apply Hnd.
      apply in_or_app. left. exact Hin. }
    cbn [map fst format_comments]. rewrite Hu, find_fresh by exact Hfresh.
    set (t' := match str_format t args kwargs with
               | Some text => text
               | None => t
               end).
    assert (Hstep : exists s1 : ida lvar_table,
               match str_format t args kwargs with
               | Some text => set_user_cmt k text s
               | None => s
               end = s1
               /\ user_cmts s1 = (done ++ [(k, t')]) ++ todo
               /\ func_cmt s1 = func_cmt s /\ saved_cmts s1 = saved_cmts s
               /\ lvars s1 = lvars s /\ screen_ea s1 = screen_ea s
               /\ log s1 = log s).
    { subst t'. destruct (str_format t args kwargs) as [text|].
      - eexists. split; [reflexivity|]. cbn [set_user_cmt user_cmts].
        rewrite Hu, update_fresh by exact Hfresh.
        rewrite <- app_assoc. repeat split.
      - exists s. split; [reflexivity|]. rewrite Hu, <- app_assoc.
        repeat split. }
    destruct Hstep as [s1 [-> [Hu1 [H1 [H2 [H3 [H4 H5]]]]]]].
    assert (Hnd1 : NoDup (map fst ((done ++ [(k, t')]) ++ todo))).
    { rewrite <- app_assoc. cbn [app].
      rewrite map_app in *. cbn [map fst] in *. exact Hnd. }
    destruct (IH _ s1 Hu1 Hnd1) as [G0 [G1 [G2 [G3 [G4 G5]]]]].
    rewrite G0, G1, G2, G3, G4, G5, H1, H2, H3, H4, H5.
    rewrite <- app_assoc. repeat split.
Qed.

End FormatComments.

Lemma int_of_key_inl (k : str) (e : exn) :
  int_of_key k = inl e -> e = IntValueError k.
Proof.
  unfold int_of_key. destruct (forallb is_decimal k).
  - destruct (int_of_digits k); intros H; inversion H; reflexivity.
  - intros H; inversion H; reflexivity.
Qed.

Lemma int_of_key_inr (k : str) (v : Z) :
  int_of_key k = inr v -> forallb is_decimal k = true /\ v = py_int k.
Proof.
  unfold int_of_key, int_of_digits. destruct (forallb is_decimal k).
  - destruct (length k <=? max_str_digits)%nat; intros H; inversion H.
    split; reflexivity.
  - discriminate.
Qed.

(** A key that [int] refuses makes the maximum raise, with the first
    such key. *)
Lemma max_int_raises (keys : list str) :
  forall (best : option Z) (k : str) (e : exn),
    In k keys -> int_of_key k = inl e ->
    exists k', In k' keys /\ max_int keys best = inl (IntValueError k').
Proof.
  induction keys as [|k0 keys IH]; intros best k e Hin Hk; [contradiction|].
  cbn [max_int]. destruct (int_of_key k0) as [e0|v0] eqn:E0.
  - exists k0. split; [left; reflexivity|].
    rewrite (int_of_key_inl _ E0). reflexivity.
  - destruct Hin as [-> | Hin]; [congruence|].
    destruct (IH (Some (match best with
                        | Some m => if (v0 >? m)%Z then v0 else m
                        | None => v0
                        end)) k e Hin Hk) as [k' [Hk' Hm]].
    exists k'. split; [right; exact Hk'|exact Hm].
Qed.

(** The maximum, when it is reached: an upper bound of the values of the
    keys and of the value carried, and one of them. *)
Lemma max_int_spec (keys : list str) :
  forall (best : option Z) (m : Z),
    max_int keys best = inr m ->
    (forall k, In k keys ->
               forallb is_decimal k = true /\ (py_int k <= m)%Z)
    /\ (forall b, best = Some b -> (b <= m)%Z)
    /\ ((exists k, In k keys /\ py_int k = m) \/ best = Some m).
Proof.
  induction keys as [|k0 keys IH]; intros best m.
  - cbn [max_int]. destruct best as [b|]; [|discriminate].
    intros H; inversion H; subst. split; [intros k []|].
    split; [intros b' Hb; inversion Hb; lia|right; reflexivity].
  - cbn [max_int]. destruct (int_of_key k0) as [e0|v0] eqn:E0; [discriminate|].
    apply int_of_key_inr in E0. destruct E0 as [Hd ->].
    intros H. apply IH in H. destruct H as [Hall [Hbest Hreach]].
    assert (Hk0 : (py_int k0 <= m)%Z
                  /\ forall b, best = Some b -> (b <= m)%Z).
    { destruct best as [b|].
      - destruct (Z.gtb_spec (py_int k0) b) as [Hgt|Hle].
        + pose proof (Hbest _ eq_refl). split; [lia|].
          intros b' Hb; inversion Hb; lia.
        + pose proof (Hbest _ eq_refl). split; [lia|].
          intros b' Hb; inversion Hb; lia.
      - pose proof (Hbest _ eq_refl). split; [lia|discriminate]. }
    destruct Hk0 as [Hk0 Hb]. split; [|split; [exact Hb|]].
    + intros k [<- | Hin]; [split; assumption|apply Hall; exact Hin].
    + destruct Hreach as [[k [Hin Hk]] | Hreach].
      * left. exists k. split; [right; exact Hin|exact Hk].
      * destruct best as [b|].
        -- destruct (Z.gtb_spec (py_int k0) b) as [Hgt|Hle].
           ++ left. exists k0. split; [left; reflexivity|].
              inversion Hreach; reflexivity.
           ++ right. exact Hreach.
        -- left. exists k0. split; [left; reflexivity|].
           inversion Hreach; reflexivity.
Qed.

Lemma digit_value_nonneg (c : ascii) :
  is_decimal c = true -> (0 <= digit_value c)%Z.
Proof.
  unfold is_decimal, between, digit_value. intros H.
  apply andb_prop in H. destruct H as [H _]. apply N.leb_le in H. lia.
Qed.

Lemma py_int_nonneg (s : str) :
  forallb is_decimal s = true -> (0 <= py_int s)%Z.
Proof.
  unfold py_int.
  assert (G : forall (l : str) (acc : Z),
             (0 <= acc)%Z -> forallb is_decimal l = true ->
             (0 <= fold_left (fun a c => 10 * a + digit_value c) l acc)%Z).
  { induction l as [|c l IH]; intros acc Hacc Hl.
    - cbn [fold_left]. exact Hacc.
    - cbn [forallb] in Hl. apply andb_prop in Hl. destruct Hl as [Hc Hl].
      cbn [fold_left]. apply IH; [|exact Hl].
      pose proof (digit_value_nonneg _ Hc). lia. }
  intros H. apply G; [lia|exact H].
Qed.

Section InlineCommentsRun.

Variable lvar_table : Type.
Variable str_format : str -> list (option json) -> dict -> option str.

(** X12: when the positional arguments can be built, the callback
    formats every inline comment of the function once, leaves a comment
    whose formatting raises as it was, keeps the comments in place, saves
    exactly the comments it leaves, and touches neither the function
    comments nor the variables; it ends with the refresh of the view and
    its notice. *)
Theorem inline_comments_formats_each_comment :
  forall (address : Z) (view : bool) (response : str) (retries : Z)
         (s : ida lvar_table) (kwargs : dict) (effects : list effect)
         (args : list (option json)),
    extract_json_or_retry response retries
      (Continuation InlineCommentsCallback address view)
      = Some (Some (JObj kwargs), effects) ->
    make_args kwargs = inr args ->
    NoDup (map fst (user_cmts s)) ->
    exists s' : ida lvar_table,
      inline_comments_callback str_format address view response retries s
        = Finished s'
      /\ user_cmts s' = map (formatted str_format args kwargs) (user_cmts s)
      /\ saved_cmts s' = user_cmts s'
      /\ func_cmt s' = func_cmt s
      /\ lvars s' = lvars s
      /\ log s' = log s ++ (if view then [RefreshView false] else [])
                  ++ [Print MsgCommentsFinished].
Proof.
  intros address view response retries s kwargs effects args Hx Hargs Hnd.
  unfold inline_comments_callback. rewrite Hx.
  rewrite (extract_json_data _ _ _ Hx), emit_nil.
  destruct kwargs as [|kv kwargs]; [discriminate Hargs|].
  rewrite Hargs.
  destruct (@format_comments_spec lvar_table str_format args (kv :: kwargs)
              (user_cmts s) [] s eq_refl Hnd)
    as [G0 [G1 [G2 [G3 [G4 G5]]]]].
  cbn [app] in G0.
  eexists. split; [reflexivity|].
  unfold refresh, save_user_cmts.
  destruct view; cbn [emit user_cmts saved_cmts func_cmt lvars log];
    rewrite ?G0, ?G1, ?G3, ?G5, <- ?app_assoc; repeat split.
Qed.

(** X13: a key that [str.isdigit] accepts and [int] refuses, such as a
    superscript digit, makes the callback raise the error of [int] while
    it builds the positional arguments: nothing is formatted, saved or
    printed. *)
Theorem inline_comments_undecodable_key_raises :
  forall (address : Z) (view : bool) (response : str) (retries : Z)
         (s : ida lvar_table) (kwargs : dict) (effects : list effect)
         (k : str),
    extract_json_or_retry response retries
      (Continuation InlineCommentsCallback address view)
      = Some (Some (JObj kwargs), effects) ->
    In k (dict_keys kwargs) ->
    str_isdigit k = true ->
    forallb is_decimal k = false ->
    exists k',
      In k' (numeric_keys kwargs)
      /\ make_args kwargs = inl (IntValueError k')
      /\ inline_comments_callback str_format address view response retries s
         = Raised (IntValueError k') s.
Proof.
  intros address view response retries s kwargs effects k Hx Hin Hd Hn.
  assert (Hk : int_of_key k = inl (IntValueError k))
    by (unfold int_of_key; rewrite Hn; reflexivity).
  assert (Hf : In k (numeric_keys kwargs))
    by (apply filter_In; split; assumption).
  destruct (@max_int_raises (numeric_keys kwargs) None k _ Hf Hk)
    as [k' [Hk' Hm]].
  assert (Hargs : make_args kwargs = inl (IntValueError k')).
  { unfold make_args. fold (numeric_keys kwargs). rewrite Hm. reflexivity. }
  exists k'. split; [exact Hk'|]. split; [exact Hargs|].
  unfold inline_comments_callback. rewrite Hx.
  rewrite (extract_json_data _ _ _ Hx), emit_nil.
  destruct kwargs as [|kv kwargs]; [contradiction|].
  rewrite Hargs. reflexivity.
Qed.

End InlineCommentsRun.

Lemma inline_comments_formats_each_comment_witness :
  exists s' : ida unit,
    inline_comments_callback format_placeholder 4096 true
      (json_text "{'0': 'unused', 'purpose': 'checks the size'}") 0
      (sample_ida []) = Finished s'
    /\ user_cmts s'
       = map (formatted format_placeholder
                [Some (JStr (py "unused"))]
                [(py "0", JStr (py "unused"));
                 (py "purpose", JStr (py "checks the size"))])
             (user_cmts (sample_ida []))
    /\ saved_cmts s' = user_cmts s'
    /\ func_cmt s' = func_cmt (sample_ida [])
    /\ lvars s' = lvars (sample_ida [])
    /\ log s' = log (sample_ida []) ++ [RefreshView false]
                ++ [Print MsgCommentsFinished].
Proof.
  apply (@inline_comments_formats_each_comment unit format_placeholder 4096
           true (json_text "{'0': 'unused', 'purpose': 'checks the size'}") 0
           (sample_ida [])
           [(py "0", JStr (py "unused"));
            (py "purpose", JStr (py "checks the size"))] []
           [Some (JStr (py "unused"))]).
  - vm_compute; reflexivity.
  - vm_compute; reflexivity.
  - cbn [sample_ida user_cmts map fst]. constructor; [|constructor].
    intros H; exact H.
Defined.

Lemma inline_comments_undecodable_key_witness :
  exists k',
    In k' (numeric_keys [([superscript_two], JStr (py "x"))])
    /\ make_args [([superscript_two], JStr (py "x"))]
       = inl (IntValueError k')
    /\ inline_comments_callback no_format 4096 true
         ("{" :: quote :: superscript_two :: quote :: json_text ": 'x'}") 0
         (sample_ida [])
       = Raised (IntValueError k') (sample_ida []).
Proof.
  apply (@inline_comments_undecodable_key_raises unit no_format 4096 true
           ("{" :: quote :: superscript_two :: quote :: json_text ": 'x'}") 0
           (sample_ida []) [([superscript_two], JStr (py "x"))] []
           [superscript_two]).
  - vm_compute; reflexivity.
  - left; reflexivity.
  - vm_compute; reflexivity.
  - vm_compute; reflexivity.
Defined.

(** X14: the positional arguments that line 140 builds are exactly as
    many as the largest numeric key needs: every numeric key has its
    position, one of them has the last, and the argument at a position is
    what the mapping holds under the decimal writing of that position
    ([None] when it holds nothing). *)
Theorem make_args_covers_numeric_keys :
  forall (kwargs : dict) (args : list (option json)),
    make_args kwargs = inr args ->
    (exists k,
        In k (numeric_keys kwargs)
        /\ Z.of_nat (length args) = (py_int k + 1)%Z)
    /\ (forall k, In k (numeric_keys kwargs) ->
                  (0 <= py_int k < Z.of_nat (length args))%Z)
    /\ (forall i, i < length args ->
                  nth_error args i = Some (dict_get kwargs (str_of_nat i))).
Proof.
  intros kwargs args. unfold make_args. fold (numeric_keys kwargs).
  destruct (max_int (numeric_keys kwargs) None) as [e|m] eqn:E; [discriminate|].
  intros H. inversion H as [Ha]. clear H.
  destruct (max_int_spec _ _ E) as [Hall [_ Hreach]].
  destruct Hreach as [[k0 [Hin0 Hk0]] | Hreach]; [|discriminate].
  destruct (Hall _ Hin0) as [Hd0 _].
  pose proof (py_int_nonneg _ Hd0) as Hpos.
  assert (Hlen : Z.of_nat (length (map (fun i => dict_get kwargs (str_of_nat i))
                                       (seq 0 (Z.to_nat (m + 1)))))
                 = (m + 1)%Z)
    by (rewrite length_map, length_seq; lia).
  split; [|split].
  - exists k0. split; [exact Hin0|]. rewrite Hlen. lia.
  - intros k Hin. destruct (Hall _ Hin) as [Hd Hle].
    pose proof (py_int_nonneg _ Hd). rewrite Hlen. lia.
  - intros i Hi. rewrite length_map, length_seq in Hi.
    rewrite nth_error_map.
    rewrite (nth_error_nth' _ 0) by (rewrite length_seq; exact Hi).
    rewrite seq_nth by exact Hi. reflexivity.
Qed.

Lemma make_args_covers_numeric_keys_witness :
  (exists k,
      In k (numeric_keys [(py "2", JStr (py "two")); (py "name", JNull)])
      /\ Z.of_nat (length [@None json; None; Some (JStr (py "two"))])
         = (py_int k + 1)%Z)
  /\ (forall k,
         In k (numeric_keys [(py "2", JStr (py "two")); (py "name", JNull)]) ->
         (0 <= py_int k
          < Z.of_nat (length [@None json; None; Some (JStr (py "two"))]))%Z)
  /\ (forall i,
         i < length [@None json; None; Some (JStr (py "two"))] ->
         nth_error [@None json; None; Some (JStr (py "two"))] i
         = Some (dict_get [(py "2", JStr (py "two")); (py "name", JNull)]
                          (str_of_nat i))).
Proof.
  apply (@make_args_covers_numeric_keys
           [(py "2", JStr (py "two")); (py "name", JNull)]
           [None; None; Some (JStr (py "two"))]).
  vm_compute. reflexivity.
Defined.

(* ===================================================================== *)
(** * Further properties of the renaming callback *)
(* ===================================================================== *)

Section RenameFrame.

Variable lvar_table : Type.
Variable rename_lvar : lvar_table -> Z -> str -> json -> bool * lvar_table.
Variable func_start : Z -> Z.

(** The renaming loop writes to the variables and to the log only. *)
Lemma rename_all_frame (function_addr : Z) (pairs : dict) :
  forall s : ida lvar_table,
    user_cmts (snd (rename_all rename_lvar function_addr pairs s))
      = user_cmts s
    /\ saved_cmts (snd (rename_all rename_lvar function_addr pairs s))
       = saved_cmts s
    /\ screen_ea (snd (rename_all rename_lvar function_addr pairs s))
       = screen_ea s.
Proof.
  induction pairs as [|[n new] pairs IH]; intros s.
  - repeat split.
  - cbn [rename_all].
    destruct (rename_lvar (lvars s) function_addr n new) as [ok t].
    destruct (IH (emit [RenameLvar function_addr n new ok] (set_lvars t s)))
      as [H1 [H2 H3]].
    destruct (rename_all rename_lvar function_addr pairs
                (emit [RenameLvar function_addr n new ok] (set_lvars t s)))
      as [replaced s1].
    cbn [snd] in *. rewrite H1, H2, H3. repeat split.
Qed.

(** X10: whatever the reply and whatever the host answers, the renaming
    callback leaves the inline comments, what was saved of them, and the
    comments of every other function as they were; what it logged before
    stays logged; and this holds as well when it ends by raising. *)
Theorem rename_callback_frame :
  forall (address : Z) (view : bool) (response : str) (retries : Z)
         (s : ida lvar_table),
    match rename_callback rename_lvar func_start address view response
            retries s with
    | Finished s' | Raised _ s' =>
        user_cmts s' = user_cmts s
        /\ saved_cmts s' = saved_cmts s
        /\ screen_ea s' = screen_ea s
        /\ (forall a, a <> address -> func_cmt s' a = func_cmt s a)
        /\ exists l, log s' = log s ++ l
    | _ => True
    end.
Proof.
  intros address view response retries s. unfold rename_callback.
  destruct (extract_json_or_retry response retries _) as [[names effects]|];
    [|exact I].
  assert (Hemit : user_cmts (emit effects s) = user_cmts s
                  /\ saved_cmts (emit effects s) = saved_cmts s
                  /\ screen_ea (emit effects s) = screen_ea s
                  /\ (forall a, a <> address ->
                                func_cmt (emit effects s) a = func_cmt s a)
                  /\ exists l, log (emit effects s) = log s ++ l).
  { repeat split. exists effects. reflexivity. }
  destruct names as [[| | | | | |names]|]; try exact I; try exact Hemit.
  destruct names as [|kv names']; [exact Hemit|].
  set (names := kv :: names').
  destruct (rename_all_attempts rename_lvar (func_start address) names
              (emit effects s)) as [results [_ [_ [Hl Hc]]]].
  destruct (rename_all_frame (func_start address) names (emit effects s))
    as [H1 [H2 H3]].
  destruct (rename_all rename_lvar (func_start address) names (emit effects s))
    as [replaced s1].
  cbn [snd] in Hl, Hc, H1, H2, H3.
  cbn [emit user_cmts saved_cmts screen_ea log func_cmt] in Hl, Hc, H1, H2, H3.
  assert (Hfin : forall s2 : ida lvar_table,
             user_cmts s2 = user_cmts s1 ->
             saved_cmts s2 = saved_cmts s1 ->
             screen_ea s2 = screen_ea s1 ->
             (forall a, a <> address -> func_cmt s2 a = func_cmt s1 a) ->
             log s2 = log s1 ->
             let s' := emit [Print (MsgRenameFinished
                                      (Z.of_nat (length replaced)))]
                         (refresh view true s2) in
             user_cmts s' = user_cmts s
             /\ saved_cmts s' = saved_cmts s
             /\ screen_ea s' = screen_ea s
             /\ (forall a, a <> address -> func_cmt s' a = func_cmt s a)
             /\ exists l, log s' = log s ++ l).
  { intros s2 G1 G2 G3 G4 G5. unfold refresh.
    destruct view; cbn [emit user_cmts saved_cmts screen_ea log func_cmt];
      rewrite G1, G2, G3, G5, H1, H2, H3, Hl;
      (split; [reflexivity|]); (split; [reflexivity|]);
      (split; [reflexivity|]);
      (split; [intros a Ha; rewrite (G4 a Ha), Hc; reflexivity|]);
      rewrite <- !app_assoc; eexists; reflexivity. }
  destruct (func_cmt s1 address) as [|c0 comment] eqn:Ecmt.
  - apply Hfin; reflexivity.
  - destruct replaced as [|n0 replaced].
    + apply Hfin; reflexivity.
    + destruct (substitute_names names (n0 :: replaced) (c0 :: comment))
        as [[e|comment']|]; [| |exact I].
      * rewrite H1, H2, H3, Hl. repeat split.
        -- intros a _. rewrite Hc. reflexivity.
        -- rewrite <- app_assoc. eexists; reflexivity.
      * apply Hfin; try reflexivity.
        intros a Ha. apply Z.eqb_neq in Ha.
        cbn [set_func_cmt func_cmt]. rewrite Ha. reflexivity.
Qed.

End RenameFrame.

(* ===================================================================== *)
(** * The callbacks and the threads they start *)
(* ===================================================================== *)

Lemma spawned_app (l1 l2 : list effect) :
  spawned (l1 ++ l2) = spawned l1 ++ spawned l2.
Proof.
  induction l1 as [|e l1 IH]; [reflexivity|].
  destruct e; cbn [app spawned]; rewrite IH; reflexivity.
Qed.

Lemma requests_of_app (t1 t2 : list query_event) :
  requests_of (t1 ++ t2) = requests_of t1 ++ requests_of t2.
Proof.
  induction t1 as [|e t1 IH]; [reflexivity|].
  destruct e; cbn [app requests_of]; rewrite IH; reflexivity.
Qed.

Lemma deliveries_app (t1 t2 : list query_event) :
  deliveries (t1 ++ t2) = deliveries t1 ++ deliveries t2.
Proof.
  induction t1 as [|e t1 IH]; [reflexivity|].
  destruct e; cbn [app deliveries]; rewrite IH; reflexivity.
Qed.

Lemma spawned_attempts (function_addr : Z)
    (results : list (str * json * bool)) :
  spawned (map (attempt_entry function_addr) results) = [].
Proof. induction results as [|a results IH]; [reflexivity|exact IH]. Qed.

Section Callbacks.

Variable lvar_table : Type.
Variable rename_lvar : lvar_table -> Z -> str -> json -> bool * lvar_table.
Variable func_start : Z -> Z.
Variable str_format : str -> list (option json) -> dict -> option str.
Variable textwrap_wrap : str -> list str.

Lemma added_app (s s' : ida lvar_table) (l : list effect) :
  log s' = log s ++ l -> added s s' = l.
Proof.
  intros H. unfold added. rewrite H, skipn_app, skipn_all, Nat.sub_diag.
  reflexivity.
Qed.

Lemma format_comments_log (keys : list treeloc) (args : list (option json))
    (kwargs : dict) :
  forall s : ida lvar_table,
    log (format_comments str_format keys args kwargs s) = log s.
Proof.
  induction keys as [|key keys IH]; intros s; [reflexivity|].
  cbn [format_comments]. rewrite IH.
  destruct (find _ (user_cmts s)) as [[k cmt]|]; [|reflexivity].
  destruct (str_format cmt args kwargs); reflexivity.
Qed.

Lemma comment_callback_log (address : Z) (view : bool) (response : str)
    (s : ida lvar_table) :
  exists l,
    log (comment_callback textwrap_wrap address view response s) = log s ++ l
    /\ spawned l = [].
Proof.
  unfold comment_callback, refresh. destruct view; cbn [emit log set_func_cmt].
  - exists [RefreshView false; Print MsgExplainFinished].
    rewrite <- app_assoc. split; reflexivity.
  - exists [Print MsgExplainFinished]. split; reflexivity.
Qed.

Lemma inline_comments_callback_log (address : Z) (view : bool)
    (response : str) (retries : Z) (s s' : ida lvar_table) :
  inline_comments_callback str_format address view response retries s
    = Finished s' ->
  exists l,
    log s' = log s ++ l
    /\ one_repair retries
         (Continuation InlineCommentsCallback address view (retries + 1)) l.
Proof.
  unfold inline_comments_callback.
  destruct (extract_json_or_retry response retries _)
    as [[kwargs effects]|] eqn:E; [|discriminate].
  pose proof (extract_json_spawned _ _ _ E) as Hsp.
  destruct kwargs as [[| | | | | |kwargs]|]; try discriminate.
  - destruct kwargs as [|kv kwargs].
    + intros H. inversion H. exists effects. split; [reflexivity|exact Hsp].
    + rewrite (extract_json_data _ _ _ E), emit_nil.
      destruct (make_args (kv :: kwargs)) as [e|args]; [discriminate|].
      intros H. inversion H. unfold refresh, save_user_cmts.
      destruct view; cbn [emit log]; rewrite format_comments_log.
      * exists [RefreshView false; Print MsgCommentsFinished].
        rewrite <- app_assoc. split; [reflexivity|left; reflexivity].
      * exists [Print MsgCommentsFinished].
        split; [reflexivity|left; reflexivity].
  - intros H. inversion H. exists effects. split; [reflexivity|exact Hsp].
Qed.

Lemma rename_callback_log (address : Z) (view : bool) (response : str)
    (retries : Z) (s s' : ida lvar_table) :
  rename_callback rename_lvar func_start address view response retries s
    = Finished s' ->
  exists l,
    log s' = log s ++ l
    /\ one_repair retries
         (Continuation RenameCallback (screen_ea s) view (retries + 1)) l.
Proof.
  unfold rename_callback.
  destruct (extract_json_or_retry response retries _)
    as [[names effects]|] eqn:E; [|discriminate].
  pose proof (extract_json_spawned _ _ _ E) as Hsp.
  destruct names as [[| | | | | |names]|]; try discriminate.
  - destruct names as [|kv names'].
    + intros H. inversion H. exists effects. split; [reflexivity|exact Hsp].
    + rewrite (extract_json_data _ _ _ E), emit_nil.
      set (names := kv :: names').
      destruct (rename_all_attempts rename_lvar (func_start address) names s)
        as [results [_ [_ [Hl _]]]].
      destruct (rename_all rename_lvar (func_start address) names s)
        as [replaced s1].
      cbn [snd] in Hl.
      assert (Hfin : forall s2 : ida lvar_table,
                 log s2 = log s1 ->
                 Finished
                   (emit [Print (MsgRenameFinished
                                   (Z.of_nat (length replaced)))]
                      (refresh view true s2)) = Finished s' ->
                 exists l,
                   log s' = log s ++ l
                   /\ one_repair retries
                        (Continuation RenameCallback (screen_ea s) view
                           (retries + 1)) l).
      { intros s2 H2 H. inversion H. unfold refresh.
        destruct view; cbn [emit log]; rewrite H2, Hl, <- !app_assoc;
          eexists; (split; [reflexivity|]); left;
          rewrite spawned_app, spawned_attempts; reflexivity. }
      destruct (func_cmt s1 address) as [|c0 comment].
      * apply Hfin. reflexivity.
      * destruct replaced as [|n0 replaced].
        -- apply Hfin. reflexivity.
        -- destruct (substitute_names names (n0 :: replaced) (c0 :: comment))
             as [[e|comment']|]; try discriminate.
           apply Hfin. reflexivity.
  - intros H. inversion H. exists effects. split; [reflexivity|exact Hsp].
Qed.

(** X11: a callback that finishes has sent at most one repair query,
    and none from the third retry on.  The repair of the inline comments
    stays bound to the address the action was started on; the repair of a
    renaming is bound to the address under the cursor at the time of the
    reply (line 283), whatever the address the callback was given. *)
Theorem repair_query_binding :
  forall (address : Z) (view : bool) (response : str) (retries : Z)
         (s s' : ida lvar_table),
    (inline_comments_callback str_format address view response retries s
       = Finished s' ->
     one_repair retries
       (Continuation InlineCommentsCallback address view (retries + 1))
       (added s s'))
    /\ (rename_callback rename_lvar func_start address view response retries s
          = Finished s' ->
        one_repair retries
          (Continuation RenameCallback (screen_ea s) view (retries + 1))
          (added s s')).
Proof.
  intros address view response retries s s'. split; intros H.
  - destruct (inline_comments_callback_log _ _ _ _ _ H) as [l [Hl Hr]].
    rewrite (@added_app s s' l Hl). exact Hr.
  - destruct (rename_callback_log _ _ _ _ _ H) as [l [Hl Hr]].
    rewrite (@added_app s s' l Hl). exact Hr.
Qed.

End Callbacks.

Lemma repair_query_binding_witness :
  one_repair 0 (Continuation RenameCallback 4096 true (0 + 1))
    (added (sample_vars (py "v1 is the size") [py "v1"])
       (emit [Print MsgCannotExtract; Print MsgRequestSent;
              Spawn (fix_response_prompt (py "I cannot help with that."))
                    (Continuation RenameCallback 4096 true 1)]
          (sample_vars (py "v1 is the size") [py "v1"]))).
Proof.
  apply (proj2 (@repair_query_binding (list str) list_rename (fun a => a)
                  no_format 8192 true (py "I cannot help with that.") 0
                  (sample_vars (py "v1 is the size") [py "v1"])
                  (emit [Print MsgCannotExtract; Print MsgRequestSent;
                         Spawn (fix_response_prompt
                                  (py "I cannot help with that."))
                               (Continuation RenameCallback 4096 true 1)]
                     (sample_vars (py "v1 is the size") [py "v1"])))).
  vm_compute. reflexivity.
Defined.

(** A call whose request gets an outcome that ends the chain sends that
    one request. *)
Lemma query_model_single (fuel : nat) (api : nat -> api_outcome) (n : nat)
    (query : str) (max_tokens : Z) :
  ends_chain (api n) = true ->
  exists ev,
    query_model (S fuel) api n query max_tokens
    = Some [Sent (chat_request query); ev]
    /\ requests_of [ev] = [].
Proof.
  unfold ends_chain. cbn [query_model].
  destruct (api n) as [c|e|e|e]; intros H;
    try (eexists; split; reflexivity).
  destruct (context_limits e) as [|hl pt|dg];
    try (eexists; split; reflexivity).
  replace (hl - pt >=? 750)%Z with false
    by (symmetry; rewrite Z.geb_leb; apply Z.leb_gt; apply Z.ltb_lt; exact H).
  eexists; split; reflexivity.
Qed.

Section Threads.

Variable lvar_table : Type.
Variable rename_lvar : lvar_table -> Z -> str -> json -> bool * lvar_table.
Variable func_start : Z -> Z.
Variable str_format : str -> list (option json) -> dict -> option str.
Variable textwrap_wrap : str -> list str.
Variable decompile : Z -> str.

(** A bound callback that finishes has started at most one thread, and
    the callback of that thread counts one retry more. *)
Lemma run_callback_spawns (k : continuation) (response : str)
    (s s' : ida lvar_table) :
  run_callback rename_lvar func_start str_format textwrap_wrap k response s
    = Finished s' ->
  spawned (added s s') = []
  \/ ((k_retries k < 3)%Z
      /\ exists q k',
           spawned (added s s') = [(q, k')]
           /\ k_retries k' = (k_retries k + 1)%Z).
Proof.
  unfold run_callback. destruct (k_handler k); intros H.
  - inversion H.
    destruct (comment_callback_log textwrap_wrap (k_address k) (k_view k)
                response s) as [l [Hl Hs]].
    left. rewrite (@added_app _ _ _ l Hl). exact Hs.
  - destruct (inline_comments_callback_log _ _ _ _ _ _ H) as [l [Hl Hr]].
    rewrite (@added_app _ s s' l Hl).
    destruct Hr as [Hr | [Hlt [q Hq]]]; [left; exact Hr|].
    right. split; [exact Hlt|]. eexists; eexists. split; [exact Hq|].
    reflexivity.
  - destruct (rename_callback_log _ _ _ _ _ _ _ H) as [l [Hl Hr]].
    rewrite (@added_app _ s s' l Hl).
    destruct Hr as [Hr | [Hlt [q Hq]]]; [left; exact Hr|].
    right. split; [exact Hlt|]. eexists; eexists. split; [exact Hq|].
    reflexivity.
Qed.

Section Endpoint.

Variable api : nat -> api_outcome.
Hypothesis api_ends : forall i, ends_chain (api i) = true.

(** The threads of one action against an endpoint that never asks for a
    smaller completion: one request each, and as many threads as the
    retry count leaves room for. *)
Lemma serve_bounded (fuel threads : nat) :
  forall (k : continuation) (s : ida lvar_table) (n : nat) (query : str),
    (0 <= k_retries k)%Z ->
    Z.to_nat (3 - k_retries k) < threads ->
    exists t o,
      serve rename_lvar func_start str_format textwrap_wrap
        threads (S fuel) api n query k s = Some (t, o)
      /\ length (requests_of t) <= S (Z.to_nat (3 - k_retries k))
      /\ length (deliveries t) <= length (requests_of t).
Proof.
  induction threads as [|threads IH]; intros k s n query Hk Hth; [lia|].
  destruct (query_model_single fuel api n query default_max_tokens
              (api_ends n)) as [ev [Hq Hev]].
  assert (Hreq : requests_of [Sent (chat_request query); ev]
                 = [chat_request query]).
  { change (requests_of [Sent (chat_request query); ev])
      with (chat_request query :: requests_of [ev]).
    rewrite Hev. reflexivity. }
  assert (Hdel : length (deliveries [Sent (chat_request query); ev]) <= 1)
    by (destruct ev; cbn; lia).
  cbn [serve]. rewrite Hq.
  destruct (deliveries [Sent (chat_request query); ev])
    as [|response ds] eqn:Ed.
  - eexists; eexists. split; [reflexivity|]. rewrite Hreq, Ed.
    cbn [length]. lia.
  - destruct (run_callback rename_lvar func_start str_format textwrap_wrap
                k response s) as [s'|e s'|] eqn:Er.
    + destruct (run_callback_spawns _ _ _ Er)
        as [Hsp | [Hlt [q [k' [Hsp Hk']]]]]; rewrite Hsp.
      * eexists; eexists. split; [reflexivity|]. rewrite Hreq, Ed.
        cbn [length] in *. lia.
      * destruct (IH k' s' (n + length (requests_of
                                          [Sent (chat_request query); ev]))
                    q ltac:(lia) ltac:(lia)) as [t' [o [Hs [Hr Hd]]]].
        rewrite Hs. eexists; eexists. split; [reflexivity|].
        rewrite requests_of_app, deliveries_app, !length_app, Hreq, Ed.
        cbn [length] in *. rewrite Hk' in Hr. split; lia.
    + eexists; eexists. split; [reflexivity|]. rewrite Hreq, Ed.
      cbn [length] in *. lia.
    + eexists; eexists. split; [reflexivity|]. rewrite Hreq, Ed.
      cbn [length] in *. lia.
Qed.

End Endpoint.

(** X17: one action of the user, whichever of the three, costs at most
    four requests when the endpoint never answers that the context
    length is exceeded with room for 750 tokens or more: the question,
    and at most three repair queries.  Four threads are enough for the
    action to come to its end, and no thread delivers more replies than
    it sent requests. *)
Theorem action_sends_at_most_four_requests :
  forall (api : nat -> api_outcome) (fuel : nat) (h : handler) (view : bool)
         (s : ida lvar_table),
    (forall i, ends_chain (api i) = true) ->
    exists t o,
      perform rename_lvar func_start str_format textwrap_wrap decompile
        4 (S fuel) api h view s = Some (t, o)
      /\ length (requests_of t) <= 4
      /\ length (deliveries t) <= length (requests_of t).
Proof.
  intros api fuel h view s api_ends. unfold perform.
  assert (Hl : log (activate decompile h view s)
               = log s ++ query_model_async
                            (prompt_of h (decompile (screen_ea s)))
                            (Continuation h (screen_ea s) view 0))
    by reflexivity.
  rewrite (@added_app _ s (activate decompile h view s) _ Hl).
  cbn [query_model_async spawned].
  destruct (@serve_bounded api api_ends fuel 4
              (Continuation h (screen_ea s) view 0)
              (activate decompile h view s) 0
              (prompt_of h (decompile (screen_ea s))))
    as [t [o [Hs [Hr Hd]]]].
  - cbn [k_retries]. lia.
  - cbn [k_retries]. change (Z.to_nat (3 - 0)) with 3. lia.
  - exists t, o. split; [exact Hs|]. split; [|exact Hd].
    cbn [k_retries] in Hr. change (Z.to_nat (3 - 0)) with 3 in Hr. exact Hr.
Qed.

End Threads.

Lemma action_sends_at_most_four_requests_witness :
  exists t o,
    perform list_rename (fun a => a) no_format one_line sample_decompile
      4 1 (always_reply (py "I cannot help with that.")) RenameCallback true
      (sample_vars (py "v1 is the size") [py "v1"]) = Some (t, o)
    /\ length (requests_of t) <= 4
    /\ length (deliveries t) <= length (requests_of t).
Proof.
  apply (@action_sends_at_most_four_requests (list str) list_rename
           (fun a => a) no_format one_line sample_decompile
           (always_reply (py "I cannot help with that.")) 0 RenameCallback
           true (sample_vars (py "v1 is the size") [py "v1"])).
  intros i. reflexivity.
Defined.
